(** * Audio captcha: decode, resample, distort, encode

    A shallow embedding of [captcha_generators/audio_captcha.py]
    (class [AudioCaptcha]) together with the parts of the Python
    standard library it calls ([wave], [struct], [base64], [random]),
    and the properties of the signal path proved over that embedding.

    Python integers are [Z], Python floats are IEEE-754 binary64
    primitive floats, [bytes] objects are lists of [byte], and raised
    exceptions are the left injection of a sum type. *)

From Stdlib Require Import String Ascii.
From Stdlib Require Import ZArith List Bool Lia.
From Stdlib Require Import Strings.Byte.
From Stdlib Require Import Floats Uint63.
Import ListNotations.
Local Open Scope Z_scope.
Set Warnings "-inexact-float".

(** ** Exceptions and the error monad *)

Inductive exn : Type :=
| EOFError
| wave_Error (msg : string)
| struct_error
| RuntimeError
| ValueError
| ZeroDivisionError
| OverflowError
| IndexError.

Definition result (A : Type) : Type := sum exn A.

Definition ret {A : Type} (a : A) : result A := inr a.
Definition raise {A : Type} (e : exn) : result A := inl e.

Definition bind {A B : Type} (c : result A) (k : A -> result B) : result B :=
  match c with
  | inl e => inl e
  | inr a => k a
  end.

Declare Scope result_scope.
Delimit Scope result_scope with result.
Notation "x <- c ;; k" := (bind c (fun x => k))
  (at level 61, c at next level, right associativity) : result_scope.
Notation "' p <- c ;; k" := (bind c (fun x => let 'p := x in k))
  (at level 61, p pattern, c at next level, right associativity) : result_scope.
Local Open Scope result_scope.

Definition is_ok {A : Type} (c : result A) : bool :=
  match c with inr _ => true | inl _ => false end.

(** ** Bytes and little-endian integers ([struct], [int.from_bytes]) *)

Definition bytes : Type := list byte.

Definition byte_val (b : byte) : Z := Z.of_N (Byte.to_N b).

Definition byte_of (z : Z) : byte :=
  match Byte.of_N (Z.to_N (z mod 256)) with
  | Some b => b
  | None => x00
  end.

Definition blen (b : bytes) : Z := Z.of_nat (length b).

(** [b[i:j]] for [0 <= i]. *)
Definition bslice (b : bytes) (i j : Z) : bytes :=
  firstn (Z.to_nat (j - i)) (skipn (Z.to_nat i) b).

Fixpoint bytes_eqb (a b : bytes) : bool :=
  match a, b with
  | [], [] => true
  | x :: a', y :: b' => Byte.eqb x y && bytes_eqb a' b'
  | _, _ => false
  end.

(** [int.from_bytes(b, 'little')]. *)
Fixpoint le_unsigned (b : bytes) : Z :=
  match b with
  | [] => 0
  | x :: b' => byte_val x + 256 * le_unsigned b'
  end.

(** [int.from_bytes(b, 'little', signed=True)]: two's complement on
    [8 * len(b)] bits. *)
Definition le_signed (b : bytes) : Z :=
  let u := le_unsigned b in
  let w := 8 * blen b in
  if (0 <? w) && (2 ^ (w - 1) <=? u) then u - 2 ^ w else u.

(** The [n] low-order bytes of [z], least significant first. *)
Fixpoint le_bytes (n : nat) (z : Z) : bytes :=
  match n with
  | O => []
  | S n' => byte_of z :: le_bytes n' (z / 256)
  end.

(** [struct.pack('<H', v)], [struct.pack('<L', v)], [struct.pack('<h', v)]:
    [struct.error] when the value does not fit the field. *)
Definition pack_H (v : Z) : result bytes :=
  if (0 <=? v) && (v <? 2 ^ 16) then ret (le_bytes 2 v) else raise struct_error.

Definition pack_L (v : Z) : result bytes :=
  if (0 <=? v) && (v <? 2 ^ 32) then ret (le_bytes 4 v) else raise struct_error.

Definition pack_h (v : Z) : result bytes :=
  if (- 2 ^ 15 <=? v) && (v <? 2 ^ 15) then ret (le_bytes 2 v) else raise struct_error.

(** [struct.unpack_from('<L', b)] and [struct.unpack_from('<H', b)]: the
    buffer must hold the whole field. *)
Definition unpack_from_L (b : bytes) : result Z :=
  if blen b <? 4 then raise struct_error else ret (le_unsigned (firstn 4 b)).

Definition unpack_from_H (b : bytes) : result Z :=
  if blen b <? 2 then raise struct_error else ret (le_unsigned (firstn 2 b)).

(** [struct.unpack_from('<HHLLH', b)]: 14 bytes, no padding. *)
Definition unpack_from_HHLLH (b : bytes) : result (Z * Z * Z * Z * Z) :=
  if blen b <? 14 then raise struct_error
  else ret (le_unsigned (bslice b 0 2), le_unsigned (bslice b 2 4),
            le_unsigned (bslice b 4 8), le_unsigned (bslice b 8 12),
            le_unsigned (bslice b 12 14)).

(** [struct.unpack(f'<{n}h', b)] with [n = len(b) // 2]: the buffer must
    be exactly [2 * n] bytes long. *)
Fixpoint unpack_h_seq (b : bytes) : list Z :=
  match b with
  | x :: y :: b' => le_signed [x; y] :: unpack_h_seq b'
  | _ => []
  end.

Definition unpack_h (b : bytes) : result (list Z) :=
  if blen b =? 2 * (blen b / 2) then ret (unpack_h_seq b) else raise struct_error.

(** ** File-like objects: [io.BytesIO] and [wave._Chunk] *)

Class FileLike (F : Type) : Type := {
  f_read : Z -> F -> bytes * F;
  f_seek : Z -> Z -> F -> result F;
  f_tell : F -> Z
}.

Record BytesIO : Type := mkBytesIO {
  bio_buf : bytes;
  bio_pos : Z
}.

Definition BytesIO_read (size : Z) (f : BytesIO) : bytes * BytesIO :=
  let avail := Z.max 0 (blen (bio_buf f) - bio_pos f) in
  let n := if size <? 0 then avail else Z.min size avail in
  (bslice (bio_buf f) (bio_pos f) (bio_pos f + n),
   mkBytesIO (bio_buf f) (bio_pos f + n)).

Definition BytesIO_seek (pos whence : Z) (f : BytesIO) : result BytesIO :=
  if whence =? 0 then
    if pos <? 0 then raise ValueError else ret (mkBytesIO (bio_buf f) pos)
  else if whence =? 1 then
    ret (mkBytesIO (bio_buf f) (Z.max 0 (bio_pos f + pos)))
  else if whence =? 2 then
    ret (mkBytesIO (bio_buf f) (Z.max 0 (blen (bio_buf f) + pos)))
  else raise ValueError.

#[export] Instance BytesIO_FileLike : FileLike BytesIO := {
  f_read := BytesIO_read;
  f_seek := BytesIO_seek;
  f_tell := bio_pos
}.

(** [wave._Chunk], always built with [align=True], [bigendian=0] and
    [inclheader=False] over a file that has [tell], so [seekable] is
    true; the chunk is never closed while it is read. *)
Record _Chunk (F : Type) : Type := mk_Chunk {
  file : F;
  chunkname : bytes;
  chunksize : Z;
  size_read : Z;
  offset : Z
}.
Arguments mk_Chunk {F}.
Arguments file {F}.
Arguments chunkname {F}.
Arguments chunksize {F}.
Arguments size_read {F}.
Arguments offset {F}.

Section Chunk.
Context {F : Type} `{FileLike F}.

Definition _Chunk_init (f : F) : result (_Chunk F) :=
  let '(name, f1) := f_read 4 f in
  if blen name <? 4 then raise EOFError
  else
    let '(szb, f2) := f_read 4 f1 in
    match unpack_from_L szb with
    | inl _ => raise EOFError
    | inr sz => ret (mk_Chunk f2 name sz 0 (f_tell f2))
    end.

Definition _Chunk_seek (pos whence : Z) (c : _Chunk F) : result (_Chunk F) :=
  let pos := if whence =? 1 then pos + size_read c
             else if whence =? 2 then pos + chunksize c
             else pos in
  if (pos <? 0) || (chunksize c <? pos) then raise RuntimeError
  else
    f' <- f_seek (offset c + pos) 0 (file c) ;;
    ret (mk_Chunk f' (chunkname c) (chunksize c) pos (offset c)).

Definition _Chunk_read (size : Z) (c : _Chunk F) : bytes * _Chunk F :=
  if chunksize c <=? size_read c then ([], c)
  else
    let size := if size <? 0 then chunksize c - size_read c else size in
    let size := if chunksize c - size_read c <? size
                then chunksize c - size_read c else size in
    let '(data, f1) := f_read size (file c) in
    let sr := size_read c + blen data in
    if (sr =? chunksize c) && Z.odd (chunksize c) then
      let '(dummy, f2) := f_read 1 f1 in
      (data, mk_Chunk f2 (chunkname c) (chunksize c) (sr + blen dummy) (offset c))
    else
      (data, mk_Chunk f1 (chunkname c) (chunksize c) sr (offset c)).

Definition _Chunk_skip (c : _Chunk F) : result (_Chunk F) :=
  let n := chunksize c - size_read c in
  let n := if Z.odd (chunksize c) then n + 1 else n in
  f' <- f_seek n 1 (file c) ;;
  ret (mk_Chunk f' (chunkname c) (chunksize c) (size_read c + n) (offset c)).
End Chunk.

#[export] Instance _Chunk_FileLike (F : Type) `{FileLike F} : FileLike (_Chunk F) := {
  f_read := _Chunk_read;
  f_seek := _Chunk_seek;
  f_tell := size_read
}.

(** ** [wave.Wave_read] *)

Definition b_RIFF : bytes := list_byte_of_string "RIFF".
Definition b_WAVE : bytes := list_byte_of_string "WAVE".
Definition b_fmt : bytes := list_byte_of_string "fmt ".
Definition b_data : bytes := list_byte_of_string "data".

Definition WAVE_FORMAT_PCM : Z := 1.

Record Wave_read : Type := mkWave_read {
  getnchannels : Z;
  getsampwidth : Z;
  getframerate : Z;
  getnframes : Z;
  _framesize : Z;
  _data_chunk : _Chunk (_Chunk BytesIO)
}.

(** The fields [_read_fmt_chunk] stores on the reader. *)
Record fmt_fields : Type := mk_fmt {
  fmt_nchannels : Z;
  fmt_sampwidth : Z;
  fmt_framerate : Z;
  fmt_framesize : Z
}.

Definition _read_fmt_chunk (chunk : _Chunk (_Chunk BytesIO))
  : result (fmt_fields * _Chunk (_Chunk BytesIO)) :=
  let '(d, chunk) := _Chunk_read 14 chunk in
  match unpack_from_HHLLH d with
  | inl _ => raise EOFError
  | inr (wFormatTag, nchannels, framerate, dwAvgBytesPerSec, wBlockAlign) =>
    if wFormatTag =? WAVE_FORMAT_PCM then
      let '(d2, chunk) := _Chunk_read 2 chunk in
      match unpack_from_H d2 with
      | inl _ => raise EOFError
      | inr bits =>
        let sampwidth := (bits + 7) / 8 in
        if sampwidth =? 0 then raise (wave_Error "bad sample width")
        else if nchannels =? 0 then raise (wave_Error "bad # of channels")
        else ret (mk_fmt nchannels sampwidth framerate (nchannels * sampwidth), chunk)
      end
    else raise (wave_Error "unknown format")
  end.

(** The [while 1] loop of [Wave_read.initfp].  Every iteration reads an
    eight-byte chunk header from the file, so the number of bytes of the
    file bounds the number of iterations; [fuel] is that bound. *)
Fixpoint initfp_loop (fuel : nat) (_file : _Chunk BytesIO) (fmt : option fmt_fields)
  : result Wave_read :=
  match fuel with
  | O => raise RuntimeError
  | S fuel' =>
    match _Chunk_init _file with
    | inl _ => raise (wave_Error "fmt chunk and/or data chunk missing")
    | inr chunk =>
      if bytes_eqb (chunkname chunk) b_fmt then
        '(p, chunk) <- _read_fmt_chunk chunk ;;
        chunk <- _Chunk_skip chunk ;;
        initfp_loop fuel' (file chunk) (Some p)
      else if bytes_eqb (chunkname chunk) b_data then
        match fmt with
        | None => raise (wave_Error "data chunk before fmt chunk")
        | Some p =>
          ret (mkWave_read (fmt_nchannels p) (fmt_sampwidth p) (fmt_framerate p)
                 (chunksize chunk / fmt_framesize p) (fmt_framesize p) chunk)
        end
      else
        chunk <- _Chunk_skip chunk ;;
        initfp_loop fuel' (file chunk) fmt
    end
  end.

Definition initfp (f : BytesIO) : result Wave_read :=
  _file <- _Chunk_init f ;;
  if negb (bytes_eqb (chunkname _file) b_RIFF)
  then raise (wave_Error "file does not start with RIFF id")
  else
    let '(d, _file) := _Chunk_read 4 _file in
    if negb (bytes_eqb d b_WAVE) then raise (wave_Error "not a WAVE file")
    else initfp_loop (S (length (bio_buf f))) _file None.

(** [wave.open(io.BytesIO(wav_bytes), 'rb')]. *)
Definition wave_open_rb (wav_bytes : bytes) : result Wave_read :=
  initfp (mkBytesIO wav_bytes 0).

(** [Wave_read.readframes] on a freshly opened reader of a little-endian
    host: [_data_seek_needed] is 0 and [_convert] is [None]. *)
Definition readframes (nframes : Z) (wf : Wave_read) : bytes :=
  if nframes =? 0 then []
  else fst (_Chunk_read (nframes * _framesize wf) (_data_chunk wf)).

(** ** Python numbers *)

(** [range(start, stop, step)] for a positive [step]. *)
Definition py_range (start stop step : Z) : list Z :=
  map (fun k => start + step * Z.of_nat k)
      (seq 0 (Z.to_nat ((stop - start + step - 1) / step))).

Definition zlen {A : Type} (l : list A) : Z := Z.of_nat (length l).

(** [l[i]] for an index [0 <= i < len(l)]. *)
Definition znth {A : Type} (d : A) (l : list A) (i : Z) : A := nth (Z.to_nat i) l d.

(** [float(z)], correctly rounded to nearest even.  Below [2^63] in
    magnitude the primitive conversion is used; above, the rounding of
    the binary64 specification.  Python raises [OverflowError] where
    the rounding overflows (from about [2^1024]); every integer
    converted in this program is a 16-bit sample, a list length, a list
    index or a sample rate. *)
Definition float_of_int (z : Z) : float :=
  if Z.abs z <? 2 ^ 63 then
    if z <? 0 then (- of_uint63 (Uint63.of_Z (- z)))%float
    else of_uint63 (Uint63.of_Z z)
  else SF2Prim (binary_normalize prec emax z 0 false).

(** [int(x)] on a float: truncation toward zero; [OverflowError] on an
    infinity and [ValueError] on a NaN. *)
Definition py_int (x : float) : result Z :=
  match Prim2SF x with
  | S754_zero _ => ret 0
  | S754_finite s m e =>
    let a := Z.shiftl (Zpos m) e in
    ret (if s then - a else a)
  | S754_infinity _ => raise OverflowError
  | S754_nan => raise ValueError
  end.

(** [a / b] on two ints. *)
Definition int_truediv (a b : Z) : result float :=
  if b =? 0 then raise ZeroDivisionError
  else ret (float_of_int a / float_of_int b)%float.

(** [x / y] on floats: division by a zero of either sign raises. *)
Definition float_truediv (x y : float) : result float :=
  if (y =? 0)%float then raise ZeroDivisionError else ret (x / y)%float.

(** [min(a, b)] and [max(a, b)] of two arguments: the first argument is
    kept unless the second compares strictly below (above) it. *)
Definition py_min (a b : float) : float := if (b <? a)%float then b else a.
Definition py_max (a b : float) : float := if (a <? b)%float then b else a.

(** ** Python lists *)

(** [l[i]]: a negative index counts from the end; [IndexError] outside. *)
Definition list_getitem {A : Type} (l : list A) (i : Z) : result A :=
  let j := if i <? 0 then i + zlen l else i in
  if j <? 0 then raise IndexError
  else match nth_error l (Z.to_nat j) with
       | Some a => ret a
       | None => raise IndexError
       end.

Fixpoint replace_nth {A : Type} (n : nat) (l : list A) (v : A) : list A :=
  match l, n with
  | [], _ => []
  | _ :: l', O => v :: l'
  | a :: l', S n' => a :: replace_nth n' l' v
  end.

(** [l[i] = v]. *)
Definition list_setitem {A : Type} (l : list A) (i : Z) (v : A) : result (list A) :=
  let j := if i <? 0 then i + zlen l else i in
  if (j <? 0) || (zlen l <=? j) then raise IndexError
  else ret (replace_nth (Z.to_nat j) l v).

(** A [for] loop over a list of indices whose body may raise. *)
Fixpoint for_each {S A : Type} (body : A -> S -> result S) (l : list A) (s : S)
  : result S :=
  match l with
  | [] => ret s
  | a :: l' => s' <- body a s ;; for_each body l' s'
  end.

(** ** [AudioCaptcha._wav_to_samples] *)

(** [raw_data] to 16-bit-range samples, by sample width. *)
Definition extract_samples (sampwidth : Z) (raw_data : bytes) : result (list Z) :=
  if sampwidth =? 2 then unpack_h raw_data
  else if sampwidth =? 1 then
    ret (map (fun b => (byte_val b - 128) * 256) raw_data)
  else
    ret (map (fun i =>
                let val := le_signed (bslice raw_data i (i + sampwidth)) in
                Z.shiftr val (8 * (sampwidth - 2)))
             (py_range 0 (blen raw_data) sampwidth)).

(** The stereo branch: [mono] after the [for i in range(0, len(samples), 2)]
    loop. *)
Definition downmix (samples : list Z) : list Z :=
  map (fun i =>
         if i + 1 <? zlen samples
         then (znth 0 samples i + znth 0 samples (i + 1)) / 2
         else znth 0 samples i)
      (py_range 0 (zlen samples) 2).

Definition normalize (s : Z) : float := (float_of_int s / 32768)%float.

Definition _wav_to_samples (wav_bytes : bytes) : result (list float * Z) :=
  wf <- wave_open_rb wav_bytes ;;
  let n_channels := getnchannels wf in
  let sampwidth := getsampwidth wf in
  let framerate := getframerate wf in
  let n_frames := getnframes wf in
  let raw_data := readframes n_frames wf in
  samples <- extract_samples sampwidth raw_data ;;
  let samples := if n_channels =? 2 then downmix samples else samples in
  let float_samples := map normalize samples in
  ret (float_samples, framerate).

(** ** [AudioCaptcha._resample] *)

(** The value appended at output index [i]. *)
Definition resample_at (samples : list float) (ratio : float) (i : Z) : result float :=
  let src_idx := (float_of_int i * ratio)%float in
  idx <- py_int src_idx ;;
  let frac := (src_idx - float_of_int idx)%float in
  if idx + 1 <? zlen samples then
    a <- list_getitem samples idx ;;
    b <- list_getitem samples (idx + 1) ;;
    ret (a * (1 - frac) + b * frac)%float
  else if idx <? zlen samples then list_getitem samples idx
  else ret 0%float.

Definition _resample (samples : list float) (from_rate to_rate : Z)
  : result (list float) :=
  if from_rate =? to_rate then ret samples
  else
    ratio <- int_truediv from_rate to_rate ;;
    q <- float_truediv (float_of_int (zlen samples)) ratio ;;
    new_length <- py_int q ;;
    for_each (fun i resampled =>
                val <- resample_at samples ratio i ;;
                ret (resampled ++ [val]))
             (py_range 0 new_length 1) [].

(** ** The [random] and [math] modules

    The generator is an explicit state; every draw returns the drawn
    value and the next state.  The fields are the calls the program
    makes, the laws are the ranges the library documents for them. *)

Class RandomSource : Type := {
  rng : Type;
  (** [random.uniform(a, b)] *)
  random_uniform : float -> float -> rng -> float * rng;
  (** [random.randint(a, b)] *)
  random_randint : Z -> Z -> rng -> Z * rng;
  (** [random.choices(population, k=k)] on the characters of a string *)
  random_choices : list ascii -> Z -> rng -> list ascii * rng;
  (** the index [random.choice] picks in a sequence of length [n] *)
  random_choice_index : Z -> rng -> Z * rng;
  randint_range : forall a b g, a <= b ->
    a <= fst (random_randint a b g) <= b;
  choices_length : forall pop k g, pop <> [] -> 0 <= k ->
    zlen (fst (random_choices pop k g)) = k;
  choices_in : forall pop k g c, pop <> [] ->
    In c (fst (random_choices pop k g)) -> In c pop;
  choice_index_range : forall n g, 0 < n ->
    0 <= fst (random_choice_index n g) < n
}.

(** [math.sin], the C library's sine, total on finite arguments, and
    [math.pi]. *)
Class Libm : Type := {
  math_sin : float -> float
}.

Definition math_pi : float := 0x1.921fb54442d18p+1%float.

(** ** [AudioCaptcha._add_noise] *)

Section AddNoise.
Context `{RandomSource} `{Libm}.

(** [samples[i] += v] *)
Definition iadd (samples : list float) (i : Z) (v : float) : result (list float) :=
  x <- list_getitem samples i ;;
  list_setitem samples i (x + v)%float.

(** [samples[i] *= v] *)
Definition imul (samples : list float) (i : Z) (v : float) : result (list float) :=
  x <- list_getitem samples i ;;
  list_setitem samples i (x * v)%float.

(** 1. White noise *)
Definition white_noise (n : Z) (st : list float * rng) : result (list float * rng) :=
  let '(samples, g) := st in
  let '(noise_vol, g) := random_uniform 0.02 0.06 g in
  for_each (fun i '(samples, g) =>
              let '(u, g) := random_uniform (- noise_vol) noise_vol g in
              samples <- iadd samples i u ;;
              ret (samples, g))
           (py_range 0 n 1) (samples, g).

(** 2. Low-frequency hum *)
Definition hum (n sample_rate : Z) (st : list float * rng) : result (list float * rng) :=
  let '(samples, g) := st in
  let '(hum_freq, g) := random_uniform 45 65 g in
  let '(hum_vol, g) := random_uniform 0.02 0.05 g in
  samples <- for_each (fun i samples =>
                         t <- int_truediv i sample_rate ;;
                         iadd samples i
                           (hum_vol * math_sin (2 * math_pi * hum_freq * t)))
                      (py_range 0 n 1) samples ;;
  ret (samples, g).

(** One crackle burst: the body of [for _ in range(random.randint(3, 8))]. *)
Definition crackle_burst (n : Z) (st : list float * rng) : result (list float * rng) :=
  let '(samples, g) := st in
  let '(start, g) := random_randint 0 (Z.max 0 (n - 500)) g in
  let '(length, g) := random_randint 80 300 g in
  let '(crackle_vol, g) := random_uniform 0.03 0.08 g in
  for_each (fun i '(samples, g) =>
              let '(u, g) := random_uniform (- crackle_vol) crackle_vol g in
              samples <- iadd samples i u ;;
              ret (samples, g))
           (py_range start (Z.min (start + length) n) 1) (samples, g).

(** 3. Random crackle bursts *)
Definition crackle (n : Z) (st : list float * rng) : result (list float * rng) :=
  let '(samples, g) := st in
  let '(bursts, g) := random_randint 3 8 g in
  for_each (fun _ st => crackle_burst n st) (py_range 0 bursts 1) (samples, g).

(** 4. Slight pitch warble *)
Definition warble (n sample_rate : Z) (st : list float * rng) : result (list float * rng) :=
  let '(samples, g) := st in
  let '(warble_freq, g) := random_uniform 2 4 g in
  let '(warble_depth, g) := random_uniform 0.003 0.008 g in
  samples <- for_each (fun i samples =>
                         t <- int_truediv i sample_rate ;;
                         imul samples i
                           (1 + warble_depth * math_sin (2 * math_pi * warble_freq * t)))
                      (py_range 0 n 1) samples ;;
  ret (samples, g).

Definition _add_noise (samples : list float) (sample_rate : Z) (g : rng)
  : result (list float * rng) :=
  let n := zlen samples in
  st <- white_noise n (samples, g) ;;
  st <- hum n sample_rate st ;;
  st <- crackle n st ;;
  warble n sample_rate st.
End AddNoise.

(** ** [wave.Wave_write] *)

(** [BytesIO.write]: overwrite at the current position, padding with
    zero bytes when the position is past the end. *)
Definition BytesIO_write (data : bytes) (f : BytesIO) : BytesIO :=
  let p := Z.to_nat (bio_pos f) in
  let padded := bio_buf f ++ repeat x00 (p - length (bio_buf f)) in
  mkBytesIO (firstn p padded ++ data ++ skipn (p + length data) padded)
            (bio_pos f + blen data).

Record Wave_write : Type := mkWave_write {
  w_file : BytesIO;
  w_nchannels : Z;
  w_sampwidth : Z;
  w_framerate : Z;
  w_nframes : Z;
  w_nframeswritten : Z;
  w_datawritten : Z;
  w_datalength : Z;
  w_headerwritten : bool;
  w_form_length_pos : Z;
  w_data_length_pos : Z
}.

(** Methods of the writer: the object is a mutable state that survives
    a raised exception, as the [with] statement closes it afterwards. *)
Definition WW (A : Type) : Type := Wave_write -> result A * Wave_write.

Definition ww_ret {A : Type} (a : A) : WW A := fun w => (inr a, w).
Definition ww_raise {A : Type} (e : exn) : WW A := fun w => (inl e, w).
Definition ww_bind {A B : Type} (c : WW A) (k : A -> WW B) : WW B :=
  fun w => match c w with
           | (inl e, w') => (inl e, w')
           | (inr a, w') => k a w'
           end.
Definition ww_get : WW Wave_write := fun w => (inr w, w).
Definition ww_put (w' : Wave_write) : WW unit := fun _ => (inr tt, w').
Definition ww_lift {A : Type} (c : result A) : WW A := fun w => (c, w).

Declare Scope ww_scope.
Delimit Scope ww_scope with ww.
Notation "x <- c ;; k" := (ww_bind c (fun x => k))
  (at level 61, c at next level, right associativity) : ww_scope.
Notation "c ;;; k" := (ww_bind c (fun _ => k))
  (at level 61, right associativity) : ww_scope.

Definition set_file (f : BytesIO) (w : Wave_write) : Wave_write :=
  mkWave_write f (w_nchannels w) (w_sampwidth w) (w_framerate w) (w_nframes w)
    (w_nframeswritten w) (w_datawritten w) (w_datalength w) (w_headerwritten w)
    (w_form_length_pos w) (w_data_length_pos w).

Definition file_write (data : bytes) : WW unit :=
  fun w => (inr tt, set_file (BytesIO_write data (w_file w)) w).

Definition file_seek (pos : Z) : WW unit :=
  fun w => match BytesIO_seek pos 0 (w_file w) with
           | inl e => (inl e, w)
           | inr f => (inr tt, set_file f w)
           end.

Definition Wave_write_initfp (f : BytesIO) : Wave_write :=
  mkWave_write f 0 0 0 0 0 0 0 false 0 0.

Definition setnchannels (nchannels : Z) : WW unit :=
  (w <- ww_get ;;
   if negb (w_datawritten w =? 0)
   then ww_raise (wave_Error "cannot change parameters after starting to write")
   else if nchannels <? 1 then ww_raise (wave_Error "bad # of channels")
   else ww_put (mkWave_write (w_file w) nchannels (w_sampwidth w) (w_framerate w)
                  (w_nframes w) (w_nframeswritten w) (w_datawritten w)
                  (w_datalength w) (w_headerwritten w)
                  (w_form_length_pos w) (w_data_length_pos w)))%ww.

Definition setsampwidth (sampwidth : Z) : WW unit :=
  (w <- ww_get ;;
   if negb (w_datawritten w =? 0)
   then ww_raise (wave_Error "cannot change parameters after starting to write")
   else if (sampwidth <? 1) || (4 <? sampwidth)
   then ww_raise (wave_Error "bad sample width")
   else ww_put (mkWave_write (w_file w) (w_nchannels w) sampwidth (w_framerate w)
                  (w_nframes w) (w_nframeswritten w) (w_datawritten w)
                  (w_datalength w) (w_headerwritten w)
                  (w_form_length_pos w) (w_data_length_pos w)))%ww.

Definition setframerate (framerate : Z) : WW unit :=
  (w <- ww_get ;;
   if negb (w_datawritten w =? 0)
   then ww_raise (wave_Error "cannot change parameters after starting to write")
   else if framerate <=? 0 then ww_raise (wave_Error "bad frame rate")
   else ww_put (mkWave_write (w_file w) (w_nchannels w) (w_sampwidth w) framerate
                  (w_nframes w) (w_nframeswritten w) (w_datawritten w)
                  (w_datalength w) (w_headerwritten w)
                  (w_form_length_pos w) (w_data_length_pos w)))%ww.

(** [struct.pack('<L4s4sLHHLLHH4s', ...)]: one call, so either every
    field fits or nothing is produced. *)
Definition pack_header (riff_len : Z) (nchannels framerate byterate blockalign bits : Z)
  : result bytes :=
  a <- pack_L riff_len ;;
  b <- pack_L 16 ;;
  c <- pack_H WAVE_FORMAT_PCM ;;
  d <- pack_H nchannels ;;
  e <- pack_L framerate ;;
  f <- pack_L byterate ;;
  g <- pack_H blockalign ;;
  h <- pack_H bits ;;
  ret (a ++ b_WAVE ++ b_fmt ++ b ++ c ++ d ++ e ++ f ++ g ++ h ++ b_data).

Definition _write_header (initlength : Z) : WW unit :=
  (file_write b_RIFF ;;;
   w <- ww_get ;;
   let nframes := if w_nframes w =? 0
                  then initlength / (w_nchannels w * w_sampwidth w)
                  else w_nframes w in
   let datalength := nframes * w_nchannels w * w_sampwidth w in
   let form_length_pos := bio_pos (w_file w) in
   ww_put (mkWave_write (w_file w) (w_nchannels w) (w_sampwidth w) (w_framerate w)
             nframes (w_nframeswritten w) (w_datawritten w) datalength
             (w_headerwritten w) form_length_pos (w_data_length_pos w)) ;;;
   hdr <- ww_lift (pack_header (36 + datalength) (w_nchannels w) (w_framerate w)
                     (w_nchannels w * w_framerate w * w_sampwidth w)
                     (w_nchannels w * w_sampwidth w) (w_sampwidth w * 8)) ;;
   file_write hdr ;;;
   w <- ww_get ;;
   let data_length_pos := bio_pos (w_file w) in
   len <- ww_lift (pack_L datalength) ;;
   file_write len ;;;
   w <- ww_get ;;
   ww_put (mkWave_write (w_file w) (w_nchannels w) (w_sampwidth w) (w_framerate w)
             (w_nframes w) (w_nframeswritten w) (w_datawritten w) (w_datalength w)
             true (w_form_length_pos w) data_length_pos))%ww.

Definition _ensure_header_written (datasize : Z) : WW unit :=
  (w <- ww_get ;;
   if w_headerwritten w then ww_ret tt
   else if w_nchannels w =? 0 then ww_raise (wave_Error "# channels not specified")
   else if w_sampwidth w =? 0 then ww_raise (wave_Error "sample width not specified")
   else if w_framerate w =? 0 then ww_raise (wave_Error "sampling rate not specified")
   else _write_header datasize)%ww.

Definition _patchheader : WW unit :=
  (w <- ww_get ;;
   if w_datawritten w =? w_datalength w then ww_ret tt
   else
     let curpos := bio_pos (w_file w) in
     file_seek (w_form_length_pos w) ;;;
     a <- ww_lift (pack_L (36 + w_datawritten w)) ;;
     file_write a ;;;
     file_seek (w_data_length_pos w) ;;;
     b <- ww_lift (pack_L (w_datawritten w)) ;;
     file_write b ;;;
     file_seek curpos ;;;
     w <- ww_get ;;
     ww_put (mkWave_write (w_file w) (w_nchannels w) (w_sampwidth w) (w_framerate w)
               (w_nframes w) (w_nframeswritten w) (w_datawritten w) (w_datawritten w)
               (w_headerwritten w) (w_form_length_pos w) (w_data_length_pos w)))%ww.

(** [writeframesraw] on a little-endian host with [_convert] unset. *)
Definition writeframesraw (data : bytes) : WW unit :=
  (_ensure_header_written (blen data) ;;;
   w <- ww_get ;;
   let nframes := blen data / (w_sampwidth w * w_nchannels w) in
   file_write data ;;;
   w <- ww_get ;;
   ww_put (mkWave_write (w_file w) (w_nchannels w) (w_sampwidth w) (w_framerate w)
             (w_nframes w) (w_nframeswritten w + nframes)
             (w_datawritten w + blen data) (w_datalength w)
             (w_headerwritten w) (w_form_length_pos w) (w_data_length_pos w)))%ww.

Definition writeframes (data : bytes) : WW unit :=
  (writeframesraw data ;;;
   w <- ww_get ;;
   if negb (w_datalength w =? w_datawritten w) then _patchheader else ww_ret tt)%ww.

(** [Wave_write.close] while the file is still attached. *)
Definition Wave_write_close : WW unit :=
  (_ensure_header_written 0 ;;;
   w <- ww_get ;;
   if negb (w_datalength w =? w_datawritten w) then _patchheader else ww_ret tt)%ww.

(** [with wave.open(buffer, 'wb') as wf: body], then [buffer.getvalue()]:
    the writer is closed on every exit path, and an exception raised by
    [close] replaces the one raised by the body. *)
Definition with_wave_write (body : WW unit) : result bytes :=
  let '(r, w) := body (Wave_write_initfp (mkBytesIO [] 0)) in
  let '(c, w') := Wave_write_close w in
  match c, r with
  | inl e, _ => raise e
  | inr _, inl e => raise e
  | inr _, inr _ => ret (bio_buf (w_file w'))
  end.

(** ** [AudioCaptcha._samples_to_wav] *)

Definition clamp (s : float) : float := py_max (-1) (py_min 1 s).

(** [struct.pack('<h', int(clamped * 32767))] for one sample. *)
Definition pack_sample (s : float) : result bytes :=
  let clamped := clamp s in
  v <- py_int (clamped * 32767)%float ;;
  pack_h v.

Definition pack_samples (samples : list float) : result bytes :=
  for_each (fun s packed => b <- pack_sample s ;; ret (packed ++ b)) samples [].

Definition _samples_to_wav (samples : list float) (sample_rate : Z) : result bytes :=
  with_wave_write
    (setnchannels 1 ;;;
     setsampwidth 2 ;;;
     setframerate sample_rate ;;;
     packed <- ww_lift (pack_samples samples) ;;
     writeframes packed)%ww.

(** ** [base64] *)

Definition b64_alphabet : bytes :=
  list_byte_of_string "ABCDEFGHIJKLMNOPQRSTUVWXYZabcdefghijklmnopqrstuvwxyz0123456789+/".

Definition b64_pad : byte := "="%byte.

Definition b64_char (i : Z) : byte := nth (Z.to_nat i) b64_alphabet b64_pad.

(** [base64.b64encode]: three bytes give four characters; a last group
    of one or two bytes is padded with [=]. *)
Fixpoint b64encode (b : bytes) : bytes :=
  match b with
  | [] => []
  | [x] =>
    let n := byte_val x in
    [b64_char (n / 4); b64_char ((n mod 4) * 16); b64_pad; b64_pad]
  | [x; y] =>
    let n := byte_val x in
    let m := byte_val y in
    [b64_char (n / 4); b64_char ((n mod 4) * 16 + m / 16);
     b64_char ((m mod 16) * 4); b64_pad]
  | x :: y :: z :: b' =>
    let n := byte_val x in
    let m := byte_val y in
    let k := byte_val z in
    b64_char (n / 4) :: b64_char ((n mod 4) * 16 + m / 16)
      :: b64_char ((m mod 16) * 4 + k / 64) :: b64_char (k mod 64)
      :: b64encode b'
  end.

Fixpoint index_of (c : byte) (l : bytes) (i : Z) : option Z :=
  match l with
  | [] => None
  | x :: l' => if Byte.eqb x c then Some i else index_of c l' (i + 1)
  end.

Definition b64_index (c : byte) : option Z := index_of c b64_alphabet 0.

(** [base64.b64decode] on padded text of the standard alphabet; [None]
    stands for [binascii.Error]. *)
Fixpoint b64decode (s : bytes) : option bytes :=
  match s with
  | [] => Some []
  | c1 :: c2 :: c3 :: c4 :: s' =>
    match b64_index c1, b64_index c2 with
    | Some i1, Some i2 =>
      let x := byte_of (i1 * 4 + i2 / 16) in
      if Byte.eqb c3 b64_pad then
        match s' with
        | [] => if Byte.eqb c4 b64_pad then Some [x] else None
        | _ => None
        end
      else
        match b64_index c3 with
        | Some i3 =>
          let y := byte_of ((i2 mod 16) * 16 + i3 / 4) in
          if Byte.eqb c4 b64_pad then
            match s' with
            | [] => Some [x; y]
            | _ => None
            end
          else
            match b64_index c4, b64decode s' with
            | Some i4, Some r => Some (x :: y :: byte_of ((i3 mod 4) * 64 + i4) :: r)
            | _, _ => None
            end
        | None => None
        end
    | _, _ => None
    end
  | _ => None
  end.

(** ** The speech engine ([pyttsx3])

    The engine is outside the repository: it is a list of voice
    identifiers and a function from the phrase, the speech rate, the
    volume and the chosen voice to the bytes of the file it saves, or
    the exception it raises. *)
Class SpeechEngine : Type := {
  voices : list string;
  save_to_file : string -> Z -> float -> option string -> result bytes
}.

Record CaptchaAudioResult : Type := mkCaptcha {
  text : string;
  audio : string
}.

(** ** [AudioCaptcha] *)

(** One [key: value] item of a dict display. *)
Definition item (k : ascii) (v : string) : ascii * string := (k, v).

Definition CHAR_TO_WORD : list (ascii * string) :=
  [item "0" "zero"; item "1" "one"; item "2" "two"; item "3" "three";
   item "4" "four"; item "5" "five"; item "6" "six"; item "7" "seven";
   item "8" "eight"; item "9" "nine"; item "A" "ay"; item "B" "bee";
   item "C" "see"; item "D" "dee"; item "E" "ee"; item "F" "eff";
   item "G" "jee"; item "H" "aitch"; item "J" "jay"; item "K" "kay";
   item "L" "ell"; item "M" "em"; item "N" "en"; item "P" "pee";
   item "Q" "queue"; item "R" "are"; item "S" "ess"; item "T" "tee";
   item "U" "you"; item "V" "vee"; item "W" "double you"; item "X" "ex";
   item "Y" "why"; item "Z" "zed"].

(** [CHAR_TO_WORD.get(char, char)] *)
Fixpoint dict_get (d : list (ascii * string)) (k : ascii) (default : string) : string :=
  match d with
  | [] => default
  | (k', v) :: d' => if Ascii.eqb k' k then v else dict_get d' k default
  end.

(** [sep.join(words)] *)
Fixpoint str_join (sep : string) (words : list string) : string :=
  match words with
  | [] => EmptyString
  | [w] => w
  | w :: ws => (w ++ sep ++ str_join sep ws)%string
  end.

(** [self.characters = string.digits] *)
Definition characters : string := "0123456789".

Definition target_rate : Z := 22050.

Definition data_uri_prefix : string := "data:audio/wav;base64,".

Section AudioCaptcha.
Context `{RandomSource} `{Libm} `{SpeechEngine}.

Definition generate_text (length : Z) (g : rng) : string * rng :=
  let '(cs, g) := random_choices (list_ascii_of_string characters) length g in
  (string_of_list_ascii cs, g).

Definition _generate_speech_wav (spoken_text : string) (g : rng)
  : result (bytes * rng) :=
  let '(rate, g) := random_randint 120 160 g in
  let '(voice, g) :=
    if 1 <? zlen voices then
      let '(i, g) := random_choice_index (zlen voices) g in
      (Some (znth EmptyString voices i), g)
    else (None, g) in
  wav_bytes <- save_to_file spoken_text rate 0.9 voice ;;
  ret (wav_bytes, g).

Definition generate_audio (text : string) (g : rng) : result (bytes * rng) :=
  let words := map (fun char => dict_get CHAR_TO_WORD char (String char EmptyString))
                   (list_ascii_of_string text) in
  let spoken_text := str_join " .... " words in
  '(wav_bytes, g) <- _generate_speech_wav spoken_text g ;;
  '(float_samples, original_rate) <- _wav_to_samples wav_bytes ;;
  float_samples <- (if negb (original_rate =? target_rate)
                    then _resample float_samples original_rate target_rate
                    else ret float_samples) ;;
  '(float_samples, g) <- _add_noise float_samples target_rate g ;;
  wav <- _samples_to_wav float_samples target_rate ;;
  ret (wav, g).

Definition generate (length : Z) (g : rng) : result (CaptchaAudioResult * rng) :=
  let '(text, g) := generate_text length g in
  '(wav_bytes, g) <- generate_audio text g ;;
  let audio_base64 := string_of_list_byte (b64encode wav_bytes) in
  ret (mkCaptcha text (data_uri_prefix ++ audio_base64)%string, g).
End AudioCaptcha.

(** ** Concrete collaborators and containers used in the examples *)

(** A deterministic random source: the state is a counter. *)
Definition counter_random : RandomSource.
Proof.
  refine {|
    rng := Z;
    random_uniform := fun a b g => ((a + (b - a) * 0.5)%float, g + 1);
    random_randint := fun a b g => (a + g mod (b - a + 1), g + 1);
    random_choices := fun pop k g =>
      (map (fun j => nth (Z.to_nat ((g + j) mod zlen pop)) pop "0"%char)
           (py_range 0 k 1), g + 1);
    random_choice_index := fun n g => (g mod n, g + 1)
  |}.
  - intros a b g Hab. cbn [fst].
    pose proof (Z.mod_pos_bound g (b - a + 1) ltac:(lia)). lia.
  - intros pop k g _ Hk. cbn [fst]. unfold zlen, py_range.
    rewrite length_map, length_map, length_seq.
    replace (k - 0 + 1 - 1) with k by lia. rewrite Z.div_1_r. lia.
  - intros pop k g c Hpop. cbn [fst]. intros Hin.
    apply in_map_iff in Hin. destruct Hin as [j [<- _]].
    apply nth_In.
    assert (0 < zlen pop) by (unfold zlen; destruct pop; [congruence | cbn; lia]).
    pose proof (Z.mod_pos_bound (g + j) (zlen pop) ltac:(lia)).
    unfold zlen in *. lia.
  - intros n g Hn. cbn [fst]. apply Z.mod_pos_bound. lia.
Defined.

(** A sine for the examples: the first terms of the Taylor series. *)
Definition taylor_libm : Libm :=
  {| math_sin := fun x => (x - x * x * x / 6 + x * x * x * x * x / 120)%float |}.

(** Stereo, 16-bit, 8000 Hz, frames [(-1, 0)] and [(3, 4)]. *)
Definition stereo_wav : bytes :=
  map byte_of
    [82; 73; 70; 70; 44; 0; 0; 0; 87; 65; 86; 69; 102; 109; 116; 32;
     16; 0; 0; 0; 1; 0; 2; 0; 64; 31; 0; 0; 0; 125; 0; 0; 4; 0; 16; 0;
     100; 97; 116; 97; 8; 0; 0; 0; 255; 255; 0; 0; 3; 0; 4; 0].

(** Three channels, 16-bit, 8000 Hz, frames [(1, 2, 3)] and [(4, 5, 6)]. *)
Definition three_channel_wav : bytes :=
  map byte_of
    [82; 73; 70; 70; 48; 0; 0; 0; 87; 65; 86; 69; 102; 109; 116; 32;
     16; 0; 0; 0; 1; 0; 3; 0; 64; 31; 0; 0; 128; 187; 0; 0; 6; 0; 16; 0;
     100; 97; 116; 97; 12; 0; 0; 0; 1; 0; 2; 0; 3; 0; 4; 0; 5; 0; 6; 0].

(** Stereo, 16-bit, 8000 Hz, a data chunk that declares eight bytes and
    is cut after the sample values [1; 2; 3]. *)
Definition cut_stereo_wav : bytes :=
  map byte_of
    [82; 73; 70; 70; 42; 0; 0; 0; 87; 65; 86; 69; 102; 109; 116; 32;
     16; 0; 0; 0; 1; 0; 2; 0; 64; 31; 0; 0; 0; 125; 0; 0; 4; 0; 16; 0;
     100; 97; 116; 97; 8; 0; 0; 0; 1; 0; 2; 0; 3; 0].

(** Mono, 16-bit, 22050 Hz, the sample values [0; 16384; -32768]. *)
Definition mono_wav : bytes :=
  map byte_of
    [82; 73; 70; 70; 42; 0; 0; 0; 87; 65; 86; 69; 102; 109; 116; 32;
     16; 0; 0; 0; 1; 0; 1; 0; 34; 86; 0; 0; 68; 172; 0; 0; 2; 0; 16; 0;
     100; 97; 116; 97; 6; 0; 0; 0; 0; 0; 0; 64; 0; 128].

(** An engine with two voices that always saves [mono_wav]. *)
Definition fixed_engine : SpeechEngine :=
  {| voices := ["voice0"; "voice1"]%string;
     save_to_file := fun _ _ _ _ => ret mono_wav |}.

(** ** Invariants of the reader, used in the proofs *)

(** The RIFF chunk over the file [wav]: the file position is the chunk's
    offset plus what the chunk has read. *)
Definition good_outer (wav : bytes) (c : _Chunk BytesIO) : Prop :=
  bio_buf (file c) = wav /\
  bio_pos (file c) = offset c + size_read c /\
  0 <= offset c /\ 0 <= size_read c.

(** The file position under the RIFF chunk. *)
Definition outer_pos (c : _Chunk BytesIO) : Z := offset c + size_read c.

(** A chunk inside the RIFF chunk: it has read at most its size, plus
    the pad byte of an odd size. *)
Definition good_inner (wav : bytes) (ch : _Chunk (_Chunk BytesIO)) : Prop :=
  good_outer wav (file ch) /\
  0 <= chunksize ch /\
  0 <= size_read ch <= chunksize ch + (if Z.odd (chunksize ch) then 1 else 0).

(** What an in-place update at an index inside the list leaves alone. *)
Definition same_outside (lo hi : Z) (old new : list float) : Prop :=
  zlen new = zlen old /\
  forall j, 0 <= j < zlen old -> ~ (lo <= j < hi) ->
    znth 0%float new j = znth 0%float old j.


(** ** The encoder's output, used in the proofs *)

(** The 44 header bytes of a 1-channel, 16-bit PCM container followed by
    its data. *)
Definition mono16_container (rate : Z) (data : bytes) : bytes :=
  b_RIFF ++ le_bytes 4 (36 + blen data) ++ b_WAVE ++ b_fmt ++ le_bytes 4 16 ++
  le_bytes 2 1 ++ le_bytes 2 1 ++ le_bytes 4 rate ++ le_bytes 4 (2 * rate) ++
  le_bytes 2 2 ++ le_bytes 2 16 ++ b_data ++ le_bytes 4 (blen data) ++ data.

(** The RIFF chunk of such a container of [L] data bytes, after [sr] of
    the chunk's bytes have been read. *)
Definition riff_at (wav : bytes) (L sr : Z) : _Chunk BytesIO :=
  mk_Chunk (mkBytesIO wav (8 + sr)) b_RIFF (36 + L) sr 8.

(** [v] is the integer the encoder packs for the sample [s]. *)
Definition quantised (s : float) (v : Z) : Prop :=
  py_int (clamp s * 32767)%float = inr v /\ -32767 <= v <= 32767.

(** ** The round trip, used in the proofs *)

(** A sample that is a multiple of [1 / 32768] between [-1.0] and [1.0]. *)
Definition representable16 (s : float) : Prop :=
  exists k, -32768 <= k <= 32768 /\ s = normalize k.

Definition within_step (s d : float) : bool := (abs (d - s) <=? 1 / 32768)%float.

Definition round_trip_ok (k : Z) : bool :=
  match py_int (clamp (normalize k) * 32767)%float with
  | inr v => within_step (normalize k) (normalize v) && (Z.abs (v - k) <=? 1)
  | inl _ => false
  end.

(** [p k && p (k + 1) && ...], [n] times. *)
Fixpoint all_from (n : nat) (k : Z) (p : Z -> bool) : bool :=
  match n with
  | O => true
  | S n' => p k && all_from n' (k + 1) p
  end.

Definition b64_char_ok (i : Z) : bool :=
  match b64_index (b64_char i) with
  | Some j => (j =? i) && negb (Byte.eqb (b64_char i) b64_pad)
  | None => false
  end.

Definition is_ascii_digit (c : ascii) : bool :=
  ((48 <=? N_of_ascii c) && (N_of_ascii c <=? 57))%N.

(** An engine whose every call raises. *)
Definition failing_engine : SpeechEngine :=
  {| voices := []; save_to_file := fun _ _ _ _ => raise RuntimeError |}.

(** A decoded amplitude: [-1.0 <= s < 1.0]. *)
Definition in_unit_range (s : float) : bool := ((-1 <=? s) && (s <? 1))%float.

Definition int16 (v : Z) : Prop := - 2 ^ 15 <= v < 2 ^ 15.

Definition decays_by_one (k : Z) : bool :=
  match py_int (clamp (normalize k) * 32767)%float with
  | inr v => v =? k - Z.sgn k
  | inl _ => false
  end.

(** The binary64 number [x] is finite and positive, and its leading bit
    has weight [2^(D-1)]: [2^(D-1) <= x < 2^D]. *)
Definition mag (x : spec_float) (D : Z) : Prop :=
  exists (m : positive) (e : Z),
    x = S754_finite false m e /\ Zdigits2 (Zpos m) + e = D.

(** Mono, 16-bit, a header that declares 0 Hz, the sample values
    [0; 16384; -32768]. *)
Definition zero_rate_wav : bytes :=
  map byte_of
    [82; 73; 70; 70; 42; 0; 0; 0; 87; 65; 86; 69; 102; 109; 116; 32;
     16; 0; 0; 0; 1; 0; 1; 0; 0; 0; 0; 0; 0; 0; 0; 0; 2; 0; 16; 0;
     100; 97; 116; 97; 6; 0; 0; 0; 0; 0; 0; 64; 0; 128].

(** An engine that always saves [zero_rate_wav]. *)
Definition zero_rate_engine : SpeechEngine :=
  {| voices := ["voice0"]%string;
     save_to_file := fun _ _ _ _ => ret zero_rate_wav |}.


(** * Properties *)

(** ** Ranges and indexing *)

Lemma py_range_length (start stop step : Z) :
  zlen (py_range start stop step) = Z.max 0 ((stop - start + step - 1) / step).
Proof.
  unfold zlen, py_range. rewrite length_map, length_seq. lia.
Qed.

Lemma py_range_nth (start stop step : Z) (k : nat) (d : Z) :
  (k < length (py_range start stop step))%nat ->
  nth k (py_range start stop step) d = start + step * Z.of_nat k.
Proof.
  intros Hk. unfold py_range in *. rewrite length_map, length_seq in Hk.
  rewrite nth_indep with (d' := start + step * Z.of_nat 0)
    by (rewrite length_map, length_seq; exact Hk).
  rewrite (map_nth (fun k => start + step * Z.of_nat k)).
  rewrite seq_nth by exact Hk. reflexivity.
Qed.

Lemma map_py_range_znth {A : Type} (f : Z -> A) (start stop step i : Z) (d : A) :
  0 <= i < zlen (py_range start stop step) ->
  znth d (map f (py_range start stop step)) i = f (start + step * i).
Proof.
  intros Hi. unfold znth, zlen in *.
  rewrite nth_indep with (d' := f 0) by (rewrite length_map; lia).
  rewrite (map_nth f). rewrite py_range_nth by lia.
  rewrite Z2Nat.id by lia. reflexivity.
Qed.


(** ** Downmix *)

Lemma downmix_length (samples : list Z) :
  zlen (downmix samples) = (zlen samples + 1) / 2.
Proof.
  unfold downmix. unfold zlen at 1. rewrite length_map. fold (zlen (py_range 0 (zlen samples) 2)).
  rewrite py_range_length.
  replace (zlen samples - 0 + 2 - 1) with (zlen samples + 1) by lia.
  assert (0 <= zlen samples) by (unfold zlen; lia).
  assert (0 <= (zlen samples + 1) / 2) by (apply Z.div_pos; lia). lia.
Qed.

Lemma downmix_znth (samples : list Z) (i : Z) :
  0 <= i < (zlen samples + 1) / 2 ->
  znth 0 (downmix samples) i =
    if 2 * i + 1 <? zlen samples
    then (znth 0 samples (2 * i) + znth 0 samples (2 * i + 1)) / 2
    else znth 0 samples (2 * i).
Proof.
  intros Hi. unfold downmix. rewrite map_py_range_znth.
  - replace (0 + 2 * i) with (2 * i) by lia. reflexivity.
  - rewrite py_range_length.
    replace (zlen samples - 0 + 2 - 1) with (zlen samples + 1) by lia. lia.
Qed.

Lemma wav_to_samples_unfold (wav : bytes) (wf : Wave_read) (samples : list Z) :
  wave_open_rb wav = inr wf ->
  extract_samples (getsampwidth wf) (readframes (getnframes wf) wf) = inr samples ->
  _wav_to_samples wav =
    inr (map normalize (if getnchannels wf =? 2 then downmix samples else samples),
         getframerate wf).
Proof.
  intros Ho He. unfold _wav_to_samples. rewrite Ho. cbn [bind]. rewrite He. reflexivity.
Qed.

Lemma map_znth {A B : Type} (f : A -> B) (l : list A) (i : Z) (d : A) (d' : B) :
  0 <= i < zlen l -> znth d' (map f l) i = f (znth d l i).
Proof.
  intros Hi. unfold znth, zlen in *.
  rewrite nth_indep with (d' := f d) by (rewrite length_map; lia).
  apply map_nth.
Qed.

(** ** C1: the stereo downmix *)

(** What the reader and the sample extraction give on [stereo_wav]. *)
Lemma stereo_wav_decodes :
  exists wf,
    wave_open_rb stereo_wav = inr wf /\
    getnchannels wf = 2 /\
    extract_samples (getsampwidth wf) (readframes (getnframes wf) wf)
      = inr [-1; 0; 3; 4] /\
    _wav_to_samples stereo_wav = inr (map normalize [-1; 3], 8000).
Proof.
  eexists. split; [vm_compute; reflexivity |].
  repeat split; vm_compute; reflexivity.
Qed.

(** C1, as stated, fails: on the stereo container [stereo_wav] the first
    frame is [(-1, 0)] and the first mono sample is [-1 / 32768], while
    division truncating toward zero would give [0]. *)
Lemma C1_counterexample :
  ~ (forall wav wf samples mono rate,
        wave_open_rb wav = inr wf ->
        getnchannels wf = 2 ->
        extract_samples (getsampwidth wf) (readframes (getnframes wf) wf) = inr samples ->
        _wav_to_samples wav = inr (mono, rate) ->
        forall i, 0 <= i -> 2 * i + 1 < zlen samples ->
          znth 0%float mono i =
            normalize (Z.quot (znth 0 samples (2 * i) + znth 0 samples (2 * i + 1)) 2)).
Proof.
  intros H.
  destruct stereo_wav_decodes as [wf [Ho [Hc [He Hd]]]].
  specialize (H stereo_wav wf [-1; 0; 3; 4] _ _ Ho Hc He Hd 0).
  assert (Hlen : 2 * 0 + 1 < zlen [-1; 0; 3; 4]) by (vm_compute; reflexivity).
  specialize (H ltac:(lia) Hlen).
  apply (f_equal Prim2SF) in H. vm_compute in H. discriminate H.
Qed.

(** C1, amended: for every decoded stereo container, the mono sample of
    every complete pair [(l, r)] is the floor of [(l + r) / 2] (Python's
    [//], rounding toward minus infinity), normalised by [32768.0]. *)
Theorem C1_stereo_downmix_floor (wav : bytes) (wf : Wave_read) (samples : list Z) :
  wave_open_rb wav = inr wf ->
  getnchannels wf = 2 ->
  extract_samples (getsampwidth wf) (readframes (getnframes wf) wf) = inr samples ->
  exists mono,
    _wav_to_samples wav = inr (mono, getframerate wf) /\
    forall i, 0 <= i -> 2 * i + 1 < zlen samples ->
      let l := znth 0 samples (2 * i) in
      let r := znth 0 samples (2 * i + 1) in
      exists q, znth 0%float mono i = normalize q /\
                2 * q <= l + r <= 2 * q + 1.
Proof.
  intros Ho Hc He. eexists. split.
  - rewrite (wav_to_samples_unfold _ _ _ Ho He), Hc. reflexivity.
  - intros i Hi Hp l r. exists ((l + r) / 2). split.
    + assert (Hr : 0 <= i < (zlen samples + 1) / 2).
      { assert (i + 1 <= (zlen samples + 1) / 2)
          by (apply Z.div_le_lower_bound; lia). lia. }
      cbn [Z.eqb Pos.eqb].
      rewrite map_znth with (d := 0) by (rewrite downmix_length; exact Hr).
      rewrite downmix_znth by exact Hr.
      destruct (Z.ltb_spec (2 * i + 1) (zlen samples)); [reflexivity | lia].
    + pose proof (Z.div_mod (l + r) 2 ltac:(lia)).
      pose proof (Z.mod_pos_bound (l + r) 2 ltac:(lia)). lia.
Qed.

Lemma C1_stereo_downmix_floor_witness :
  exists wf, wave_open_rb stereo_wav = inr wf /\
  exists mono,
    _wav_to_samples stereo_wav = inr (mono, getframerate wf) /\
    forall i, 0 <= i -> 2 * i + 1 < zlen [-1; 0; 3; 4] ->
      let l := znth 0 [-1; 0; 3; 4] (2 * i) in
      let r := znth 0 [-1; 0; 3; 4] (2 * i + 1) in
      exists q, znth 0%float mono i = normalize q /\
                2 * q <= l + r <= 2 * q + 1.
Proof.
  eexists. split; [vm_compute; reflexivity |].
  apply (C1_stereo_downmix_floor stereo_wav _ [-1; 0; 3; 4]); vm_compute; reflexivity.
Defined.

(** ** C10: the unpaired last sample of a stereo container *)

(** C10: when the interleaved sample list of a stereo container has odd
    length, the last sample is appended to the mono output as it is
    (normalised like every sample), and the mono output has
    [ceil(sample_count / 2)] samples. *)
Theorem C10_odd_stereo_keeps_last (wav : bytes) (wf : Wave_read) (samples : list Z) :
  wave_open_rb wav = inr wf ->
  getnchannels wf = 2 ->
  extract_samples (getsampwidth wf) (readframes (getnframes wf) wf) = inr samples ->
  Z.odd (zlen samples) = true ->
  exists mono,
    _wav_to_samples wav = inr (mono, getframerate wf) /\
    2 * zlen mono = zlen samples + 1 /\
    znth 0%float mono (zlen mono - 1) = normalize (znth 0 samples (zlen samples - 1)).
Proof.
  intros Ho Hc He Hodd.
  assert (Hn : 0 <= zlen samples) by (unfold zlen; lia).
  rewrite Z.odd_spec in Hodd. destruct Hodd as [k Hk].
  assert (Hhalf : (zlen samples + 1) / 2 = k + 1).
  { rewrite Hk. replace (2 * k + 1 + 1) with ((k + 1) * 2) by lia.
    apply Z.div_mul. lia. }
  eexists. split; [| split].
  - rewrite (wav_to_samples_unfold _ _ _ Ho He), Hc. reflexivity.
  - cbn [Z.eqb Pos.eqb]. unfold zlen at 1. rewrite length_map.
    fold (zlen (downmix samples)). rewrite downmix_length. lia.
  - cbn [Z.eqb Pos.eqb]. unfold zlen at 1. rewrite length_map.
    fold (zlen (downmix samples)). rewrite downmix_length, Hhalf.
    rewrite map_znth with (d := 0) by (rewrite downmix_length; lia).
    rewrite downmix_znth by lia.
    destruct (Z.ltb_spec (2 * (k + 1 - 1) + 1) (zlen samples)); [lia |].
    f_equal. f_equal. lia.
Qed.

Lemma C10_odd_stereo_keeps_last_witness :
  exists wf, wave_open_rb cut_stereo_wav = inr wf /\
  exists mono,
    _wav_to_samples cut_stereo_wav = inr (mono, getframerate wf) /\
    2 * zlen mono = zlen [1; 2; 3] + 1 /\
    znth 0%float mono (zlen mono - 1) = normalize (znth 0 [1; 2; 3] (zlen [1; 2; 3] - 1)).
Proof.
  eexists. split; [vm_compute; reflexivity |].
  apply (C10_odd_stereo_keeps_last cut_stereo_wav _ [1; 2; 3]); vm_compute; reflexivity.
Defined.

(** ** C3: resampling to the same rate *)

(** C3: resampling a buffer from a rate to the same rate returns the
    buffer unchanged. *)
Theorem C3_resample_same_rate (b : list float) (r : Z) :
  _resample b r r = inr b.
Proof.
  unfold _resample. rewrite Z.eqb_refl. reflexivity.
Qed.

(** ** The container reader *)

Lemma blen_nonneg (b : bytes) : 0 <= blen b.
Proof. unfold blen. lia. Qed.

Lemma bslice_length (b : bytes) (p n : Z) :
  0 <= p -> 0 <= n -> n <= Z.max 0 (blen b - p) -> blen (bslice b p (p + n)) = n.
Proof.
  intros Hp Hn Hle. unfold blen, bslice in *.
  rewrite length_firstn, length_skipn.
  replace (p + n - p) with n by lia. lia.
Qed.

Lemma BytesIO_read_spec (size : Z) (f : BytesIO) :
  0 <= size -> 0 <= bio_pos f ->
  let '(d, f') := BytesIO_read size f in
  bio_buf f' = bio_buf f /\ bio_pos f' = bio_pos f + blen d /\
  blen d <= size /\ (0 < blen d -> bio_pos f + blen d <= blen (bio_buf f)).
Proof.
  intros Hs Hp. unfold BytesIO_read.
  destruct (Z.ltb_spec size 0); [lia |]. cbn [bio_buf bio_pos].
  set (n := Z.min size (Z.max 0 (blen (bio_buf f) - bio_pos f))).
  assert (Hlen : blen (bslice (bio_buf f) (bio_pos f) (bio_pos f + n)) = n).
  { apply bslice_length; subst n; lia. }
  rewrite Hlen. subst n. repeat split; lia.
Qed.
Lemma outer_read_spec (wav : bytes) (size : Z) (c : _Chunk BytesIO) :
  0 <= size -> good_outer wav c ->
  let '(d, c') := _Chunk_read size c in
  good_outer wav c' /\ offset c' = offset c /\ chunksize c' = chunksize c /\
  outer_pos c + blen d <= outer_pos c' /\ blen d <= size /\
  (0 < blen d -> outer_pos c + blen d <= blen wav).
Proof.
  intros Hs [Hb [Hp [Ho Hr]]]. unfold _Chunk_read, outer_pos.
  destruct (Z.leb_spec (chunksize c) (size_read c)) as [Hfull | Hroom].
  { cbn [blen length Z.of_nat]. unfold good_outer. repeat split; try lia; assumption. }
  destruct (Z.ltb_spec size 0) as [? | _]; [lia |].
  set (sz := if chunksize c - size_read c <? size then chunksize c - size_read c else size).
  assert (Hsz : 0 <= sz <= size).
  { subst sz. destruct (Z.ltb_spec (chunksize c - size_read c) size); lia. }
  cbn [f_read BytesIO_FileLike].
  pose proof (BytesIO_read_spec sz (file c) ltac:(lia) ltac:(lia)) as Hrd.
  destruct (BytesIO_read sz (file c)) as [data f1].
  destruct Hrd as [Hb1 [Hp1 [Hl1 Hin1]]].
  destruct ((size_read c + blen data =? chunksize c) && Z.odd (chunksize c)).
  - pose proof (BytesIO_read_spec 1 f1 ltac:(lia)
                  ltac:(pose proof (blen_nonneg data); lia)) as Hrd2.
    destruct (BytesIO_read 1 f1) as [dummy f2].
    destruct Hrd2 as [Hb2 [Hp2 [Hl2 Hin2]]].
    pose proof (blen_nonneg data). pose proof (blen_nonneg dummy).
    unfold good_outer. cbn [file offset size_read chunksize].
    repeat split; try lia; try congruence.
    intros Hd. rewrite <- Hb. lia.
  - pose proof (blen_nonneg data).
    unfold good_outer. cbn [file offset size_read chunksize].
    repeat split; try lia; try congruence.
    intros Hd. rewrite <- Hb. lia.
Qed.

Lemma outer_seek_spec (wav : bytes) (pos : Z) (c c' : _Chunk BytesIO) :
  good_outer wav c -> _Chunk_seek pos 1 c = inr c' ->
  good_outer wav c' /\ outer_pos c' = outer_pos c + pos.
Proof.
  intros [Hb [Hp [Ho Hr]]] Hs. unfold _Chunk_seek in Hs. cbn [Z.eqb Pos.eqb] in Hs.
  destruct ((pos + size_read c <? 0) || (chunksize c <? pos + size_read c)) eqn:Hchk;
    [discriminate |].
  apply orb_false_iff in Hchk. destruct Hchk as [Hneg _].
  apply Z.ltb_ge in Hneg.
  cbn [f_seek BytesIO_FileLike] in Hs. unfold BytesIO_seek in Hs.
  cbn [Z.eqb] in Hs.
  destruct (Z.ltb_spec (offset c + (pos + size_read c)) 0); [lia |].
  cbn [bind ret] in Hs. injection Hs as <-.
  unfold good_outer, outer_pos. cbn [file offset size_read bio_buf bio_pos].
  repeat split; try lia; assumption.
Qed.
Lemma le_unsigned_nonneg (b : bytes) : 0 <= le_unsigned b.
Proof.
  induction b as [| x b IH]; cbn [le_unsigned]; [lia |].
  unfold byte_val. lia.
Qed.

Lemma inner_init_spec (wav : bytes) (c : _Chunk BytesIO) (ch : _Chunk (_Chunk BytesIO)) :
  good_outer wav c -> _Chunk_init c = inr ch ->
  good_inner wav ch /\ outer_pos c + 8 <= outer_pos (file ch) /\
  outer_pos c + 8 <= blen wav.
Proof.
  intros Hg Hi. unfold _Chunk_init in Hi. cbn [f_read _Chunk_FileLike] in Hi.
  pose proof (outer_read_spec wav 4 c ltac:(lia) Hg) as H1.
  destruct (_Chunk_read 4 c) as [name c1].
  destruct H1 as [Hg1 [_ [_ [Hm1 [Hl1 Hin1]]]]].
  destruct (Z.ltb_spec (blen name) 4) as [? | Hn]; [discriminate |].
  pose proof (outer_read_spec wav 4 c1 ltac:(lia) Hg1) as H2.
  destruct (_Chunk_read 4 c1) as [szb c2].
  destruct H2 as [Hg2 [_ [_ [Hm2 [Hl2 Hin2]]]]].
  unfold unpack_from_L in Hi.
  destruct (Z.ltb_spec (blen szb) 4) as [? | Hz]; [discriminate |].
  pose proof (le_unsigned_nonneg (firstn 4 szb)).
  set (sz := le_unsigned (firstn 4 szb)) in *.
  cbn [ret] in Hi. injection Hi as <-.
  unfold good_inner. cbn [file chunksize size_read].
  split; [split; [exact Hg2 | split; [lia | destruct (Z.odd sz); lia]] |].
  split; lia.
Qed.

Lemma inner_read_spec (wav : bytes) (size : Z) (ch : _Chunk (_Chunk BytesIO)) :
  0 <= size -> good_inner wav ch ->
  let '(d, ch') := _Chunk_read size ch in
  good_inner wav ch' /\ chunksize ch' = chunksize ch /\
  outer_pos (file ch) + blen d <= outer_pos (file ch') /\ blen d <= size /\
  (0 < blen d -> outer_pos (file ch) + blen d <= blen wav).
Proof.
  intros Hs [Hg [Hc Hr]]. unfold _Chunk_read at 1.
  destruct (Z.leb_spec (chunksize ch) (size_read ch)) as [Hfull | Hroom].
  { cbn [blen length Z.of_nat].
    split; [exact (conj Hg (conj Hc Hr)) | repeat split; lia]. }
  destruct (Z.ltb_spec size 0) as [? | _]; [lia |].
  set (sz := if chunksize ch - size_read ch <? size
             then chunksize ch - size_read ch else size).
  assert (Hsz : 0 <= sz <= size /\ sz <= chunksize ch - size_read ch).
  { subst sz. destruct (Z.ltb_spec (chunksize ch - size_read ch) size); lia. }
  cbn [f_read _Chunk_FileLike].
  pose proof (outer_read_spec wav sz (file ch) ltac:(lia) Hg) as Hrd.
  destruct (_Chunk_read sz (file ch)) as [data c1].
  destruct Hrd as [Hg1 [_ [_ [Hm1 [Hl1 Hin1]]]]].
  pose proof (blen_nonneg data).
  destruct ((size_read ch + blen data =? chunksize ch) && Z.odd (chunksize ch)) eqn:Hpad.
  - apply andb_true_iff in Hpad. destruct Hpad as [Heq Hodd].
    apply Z.eqb_eq in Heq.
    pose proof (outer_read_spec wav 1 c1 ltac:(lia) Hg1) as Hrd2.
    destruct (_Chunk_read 1 c1) as [dummy c2].
    destruct Hrd2 as [Hg2 [_ [_ [Hm2 [Hl2 Hin2]]]]].
    pose proof (blen_nonneg dummy).
    unfold good_inner. cbn [file offset size_read chunksize].
    rewrite Hodd.
    split; [split; [assumption | split; lia] | repeat split; lia].
  - unfold good_inner. cbn [file offset size_read chunksize].
    split; [split; [assumption | split; [lia |]] | repeat split; lia].
    destruct (Z.odd (chunksize ch)); lia.
Qed.

Lemma inner_skip_spec (wav : bytes) (ch ch' : _Chunk (_Chunk BytesIO)) :
  good_inner wav ch -> _Chunk_skip ch = inr ch' ->
  good_outer wav (file ch') /\ outer_pos (file ch) <= outer_pos (file ch').
Proof.
  intros [Hg [Hc Hr]] Hs. unfold _Chunk_skip in Hs.
  cbn [f_seek _Chunk_FileLike] in Hs.
  set (n := if Z.odd (chunksize ch) then chunksize ch - size_read ch + 1
            else chunksize ch - size_read ch) in Hs.
  assert (Hn : 0 <= n) by (subst n; destruct (Z.odd (chunksize ch)); lia).
  destruct (_Chunk_seek n 1 (file ch)) as [e | c1] eqn:Hseek; [discriminate |].
  cbn [bind ret] in Hs. injection Hs as <-. cbn [file].
  destruct (outer_seek_spec wav n _ _ Hg Hseek) as [Hg1 Hm1].
  split; [assumption | lia].
Qed.
Lemma read_fmt_chunk_spec (wav : bytes) (ch ch' : _Chunk (_Chunk BytesIO)) (p : fmt_fields) :
  good_inner wav ch -> _read_fmt_chunk ch = inr (p, ch') ->
  good_inner wav ch' /\ outer_pos (file ch) + 16 <= outer_pos (file ch') /\
  outer_pos (file ch) + 16 <= blen wav /\
  fmt_sampwidth p <> 0 /\ fmt_nchannels p <> 0.
Proof.
  intros Hg Hf. unfold _read_fmt_chunk in Hf.
  pose proof (inner_read_spec wav 14 ch ltac:(lia) Hg) as H1.
  destruct (_Chunk_read 14 ch) as [d ch1].
  destruct H1 as [Hg1 [_ [Hm1 [Hl1 Hin1]]]].
  unfold unpack_from_HHLLH in Hf.
  destruct (Z.ltb_spec (blen d) 14) as [? | Hd]; [discriminate |].
  cbn [ret] in Hf.
  destruct (le_unsigned (bslice d 0 2) =? WAVE_FORMAT_PCM); [| discriminate].
  pose proof (inner_read_spec wav 2 ch1 ltac:(lia) Hg1) as H2.
  destruct (_Chunk_read 2 ch1) as [d2 ch2].
  destruct H2 as [Hg2 [_ [Hm2 [Hl2 Hin2]]]].
  unfold unpack_from_H in Hf.
  destruct (Z.ltb_spec (blen d2) 2) as [? | Hd2]; [discriminate |].
  cbn [ret] in Hf.
  destruct (Z.eqb_spec ((le_unsigned (firstn 2 d2) + 7) / 8) 0) as [? | Hw];
    [discriminate |].
  destruct (Z.eqb_spec (le_unsigned (bslice d 2 4)) 0) as [? | Hc]; [discriminate |].
  injection Hf as <- <-. cbn [fmt_sampwidth fmt_nchannels].
  split; [assumption |]. repeat split; try lia; assumption.
Qed.

Lemma initfp_loop_needs_bytes (wav : bytes) (fuel : nat) :
  forall (c : _Chunk BytesIO) (fmt : option fmt_fields) (wf : Wave_read),
    good_outer wav c -> initfp_loop fuel c fmt = inr wf ->
    outer_pos c + (match fmt with Some _ => 8 | None => 32 end) <= blen wav.
Proof.
  induction fuel as [| fuel IH]; intros c fmt wf Hg Hl; [discriminate |].
  cbn [initfp_loop] in Hl.
  destruct (_Chunk_init c) as [e | ch] eqn:Hinit; [discriminate |].
  destruct (inner_init_spec wav c ch Hg Hinit) as [Hgi [Hm Hin]].
  destruct (bytes_eqb (chunkname ch) b_fmt).
  - destruct (_read_fmt_chunk ch) as [e | [p ch1]] eqn:Hfmt; [discriminate |].
    destruct (read_fmt_chunk_spec wav ch ch1 p Hgi Hfmt) as [Hg1 [Hm1 [Hin1 _]]].
    cbn [bind] in Hl.
    destruct (_Chunk_skip ch1) as [e | ch2] eqn:Hskip; [discriminate |].
    destruct (inner_skip_spec wav ch1 ch2 Hg1 Hskip) as [Hg2 Hm2].
    cbn [bind] in Hl. specialize (IH _ _ _ Hg2 Hl). cbn beta iota in IH.
    destruct fmt; lia.
  - destruct (bytes_eqb (chunkname ch) b_data).
    + destruct fmt; [lia | discriminate].
    + destruct (_Chunk_skip ch) as [e | ch2] eqn:Hskip; [discriminate |].
      destruct (inner_skip_spec wav ch ch2 Hgi Hskip) as [Hg2 Hm2].
      cbn [bind] in Hl. specialize (IH _ _ _ Hg2 Hl).
      destruct fmt; lia.
Qed.

Lemma bytes_eqb_length (a b : bytes) : bytes_eqb a b = true -> blen a = blen b.
Proof.
  revert b. induction a as [| x a IH]; intros [| y b] Heq; cbn in Heq;
    try discriminate; [reflexivity |].
  apply andb_true_iff in Heq. destruct Heq as [_ Heq].
  specialize (IH _ Heq). unfold blen in *. cbn [length]. lia.
Qed.

Lemma initfp_loop_fields (wav : bytes) (fuel : nat) :
  forall (c : _Chunk BytesIO) (fmt : option fmt_fields) (wf : Wave_read),
    good_outer wav c ->
    (forall p, fmt = Some p -> fmt_sampwidth p <> 0 /\ fmt_nchannels p <> 0) ->
    initfp_loop fuel c fmt = inr wf ->
    getsampwidth wf <> 0 /\ getnchannels wf <> 0.
Proof.
  induction fuel as [| fuel IH]; intros c fmt wf Hg Hfmt Hl; [discriminate |].
  cbn [initfp_loop] in Hl.
  destruct (_Chunk_init c) as [e | ch] eqn:Hinit; [discriminate |].
  destruct (inner_init_spec wav c ch Hg Hinit) as [Hgi _].
  destruct (bytes_eqb (chunkname ch) b_fmt).
  - destruct (_read_fmt_chunk ch) as [e | [p ch1]] eqn:Hf; [discriminate |].
    destruct (read_fmt_chunk_spec wav ch ch1 p Hgi Hf) as [Hg1 [_ [_ Hnz]]].
    cbn [bind] in Hl.
    destruct (_Chunk_skip ch1) as [e | ch2] eqn:Hskip; [discriminate |].
    destruct (inner_skip_spec wav ch1 ch2 Hg1 Hskip) as [Hg2 _].
    cbn [bind] in Hl. apply (IH _ _ _ Hg2) in Hl; [exact Hl |].
    intros p' Hp'. injection Hp' as <-. exact Hnz.
  - destruct (bytes_eqb (chunkname ch) b_data).
    + destruct fmt as [p |]; [| discriminate].
      injection Hl as <-. cbn [getsampwidth getnchannels]. apply Hfmt. reflexivity.
    + destruct (_Chunk_skip ch) as [e | ch2] eqn:Hskip; [discriminate |].
      destruct (inner_skip_spec wav ch ch2 Hgi Hskip) as [Hg2 _].
      cbn [bind] in Hl. apply (IH _ _ _ Hg2 Hfmt Hl).
Qed.

(** The fuel of [initfp_loop] is never used up: from a position [pos] in
    a file of [len] bytes at most [(len - pos) / 8] chunk headers can
    still be read, and with more fuel than that the result does not
    depend on the fuel. *)
Lemma initfp_loop_fuel (wav : bytes) (fuel1 : nat) :
  forall (fuel2 : nat) (c : _Chunk BytesIO) (fmt : option fmt_fields),
    good_outer wav c ->
    blen wav - outer_pos c <= 8 * (Z.of_nat fuel1 - 1) -> (1 <= fuel1)%nat ->
    blen wav - outer_pos c <= 8 * (Z.of_nat fuel2 - 1) -> (1 <= fuel2)%nat ->
    initfp_loop fuel1 c fmt = initfp_loop fuel2 c fmt.
Proof.
  induction fuel1 as [| fuel1 IH]; intros fuel2 c fmt Hg H1 Hp1 H2 Hp2; [lia |].
  destruct fuel2 as [| fuel2]; [lia |].
  cbn [initfp_loop].
  destruct (_Chunk_init c) as [e | ch] eqn:Hinit; [reflexivity |].
  destruct (inner_init_spec wav c ch Hg Hinit) as [Hgi [Hm Hin]].
  destruct (bytes_eqb (chunkname ch) b_fmt).
  - destruct (_read_fmt_chunk ch) as [e | [p ch1]] eqn:Hf; [reflexivity |].
    destruct (read_fmt_chunk_spec wav ch ch1 p Hgi Hf) as [Hg1 [Hm1 _]].
    cbn [bind].
    destruct (_Chunk_skip ch1) as [e | ch2] eqn:Hskip; [reflexivity |].
    destruct (inner_skip_spec wav ch1 ch2 Hg1 Hskip) as [Hg2 Hm2].
    cbn [bind]. apply IH; try assumption; lia.
  - destruct (bytes_eqb (chunkname ch) b_data); [reflexivity |].
    destruct (_Chunk_skip ch) as [e | ch2] eqn:Hskip; [reflexivity |].
    destruct (inner_skip_spec wav ch ch2 Hgi Hskip) as [Hg2 Hm2].
    cbn [bind]. apply IH; try assumption; lia.
Qed.
Lemma initfp_fuel_enough (wav : bytes) (c : _Chunk BytesIO) (fmt : option fmt_fields)
      (k : nat) :
  good_outer wav c -> 0 <= outer_pos c ->
  initfp_loop (S (length wav) + k) c fmt = initfp_loop (S (length wav)) c fmt.
Proof.
  intros Hg Hp. apply (initfp_loop_fuel wav); try assumption; unfold blen; lia.
Qed.

(** A container that the reader accepts has at least the 44 bytes of the
    RIFF, fmt and data headers, and declares a nonzero sample width and
    a nonzero channel count. *)
Lemma wave_open_accepts (wav : bytes) (wf : Wave_read) :
  wave_open_rb wav = inr wf ->
  44 <= blen wav /\ getsampwidth wf <> 0 /\ getnchannels wf <> 0.
Proof.
  unfold wave_open_rb, initfp, _Chunk_init. cbn [f_read BytesIO_FileLike bio_buf].
  pose proof (BytesIO_read_spec 4 (mkBytesIO wav 0) ltac:(lia) ltac:(cbn; lia)) as H1.
  destruct (BytesIO_read 4 (mkBytesIO wav 0)) as [name f1].
  destruct H1 as [Hb1 [Hp1 [Hl1 Hin1]]]. cbn [bio_pos bio_buf] in *.
  destruct (Z.ltb_spec (blen name) 4) as [? | Hn]; [discriminate |].
  pose proof (BytesIO_read_spec 4 f1 ltac:(lia) ltac:(lia)) as H2.
  destruct (BytesIO_read 4 f1) as [szb f2].
  destruct H2 as [Hb2 [Hp2 [Hl2 Hin2]]].
  unfold unpack_from_L.
  destruct (Z.ltb_spec (blen szb) 4) as [? | Hz]; [discriminate |].
  cbn [ret bind f_tell BytesIO_FileLike chunkname].
  destruct (negb (bytes_eqb name b_RIFF)); [discriminate |].
  set (c0 := mk_Chunk f2 name (le_unsigned (firstn 4 szb)) 0 (bio_pos f2)).
  assert (Hg0 : good_outer wav c0).
  { unfold good_outer. subst c0. cbn [file offset size_read].
    repeat split; try lia. congruence. }
  pose proof (outer_read_spec wav 4 c0 ltac:(lia) Hg0) as H3.
  destruct (_Chunk_read 4 c0) as [d c1].
  destruct H3 as [Hg1 [_ [_ [Hm1 [Hl3 Hin3]]]]].
  destruct (bytes_eqb d b_WAVE) eqn:Hw; cbn [negb]; intros Hloop; [| discriminate].
  pose proof (initfp_loop_needs_bytes wav _ c1 None wf Hg1 Hloop) as Hneed.
  assert (blen d = 4) by (apply (bytes_eqb_length _ _ Hw)).
  split.
  - unfold outer_pos in *. subst c0. cbn [offset size_read] in *. lia.
  - apply (initfp_loop_fields wav (S (length wav)) c1 None wf Hg1);
      [discriminate | exact Hloop].
Qed.

(** ** C2: what decode rejects *)

(** C2, as stated, fails: [three_channel_wav] declares three channels
    and is decoded, its six samples returned interleaved. *)
Lemma C2_counterexample :
  ~ (forall wav wf,
        wave_open_rb wav = inr wf -> 2 < getnchannels wf ->
        exists e, _wav_to_samples wav = inl e).
Proof.
  intros H.
  assert (Ho : exists wf, wave_open_rb three_channel_wav = inr wf /\ 2 < getnchannels wf).
  { eexists. split; vm_compute; reflexivity. }
  destruct Ho as [wf [Ho Hc]].
  destruct (H _ _ Ho Hc) as [e He].
  vm_compute in He. discriminate He.
Qed.

(** C2, amended: decode fails, with the exception and no samples,
    whenever the reader rejects the header; the reader accepts no input
    shorter than the 44 header bytes, no zero sample width and no zero
    channel count.  Every accepted container is decoded unless the
    unpacking of 16-bit data raises: no other sample width and no
    channel count is rejected, and only a channel count of 2 is
    downmixed. *)
Theorem C2_decode_failures (wav : bytes) :
  match wave_open_rb wav with
  | inl e => _wav_to_samples wav = inl e
  | inr wf =>
    44 <= blen wav /\ getsampwidth wf <> 0 /\ getnchannels wf <> 0 /\
    match extract_samples (getsampwidth wf) (readframes (getnframes wf) wf) with
    | inl e => getsampwidth wf = 2 /\ _wav_to_samples wav = inl e
    | inr samples =>
      _wav_to_samples wav =
        inr (map normalize (if getnchannels wf =? 2 then downmix samples else samples),
             getframerate wf)
    end
  end.
Proof.
  destruct (wave_open_rb wav) as [e | wf] eqn:Ho.
  - unfold _wav_to_samples. rewrite Ho. reflexivity.
  - destruct (wave_open_accepts wav wf Ho) as [Hlen [Hw Hc]].
    repeat (split; [assumption |]).
    destruct (extract_samples _ _) as [e | samples] eqn:He.
    + split.
      * unfold extract_samples in He.
        destruct (Z.eqb_spec (getsampwidth wf) 2); [assumption |].
        destruct (getsampwidth wf =? 1); discriminate He.
      * unfold _wav_to_samples. rewrite Ho. cbn [bind]. rewrite He. reflexivity.
    + apply (wav_to_samples_unfold _ _ _ Ho He).
Qed.

(** Every input shorter than 44 bytes is rejected. *)
Corollary truncated_header_rejected (wav : bytes) :
  blen wav < 44 -> exists e, _wav_to_samples wav = inl e.
Proof.
  intros Hlen. unfold _wav_to_samples.
  destruct (wave_open_rb wav) as [e | wf] eqn:Ho; [exists e; reflexivity |].
  destruct (wave_open_accepts wav wf Ho) as [H44 _]. lia.
Qed.

(** ** Loops and list updates *)

Lemma for_each_invariant {S A : Type} (body : A -> S -> result S) (P : S -> Prop)
      (l : list A) :
  (forall a s, In a l -> P s -> exists s', body a s = inr s' /\ P s') ->
  forall s, P s -> exists s', for_each body l s = inr s' /\ P s'.
Proof.
  induction l as [| a l IH]; intros Hbody s Hs.
  - exists s. split; [reflexivity | assumption].
  - destruct (Hbody a s (or_introl eq_refl) Hs) as [s1 [H1 P1]].
    cbn [for_each]. rewrite H1. cbn [bind].
    apply IH; [| assumption].
    intros a' s' Hin. apply Hbody. right. assumption.
Qed.

Lemma py_range_unit_in (a b i : Z) : In i (py_range a b 1) -> a <= i < b.
Proof.
  unfold py_range. intros Hin. apply in_map_iff in Hin.
  destruct Hin as [k [<- Hk]]. apply in_seq in Hk.
  replace (b - a + 1 - 1) with (b - a) in Hk by lia.
  rewrite Z.div_1_r in Hk. lia.
Qed.

Lemma replace_nth_length {A : Type} (n : nat) (l : list A) (v : A) :
  length (replace_nth n l v) = length l.
Proof.
  revert n. induction l as [| a l IH]; intros [| n]; cbn; auto.
Qed.

Lemma replace_nth_other {A : Type} (n m : nat) (l : list A) (v d : A) :
  n <> m -> nth m (replace_nth n l v) d = nth m l d.
Proof.
  revert n m. induction l as [| a l IH]; intros [| n] [| m] Hne; cbn; auto.
  contradiction.
Qed.

Lemma list_getitem_in_range {A : Type} (l : list A) (i : Z) (d : A) :
  0 <= i < zlen l -> list_getitem l i = inr (znth d l i).
Proof.
  intros Hi. assert (E : (i <? 0) = false) by (apply Z.ltb_ge; lia).
  unfold list_getitem, znth, zlen in *. cbv zeta. rewrite !E.
  destruct (nth_error l (Z.to_nat i)) as [a |] eqn:Hn.
  - rewrite (nth_error_nth _ _ d Hn). reflexivity.
  - apply nth_error_None in Hn. lia.
Qed.

Lemma list_setitem_in_range {A : Type} (l : list A) (i : Z) (v : A) :
  0 <= i < zlen l -> list_setitem l i v = inr (replace_nth (Z.to_nat i) l v).
Proof.
  intros Hi. assert (E : (i <? 0) = false) by (apply Z.ltb_ge; lia).
  assert (E' : (zlen l <=? i) = false) by (apply Z.leb_gt; lia).
  unfold list_setitem. cbv zeta. rewrite !E, E'. reflexivity.
Qed.

Lemma same_outside_refl (lo hi : Z) (l : list float) : same_outside lo hi l l.
Proof. split; auto. Qed.

Lemma same_outside_update (lo hi i : Z) (old cur : list float) (v : float) :
  same_outside lo hi old cur -> lo <= i < hi -> 0 <= i ->
  same_outside lo hi old (replace_nth (Z.to_nat i) cur v).
Proof.
  intros [Hlen Hsame] Hi H0. split.
  - unfold zlen in *. rewrite replace_nth_length. assumption.
  - intros j Hr Hj. rewrite <- (Hsame j Hr Hj). unfold znth.
    apply replace_nth_other. lia.
Qed.

(** ** C6 and C7: the distortion pass *)

Section NoiseProperties.
Context `{RandomSource} `{Libm}.

Lemma iadd_in_range (samples : list float) (i : Z) (v : float) :
  0 <= i < zlen samples ->
  iadd samples i v =
    inr (replace_nth (Z.to_nat i) samples (znth 0%float samples i + v)%float).
Proof.
  intros Hi. unfold iadd. rewrite (list_getitem_in_range _ _ 0%float Hi).
  cbn [bind]. apply list_setitem_in_range. assumption.
Qed.

Lemma imul_in_range (samples : list float) (i : Z) (v : float) :
  0 <= i < zlen samples ->
  imul samples i v =
    inr (replace_nth (Z.to_nat i) samples (znth 0%float samples i * v)%float).
Proof.
  intros Hi. unfold imul. rewrite (list_getitem_in_range _ _ 0%float Hi).
  cbn [bind]. apply list_setitem_in_range. assumption.
Qed.

(** A loop that adds one fresh draw to every index of [range(lo, hi)],
    for [0 <= lo] and [hi <= len(samples)]. *)
Lemma draw_loop_spec (draw : rng -> float * rng) (lo hi : Z) (old : list float) :
  0 <= lo -> hi <= zlen old ->
  forall st, same_outside lo hi old (fst st) ->
  exists st',
    for_each (fun i '(samples, g) =>
                let '(u, g) := draw g in
                samples <- iadd samples i u ;;
                ret (samples, g))
             (py_range lo hi 1) st = inr st' /\
    same_outside lo hi old (fst st').
Proof.
  intros Hlo Hhi.
  apply for_each_invariant with (P := fun st => same_outside lo hi old (fst st)).
  intros i [samples g] Hin Hs. cbn [fst] in Hs.
  apply py_range_unit_in in Hin.
  destruct (draw g) as [u g'].
  assert (Hi : 0 <= i < zlen samples) by (destruct Hs as [Hl _]; lia).
  rewrite (iadd_in_range _ _ _ Hi). cbn [bind ret].
  eexists. split; [reflexivity |]. cbn [fst].
  apply same_outside_update; [assumption | lia | lia].
Qed.

(** A loop over [range(n)] whose body updates index [i] by a value
    computed from [i], with [n = len(samples)]. *)
Lemma index_loop_spec (update : list float -> Z -> float -> result (list float))
      (value : Z -> result float) (n : Z) :
  (forall i, 0 <= i < n -> exists v, value i = inr v) ->
  (forall samples i v, 0 <= i < zlen samples ->
      exists x, update samples i v = inr (replace_nth (Z.to_nat i) samples x)) ->
  forall samples, zlen samples = n ->
  exists samples',
    for_each (fun i samples => t <- value i ;; update samples i t)
             (py_range 0 n 1) samples = inr samples' /\
    zlen samples' = n.
Proof.
  intros Hv Hu.
  apply for_each_invariant with (P := fun samples => zlen samples = n).
  intros i samples Hin Hs. apply py_range_unit_in in Hin.
  destruct (Hv i Hin) as [v ->]. cbn [bind].
  destruct (Hu samples i v ltac:(lia)) as [x ->].
  eexists. split; [reflexivity |].
  unfold zlen in *. rewrite replace_nth_length. assumption.
Qed.
End NoiseProperties.

Section DistortionPass.
Context `{RandomSource} `{Libm}.

Lemma crackle_burst_length (n : Z) (st : list float * rng) :
  zlen (fst st) = n ->
  exists st', crackle_burst n st = inr st' /\ zlen (fst st') = n.
Proof.
  intros Hn. destruct st as [samples g]. cbn [fst] in Hn. unfold crackle_burst.
  pose proof (randint_range 0 (Z.max 0 (n - 500)) g ltac:(lia)) as Hstart.
  destruct (random_randint 0 (Z.max 0 (n - 500)) g) as [start g1]. cbn [fst] in Hstart.
  destruct (random_randint 80 300 g1) as [length g2].
  destruct (random_uniform 0.03 0.08 g2) as [crackle_vol g3].
  destruct (draw_loop_spec (random_uniform (- crackle_vol) crackle_vol)
              start (Z.min (start + length) n) samples
              ltac:(lia) ltac:(lia) (samples, g3)
              (same_outside_refl _ _ _)) as [st' [Hrun [Hlen _]]].
  exists st'. split; [exact Hrun | lia].
Qed.

(** C6: a crackle burst drawn for a buffer of length [n] raises no
    [IndexError], keeps the length, and changes no sample outside
    [[start, min(start + length, n))], whatever [start + length] is. *)
Theorem C6_crackle_burst_in_bounds (samples : list float) (g : rng) :
  let n := zlen samples in
  let start := fst (random_randint 0 (Z.max 0 (n - 500)) g) in
  let g1 := snd (random_randint 0 (Z.max 0 (n - 500)) g) in
  let length := fst (random_randint 80 300 g1) in
  exists samples' g',
    crackle_burst n (samples, g) = inr (samples', g') /\
    zlen samples' = n /\
    0 <= start /\ Z.min (start + length) n <= n /\
    forall j, 0 <= j < n -> ~ (start <= j < Z.min (start + length) n) ->
      znth 0%float samples' j = znth 0%float samples j.
Proof.
  intros n start g1 length. unfold crackle_burst.
  pose proof (randint_range 0 (Z.max 0 (n - 500)) g ltac:(lia)) as Hstart.
  fold start in Hstart. subst start g1 length.
  destruct (random_randint 0 (Z.max 0 (n - 500)) g) as [start g1]. cbn [fst snd] in *.
  destruct (random_randint 80 300 g1) as [length g2]. cbn [fst].
  destruct (random_uniform 0.03 0.08 g2) as [crackle_vol g3].
  destruct (draw_loop_spec (random_uniform (- crackle_vol) crackle_vol)
              start (Z.min (start + length) n) samples
              ltac:(lia) ltac:(subst n; lia) (samples, g3)
              (same_outside_refl _ _ _)) as [[samples' g'] [Hrun [Hlen Hsame]]].
  exists samples', g'. cbn [fst] in *.
  split; [exact Hrun |]. split; [exact Hlen |]. split; [lia |]. split; [lia |].
  exact Hsame.
Qed.

Lemma white_noise_length (n : Z) (st : list float * rng) :
  zlen (fst st) = n ->
  exists st', white_noise n st = inr st' /\ zlen (fst st') = n.
Proof.
  intros Hn. destruct st as [samples g]. cbn [fst] in Hn. unfold white_noise.
  destruct (random_uniform 0.02 0.06 g) as [noise_vol g1].
  destruct (draw_loop_spec (random_uniform (- noise_vol) noise_vol)
              0 n samples ltac:(lia) ltac:(lia) (samples, g1)
              (same_outside_refl _ _ _)) as [st' [Hrun [Hlen _]]].
  exists st'. split; [exact Hrun | lia].
Qed.

Lemma int_truediv_nonzero (i rate : Z) :
  rate <> 0 -> exists t, int_truediv i rate = inr t.
Proof.
  intros Hr. unfold int_truediv.
  destruct (Z.eqb_spec rate 0); [contradiction |]. eexists. reflexivity.
Qed.

Lemma hum_length (n sample_rate : Z) (st : list float * rng) :
  sample_rate <> 0 -> zlen (fst st) = n ->
  exists st', hum n sample_rate st = inr st' /\ zlen (fst st') = n.
Proof.
  intros Hr Hn. destruct st as [samples g]. cbn [fst] in Hn. unfold hum.
  destruct (random_uniform 45 65 g) as [hum_freq g1].
  destruct (random_uniform 0.02 0.05 g1) as [hum_vol g2].
  destruct (index_loop_spec
              (fun samples i t =>
                 iadd samples i (hum_vol * math_sin (2 * math_pi * hum_freq * t)))
              (fun i => int_truediv i sample_rate) n
              (fun i _ => int_truediv_nonzero i sample_rate Hr)
              (fun samples i v Hi => ex_intro _ _ (iadd_in_range samples i _ Hi))
              samples Hn) as [samples' [Hrun Hlen]].
  rewrite Hrun. cbn [bind ret]. eexists. split; [reflexivity | exact Hlen].
Qed.

Lemma warble_length (n sample_rate : Z) (st : list float * rng) :
  sample_rate <> 0 -> zlen (fst st) = n ->
  exists st', warble n sample_rate st = inr st' /\ zlen (fst st') = n.
Proof.
  intros Hr Hn. destruct st as [samples g]. cbn [fst] in Hn. unfold warble.
  destruct (random_uniform 2 4 g) as [warble_freq g1].
  destruct (random_uniform 0.003 0.008 g1) as [warble_depth g2].
  destruct (index_loop_spec
              (fun samples i t =>
                 imul samples i
                   (1 + warble_depth * math_sin (2 * math_pi * warble_freq * t)))
              (fun i => int_truediv i sample_rate) n
              (fun i _ => int_truediv_nonzero i sample_rate Hr)
              (fun samples i v Hi => ex_intro _ _ (imul_in_range samples i _ Hi))
              samples Hn) as [samples' [Hrun Hlen]].
  rewrite Hrun. cbn [bind ret]. eexists. split; [reflexivity | exact Hlen].
Qed.

Lemma crackle_length (n : Z) (st : list float * rng) :
  zlen (fst st) = n ->
  exists st', crackle n st = inr st' /\ zlen (fst st') = n.
Proof.
  intros Hn. destruct st as [samples g]. unfold crackle.
  destruct (random_randint 3 8 g) as [bursts g1].
  apply for_each_invariant with (P := fun st => zlen (fst st) = n); [| exact Hn].
  intros _ st _ Hst. apply crackle_burst_length. exact Hst.
Qed.

Lemma add_noise_length (samples : list float) (sample_rate : Z) (g : rng) :
  sample_rate <> 0 ->
  exists samples' g',
    _add_noise samples sample_rate g = inr (samples', g') /\
    zlen samples' = zlen samples.
Proof.
  intros Hr. unfold _add_noise.
  destruct (white_noise_length (zlen samples) (samples, g) eq_refl) as [st1 [-> H1]].
  cbn [bind].
  destruct (hum_length _ sample_rate st1 Hr H1) as [st2 [-> H2]]. cbn [bind].
  destruct (crackle_length _ st2 H2) as [st3 [-> H3]]. cbn [bind].
  destruct (warble_length _ sample_rate st3 Hr H3) as [[s4 g4] [-> H4]].
  exists s4, g4. split; [reflexivity | exact H4].
Qed.

(** C7: for every buffer with a positive sample rate and every state of
    the random source, the distortion pass returns a buffer of the
    same length; the rate is an argument that the pass only reads. *)
Theorem C7_add_noise_keeps_length (samples : list float) (sample_rate : Z) (g : rng) :
  0 < sample_rate ->
  exists samples' g',
    _add_noise samples sample_rate g = inr (samples', g') /\
    zlen samples' = zlen samples.
Proof.
  intros Hpos. assert (Hr : sample_rate <> 0) by lia. unfold _add_noise.
  destruct (white_noise_length (zlen samples) (samples, g) eq_refl) as [st1 [-> H1]].
  cbn [bind].
  destruct (hum_length _ sample_rate st1 Hr H1) as [st2 [-> H2]]. cbn [bind].
  destruct (crackle_length _ st2 H2) as [st3 [-> H3]]. cbn [bind].
  destruct (warble_length _ sample_rate st3 Hr H3) as [[s4 g4] [-> H4]].
  exists s4, g4. split; [reflexivity | exact H4].
Qed.
End DistortionPass.

Lemma C7_add_noise_keeps_length_witness :
  exists samples' g',
    @_add_noise counter_random taylor_libm [0.5; -0.25; 0.125]%float 22050 3
      = inr (samples', g') /\
    zlen samples' = zlen [0.5; -0.25; 0.125]%float.
Proof.
  apply (@C7_add_noise_keeps_length counter_random taylor_libm). reflexivity.
Defined.


(** ** Binary64 rounding *)

Lemma digits2_pos_bounds (p : positive) :
  2 ^ (Zpos (digits2_pos p) - 1) <= Zpos p < 2 ^ Zpos (digits2_pos p).
Proof.
  induction p as [p IH | p IH |]; cbn [digits2_pos].
  - rewrite Pos2Z.inj_succ. replace (Z.succ (Zpos (digits2_pos p)) - 1)
      with (Z.succ (Zpos (digits2_pos p) - 1)) by lia.
    rewrite !Z.pow_succ_r by lia. lia.
  - rewrite Pos2Z.inj_succ. replace (Z.succ (Zpos (digits2_pos p)) - 1)
      with (Z.succ (Zpos (digits2_pos p) - 1)) by lia.
    rewrite !Z.pow_succ_r by lia. lia.
  - cbn. lia.
Qed.

Lemma digits_unique (m d : Z) :
  0 < m -> 2 ^ (d - 1) <= m < 2 ^ d -> Zdigits2 m = d.
Proof.
  intros Hm Hd. destruct m as [| p | p]; try lia. cbn [Zdigits2].
  pose proof (digits2_pos_bounds p) as Hp.
  set (k := Zpos (digits2_pos p)) in *.
  assert (0 < k) by (subst k; lia).
  assert (0 <= d).
  { destruct (Z.ltb_spec d 0); [| assumption].
    rewrite (Z.pow_neg_r 2 d) in Hd by lia. lia. }
  destruct (Z.lt_trichotomy k d) as [Hlt | [Heq | Hgt]]; [| assumption |].
  - assert (2 ^ k <= 2 ^ (d - 1)) by (apply Z.pow_le_mono_r; lia). lia.
  - assert (2 ^ d <= 2 ^ (k - 1)) by (apply Z.pow_le_mono_r; lia). lia.
Qed.

Lemma digits_bounds (m : Z) :
  0 < m -> 2 ^ (Zdigits2 m - 1) <= m < 2 ^ Zdigits2 m.
Proof.
  intros Hm. destruct m as [| p | p]; try lia. apply digits2_pos_bounds.
Qed.

Lemma digits_nonneg (m : Z) : 0 <= Zdigits2 m.
Proof. destruct m; cbn; lia. Qed.

Lemma digits_le (m d : Z) : 0 <= d -> 0 <= m < 2 ^ d -> Zdigits2 m <= d.
Proof.
  intros Hd Hm. destruct (Z.eq_dec m 0) as [-> | Hnz]; [cbn; lia |].
  pose proof (digits_bounds m ltac:(lia)) as Hb.
  destruct (Z.leb_spec (Zdigits2 m) d); [assumption |].
  assert (2 ^ d <= 2 ^ (Zdigits2 m - 1)) by (apply Z.pow_le_mono_r; lia). lia.
Qed.

Lemma digits_ge (m d : Z) : 2 ^ (d - 1) <= m -> 0 < m -> d <= Zdigits2 m.
Proof.
  intros Hd Hm. pose proof (digits_bounds m Hm) as Hb.
  pose proof (digits_nonneg m).
  destruct (Z.leb_spec d (Zdigits2 m)); [assumption |].
  assert (2 ^ Zdigits2 m <= 2 ^ (d - 1)) by (apply Z.pow_le_mono_r; lia). lia.
Qed.

Lemma shr_1_m (mrs : shr_record) :
  0 <= shr_m mrs -> shr_m (shr_1 mrs) = shr_m mrs / 2.
Proof.
  destruct mrs as [m r s]. cbn [shr_m]. intros Hm.
  destruct m as [| [p | p |] | p]; cbn [shr_1 shr_m]; try lia; try reflexivity.
  - apply Z.div_unique with (r := 1); lia.
  - apply Z.div_unique with (r := 0); lia.
Qed.

Lemma iter_shr_1_m (n : positive) :
  forall mrs, 0 <= shr_m mrs ->
              shr_m (iter_pos shr_1 n mrs) = shr_m mrs / 2 ^ Zpos n.
Proof.
  induction n as [n IH | n IH |]; intros mrs Hm; cbn [iter_pos].
  - assert (H1 : 0 <= shr_m (shr_1 mrs))
      by (rewrite shr_1_m by assumption; apply Z.div_pos; lia).
    assert (H2 : 0 <= shr_m (iter_pos shr_1 n (shr_1 mrs)))
      by (rewrite IH by assumption; apply Z.div_pos; lia).
    rewrite IH, IH, shr_1_m by assumption.
    rewrite !Z.div_div by lia. f_equal.
    replace (Z.pos n~1) with (1 + Z.pos n + Z.pos n) by lia.
    rewrite !Z.pow_add_r by lia. change (2 ^ 1) with 2. ring.
  - assert (H2 : 0 <= shr_m (iter_pos shr_1 n mrs))
      by (rewrite IH by assumption; apply Z.div_pos; lia).
    rewrite IH, IH by assumption.
    rewrite Z.div_div by lia. f_equal.
    replace (Z.pos n~0) with (Z.pos n + Z.pos n) by lia.
    rewrite Z.pow_add_r by lia. reflexivity.
  - rewrite shr_1_m by assumption. reflexivity.
Qed.
Lemma shr_fexp_spec (m e : Z) (l : location) :
  0 <= m ->
  let k := Z.max 0 (fexp prec emax (Zdigits2 m + e) - e) in
  exists mrs,
    shr_fexp prec emax m e l = (mrs, e + k) /\
    shr_m mrs = m / 2 ^ k /\
    (k = 0 -> loc_of_shr_record mrs = l).
Proof.
  intros Hm k. unfold shr_fexp, shr. subst k.
  assert (Hrec : shr_m (shr_record_of_loc m l) = m)
    by (destruct l as [| []]; reflexivity).
  assert (Hloc : loc_of_shr_record (shr_record_of_loc m l) = l)
    by (destruct l as [| []]; reflexivity).
  destruct (fexp prec emax (Zdigits2 m + e) - e) as [| p | p] eqn:Hn.
  - eexists. rewrite Z.add_0_r. split; [reflexivity |].
    cbn [Z.max Z.compare]. rewrite Z.pow_0_r, Z.div_1_r. auto.
  - eexists. rewrite Z.max_r by lia. split; [reflexivity |].
    rewrite iter_shr_1_m by (rewrite Hrec; assumption). rewrite Hrec.
    split; [reflexivity | lia].
  - eexists. rewrite Z.max_l by lia. rewrite Z.add_0_r. split; [reflexivity |].
    rewrite Z.pow_0_r, Z.div_1_r. auto.
Qed.

Lemma round_nearest_even_bounds (m : Z) (l : location) :
  m <= round_nearest_even m l <= m + 1.
Proof.
  unfold round_nearest_even. destruct l as [| []]; try lia.
  destruct (Z.even m); lia.
Qed.

(** The shape of a rounded result: the mantissa is shifted right by
    [k1] bits, moved up by at most one unit, and shifted again by [k2]
    bits if the first step made it too long. *)
Lemma binary_round_aux_shape (s : bool) (m e : Z) (l : location) :
  0 <= m ->
  let k1 := Z.max 0 (fexp prec emax (Zdigits2 m + e) - e) in
  exists m2,
    m / 2 ^ k1 <= m2 <= m / 2 ^ k1 + 1 /\
    (k1 = 0 -> l = loc_Exact -> m2 = m) /\
    let k2 := Z.max 0 (fexp prec emax (Zdigits2 m2 + (e + k1)) - (e + k1)) in
    binary_round_aux prec emax s m e l =
      match m2 / 2 ^ k2 with
      | Z0 => S754_zero s
      | Zpos q => if e + k1 + k2 <=? emax - prec
                  then S754_finite s q (e + k1 + k2) else S754_infinity s
      | Zneg _ => S754_nan
      end.
Proof.
  intros Hm k1. unfold binary_round_aux.
  destruct (shr_fexp_spec m e l Hm) as [mrs1 [H1 [Hm1 Hl1]]]. fold k1 in H1, Hm1, Hl1.
  rewrite H1.
  set (m2 := round_nearest_even (shr_m mrs1) (loc_of_shr_record mrs1)).
  pose proof (round_nearest_even_bounds (shr_m mrs1) (loc_of_shr_record mrs1)) as Hb.
  fold m2 in Hb. rewrite Hm1 in Hb.
  assert (0 <= m / 2 ^ k1) by (apply Z.div_pos; lia).
  destruct (shr_fexp_spec m2 (e + k1) loc_Exact ltac:(lia)) as [mrs2 [H2 [Hm2 _]]].
  exists m2. split; [exact Hb |]. split.
  - intros Hk Hl. subst m2. rewrite (Hl1 Hk), Hl. cbn [round_nearest_even].
    rewrite Hm1, Hk, Z.pow_0_r, Z.div_1_r. reflexivity.
  - cbv zeta. rewrite H2, Hm2. reflexivity.
Qed.
Lemma valid_finite (x : float) (s : bool) (m : positive) (e : Z) :
  Prim2SF x = S754_finite s m e ->
  Z.max (Zpos (digits2_pos m) + e - 53) (-1074) = e /\ e <= 971.
Proof.
  intros Hx. pose proof (Prim2SF_valid x) as Hv. rewrite Hx in Hv.
  cbn [SpecFloat.valid_binary] in Hv. unfold bounded, canonical_mantissa in Hv.
  apply andb_true_iff in Hv. destruct Hv as [Hc He].
  apply Z.eqb_eq in Hc. apply Z.leb_le in He.
  split; [exact Hc | exact He].
Qed.

Lemma prim2sf_one : Prim2SF 1 = S754_finite false 4503599627370496 (-52).
Proof. vm_compute. reflexivity. Qed.

Lemma prim2sf_minus_one : Prim2SF (-1) = S754_finite true 4503599627370496 (-52).
Proof. vm_compute. reflexivity. Qed.

(** Comparisons of finite numbers of one sign, for any mantissas. *)
Lemma SFleb_pos_pos (m p0 : positive) (e e0 : Z) :
  SFleb (S754_finite false m e) (S754_finite false p0 e0) = true ->
  e < e0 \/ (e = e0 /\ (m <= p0)%positive).
Proof.
  unfold SFleb, SFcompare.
  destruct (Z.compare_spec e e0) as [He | He | He]; intros H; try discriminate H.
  - right. split; [exact He |].
    change (Pos.compare_cont Eq m p0) with (Pos.compare m p0) in H.
    unfold Pos.le. destruct (Pos.compare m p0); [discriminate | discriminate | discriminate H].
  - left. exact He.
Qed.

Lemma SFleb_neg_neg (m p0 : positive) (e e0 : Z) :
  SFleb (S754_finite true p0 e0) (S754_finite true m e) = true ->
  e < e0 \/ (e = e0 /\ (m <= p0)%positive).
Proof.
  unfold SFleb, SFcompare.
  destruct (Z.compare_spec e0 e) as [He | He | He]; intros H; try discriminate H.
  - right. split; [symmetry; exact He |].
    change (Pos.compare_cont Eq p0 m) with (Pos.compare p0 m) in H.
    unfold Pos.le. rewrite (Pos.compare_antisym p0 m).
    destruct (Pos.compare p0 m); [discriminate | discriminate H | discriminate].
  - left. exact He.
Qed.

(** A float between [-1.0] and [1.0]: a zero, [1.0] or [-1.0], or a
    finite number whose exponent is at most [-53]. *)
Lemma unit_interval_shape (c : float) :
  (c <=? 1)%float = true -> (-1 <=? c)%float = true ->
  match Prim2SF c with
  | S754_zero _ => True
  | S754_finite s m e =>
    (e = -52 /\ m = 4503599627370496%positive) \/
    (e <= -53 /\ Zpos m < 2 ^ 53)
  | _ => False
  end.
Proof.
  rewrite !FloatAxioms.leb_spec, prim2sf_one, prim2sf_minus_one.
  assert (Hp0 : Zpos 4503599627370496 = 2 ^ 52) by reflexivity.
  remember 4503599627370496%positive as p0 eqn:Ep0.
  destruct (Prim2SF c) as [s | s | | s m e] eqn:Hc; cbv beta iota.
  - trivial.
  - unfold SFleb, SFcompare. destruct s; intros H1 H2; discriminate.
  - unfold SFleb, SFcompare. intros H1 H2; discriminate.
  - intros H1 H2.
    destruct (valid_finite c s m e Hc) as [Hcan _].
    pose proof (digits2_pos_bounds m) as Hd.
    assert (Hcmp : e < -52 \/ (e = -52 /\ (m <= p0)%positive)).
    { destruct s; [apply (SFleb_neg_neg _ _ _ _ H2) | apply (SFleb_pos_pos _ _ _ _ H1)]. }
    destruct Hcmp as [He | [He Hm]].
    + right. split; [lia |].
      assert (Zpos (digits2_pos m) <= 53) by lia.
      assert (2 ^ Zpos (digits2_pos m) <= 2 ^ 53) by (apply Z.pow_le_mono_r; lia).
      lia.
    + left. split; [exact He |].
      assert (Hd53 : Zpos (digits2_pos m) = 53) by lia.
      rewrite Hd53 in Hd. replace (53 - 1) with 52 in Hd by reflexivity.
      rewrite <- Hp0 in Hd.
      apply Pos.le_antisym; [exact Hm |].
      apply Pos2Z.pos_le_pos. exact (proj1 Hd).
Qed.
Lemma pow2_pos (k : Z) : 0 <= k -> 0 < 2 ^ k.
Proof. intros Hk. apply Z.pow_pos_nonneg; lia. Qed.

Lemma pow2_split (a b : Z) : 0 <= a -> 0 <= b -> 2 ^ (a + b) = 2 ^ a * 2 ^ b.
Proof. intros Ha Hb. apply Z.pow_add_r; assumption. Qed.

Lemma fexp_unfold (x : Z) : fexp prec emax x = Z.max (x - 53) (-1074).
Proof. reflexivity. Qed.

(** Rounding [mx * 2^ex * 32767.0] for a mantissa [mx < 2^53] and an
    exponent [ex <= -53], that is for a number below [1.0]: the result
    is a zero or a finite number whose integer part is at most 32767. *)
Lemma round_times_32767 (sx : bool) (mx : positive) (ex : Z) :
  ex <= -53 -> Zpos mx < 2 ^ 53 ->
  let r := binary_round_aux prec emax sx (Zpos mx * (32767 * 2 ^ 38)) (ex + -38)
             loc_Exact in
  r = S754_zero sx \/
  exists q e3, r = S754_finite sx q e3 /\ Z.shiftl (Zpos q) e3 <= 32767.
Proof.
  intros Hex Hmx r. subst r.
  set (m := Zpos mx * (32767 * 2 ^ 38)).
  set (e := ex + -38).
  assert (H38 : 0 < 2 ^ 38) by (apply pow2_pos; lia).
  assert (Hm0 : 0 < m) by (subst m; lia).
  destruct (binary_round_aux_shape sx m e loc_Exact ltac:(lia)) as [m2 [Hm2 [_ Hr]]].
  cbv zeta in Hr. rewrite Hr. clear Hr.
  set (k1 := Z.max 0 (fexp prec emax (Zdigits2 m + e) - e)) in *.
  set (E1 := e + k1) in *.
  set (k2 := Z.max 0 (fexp prec emax (Zdigits2 m2 + E1) - E1)).
  (* E1 <= -38 *)
  assert (Hd : Zdigits2 m <= 106).
  { apply digits_le; [lia |]. split; [lia |]. subst m.
    replace 106 with (53 + 53) by lia. rewrite pow2_split by lia.
    assert (32767 * 2 ^ 38 < 2 ^ 53).
    { replace 53 with (15 + 38) by lia. rewrite pow2_split by lia.
      apply Z.mul_lt_mono_pos_r; [assumption | reflexivity]. }
    apply Z.mul_lt_mono_nonneg; lia. }
  assert (HE1 : E1 <= -38).
  { subst E1 k1 e. rewrite fexp_unfold. lia. }
  assert (Hk1 : 0 <= k1) by (subst k1; lia).
  assert (Hk2 : 0 <= k2) by (subst k2; lia).
  (* m < 32767 * 2^(-E1) * 2^k1 *)
  assert (Hpe : 2 ^ (- e) = 2 ^ (- E1) * 2 ^ k1).
  { rewrite <- pow2_split by lia. f_equal. subst E1. lia. }
  assert (Hmlt : m < 32767 * 2 ^ (- E1) * 2 ^ k1).
  { rewrite <- Z.mul_assoc, <- Hpe. subst m e.
    replace (- (ex + -38)) with (- ex + 38) by lia. rewrite pow2_split by lia.
    assert (2 ^ 53 <= 2 ^ (- ex)) by (apply Z.pow_le_mono_r; lia).
    assert (Hlt : Zpos mx < 2 ^ (- ex)) by lia.
    apply (Z.mul_lt_mono_pos_r (32767 * 2 ^ 38)) in Hlt; [| lia].
    replace (32767 * (2 ^ (- ex) * 2 ^ 38)) with (2 ^ (- ex) * (32767 * 2 ^ 38)) by ring.
    exact Hlt. }
  assert (HP1 : 0 < 2 ^ k1) by (apply pow2_pos; assumption).
  assert (HP2 : 0 < 2 ^ k2) by (apply pow2_pos; assumption).
  assert (HPE : 0 < 2 ^ (- E1)) by (apply pow2_pos; lia).
  assert (Hdiv : m / 2 ^ k1 < 32767 * 2 ^ (- E1)).
  { apply Z.div_lt_upper_bound; [assumption |]. rewrite Z.mul_comm. exact Hmlt. }
  assert (Hm2B : m2 <= 32767 * 2 ^ (- E1)) by lia.
  assert (Hm2pos : 0 <= m2).
  { assert (0 <= m / 2 ^ k1) by (apply Z.div_pos; lia). lia. }
  destruct (m2 / 2 ^ k2) as [| q | q] eqn:Hq.
  - left. reflexivity.
  - right.
    assert (HqB : Zpos q * 2 ^ k2 <= 32767 * 2 ^ (- E1)).
    { rewrite <- Hq. rewrite Z.mul_comm.
      pose proof (Z.mul_div_le m2 (2 ^ k2) HP2). lia. }
    assert (He3 : E1 + k2 < 15).
    { assert (2 ^ k2 < 2 ^ (15 + - E1)).
      { rewrite pow2_split by lia. change (2 ^ 15) with 32768.
        assert (2 ^ k2 <= Zpos q * 2 ^ k2) by nia. nia. }
      assert (k2 < 15 + - E1) by (apply (Z.pow_lt_mono_r_iff 2); lia). lia. }
    destruct (Z.leb_spec (E1 + k2) (emax - prec)) as [_ | Hover];
      [| unfold emax, prec in Hover; lia].
    exists q, (E1 + k2). split; [reflexivity |].
    destruct (Z.leb_spec 0 (E1 + k2)) as [Hpos | Hneg].
    + rewrite Z.shiftl_mul_pow2 by assumption.
      assert (Hk2e : 2 ^ k2 = 2 ^ (E1 + k2) * 2 ^ (- E1)).
      { rewrite <- pow2_split by lia. f_equal. lia. }
      rewrite Hk2e, Z.mul_assoc in HqB.
      apply Z.mul_le_mono_pos_r in HqB; assumption.
    + rewrite Z.shiftl_div_pow2 by lia.
      assert (HE1e : 2 ^ (- E1) = 2 ^ (- (E1 + k2)) * 2 ^ k2).
      { rewrite <- pow2_split by lia. f_equal. lia. }
      rewrite HE1e, Z.mul_assoc in HqB.
      apply Z.mul_le_mono_pos_r in HqB; [| assumption].
      apply Z.div_le_upper_bound; [apply pow2_pos; lia |].
      rewrite Z.mul_comm. exact HqB.
  - exfalso. assert (0 <= m2 / 2 ^ k2) by (apply Z.div_pos; lia). lia.
Qed.
Lemma prim2sf_32767 : Prim2SF 32767 = S754_finite false 9006924376834048 (-38).
Proof. vm_compute. reflexivity. Qed.

Lemma ltb_leb (a b : float) : (a <? b)%float = true -> (a <=? b)%float = true.
Proof.
  rewrite FloatAxioms.ltb_spec, FloatAxioms.leb_spec. unfold SFltb, SFleb.
  destruct (SFcompare (Prim2SF a) (Prim2SF b)) as [[| |] |]; intros H;
    try discriminate H; reflexivity.
Qed.

Lemma clamp_in_unit (s : float) :
  (clamp s <=? 1)%float = true /\ (-1 <=? clamp s)%float = true.
Proof.
  unfold clamp, py_max, py_min.
  assert (Hr : ((if (s <? 1)%float then s else 1%float) <=? 1)%float = true).
  { destruct (s <? 1)%float eqn:Hs; [apply ltb_leb; exact Hs | vm_compute; reflexivity]. }
  destruct (-1 <? (if (s <? 1)%float then s else 1%float))%float eqn:Hl.
  - split; [exact Hr | apply ltb_leb; exact Hl].
  - split; vm_compute; reflexivity.
Qed.

(** The quantised value of a float between [-1.0] and [1.0] is an
    integer between [-32767] and [32767]. *)
Lemma py_int_times_32767 (c : float) :
  (c <=? 1)%float = true -> (-1 <=? c)%float = true ->
  exists v, py_int (c * 32767) = inr v /\ -32767 <= v <= 32767.
Proof.
  intros H1 H2. pose proof (unit_interval_shape c H1 H2) as Hshape.
  unfold py_int. rewrite FloatAxioms.mul_spec, prim2sf_32767.
  destruct (Prim2SF c) as [s | s | | s m e]; try contradiction.
  - unfold SF64mul, SFmul. cbv beta iota. exists 0. split; [reflexivity | lia].
  - destruct Hshape as [[He Hm] | [He Hm]].
    + subst e m. destruct s.
      * exists (-32767). split; [vm_compute; reflexivity | lia].
      * exists 32767. split; [vm_compute; reflexivity | lia].
    + unfold SF64mul, SFmul. cbv beta iota.
      assert (HM : Zpos (m * 9006924376834048) = Zpos m * (32767 * 2 ^ 38)).
      { rewrite Pos2Z.inj_mul. f_equal. }
      rewrite HM.
      destruct (round_times_32767 (xorb s false) m e He Hm) as [Hz | [q [e3 [Hf Hq]]]];
        cbv zeta in *.
      * rewrite Hz. exists 0. split; [reflexivity | lia].
      * rewrite Hf.
        assert (0 <= Z.shiftl (Zpos q) e3) by (apply Z.shiftl_nonneg; lia).
        eexists. split; [reflexivity |].
        destruct (xorb s false); lia.
Qed.

(** ** The encoder *)

Lemma BytesIO_write_end (data buf : bytes) (pos : Z) :
  pos = blen buf ->
  BytesIO_write data (mkBytesIO buf pos) = mkBytesIO (buf ++ data) (pos + blen data).
Proof.
  intros ->. unfold BytesIO_write, blen. cbn [bio_buf bio_pos].
  rewrite Nat2Z.id, Nat.sub_diag. cbn [repeat]. rewrite app_nil_r.
  rewrite firstn_all, skipn_all2 by lia. rewrite app_nil_r. reflexivity.
Qed.

Section EncoderRun.
#[local] Arguments Z.add _ _ : simpl nomatch.
#[local] Arguments Z.mul _ _ : simpl nomatch.
#[local] Arguments Z.sub _ _ : simpl nomatch.
#[local] Arguments Z.div _ _ : simpl nomatch.
#[local] Arguments Z.pow _ _ : simpl never.
#[local] Arguments Z.leb _ _ : simpl nomatch.
#[local] Arguments Z.ltb _ _ : simpl nomatch.
#[local] Arguments Z.eqb _ _ : simpl nomatch.
#[local] Arguments Z.of_nat _ : simpl nomatch.
#[local] Arguments Z.to_nat _ : simpl nomatch.
#[local] Arguments le_bytes _ _ : simpl never.
#[local] Arguments BytesIO_write _ _ : simpl never.

Lemma pack_L_ok (v : Z) : 0 <= v < 2 ^ 32 -> pack_L v = inr (le_bytes 4 v).
Proof.
  intros Hv. unfold pack_L.
  replace (0 <=? v) with true by (symmetry; apply Z.leb_le; lia).
  replace (v <? 2 ^ 32) with true by (symmetry; apply Z.ltb_lt; lia).
  reflexivity.
Qed.

Lemma pack_H_ok (v : Z) : 0 <= v < 2 ^ 16 -> pack_H v = inr (le_bytes 2 v).
Proof.
  intros Hv. unfold pack_H.
  replace (0 <=? v) with true by (symmetry; apply Z.leb_le; lia).
  replace (v <? 2 ^ 16) with true by (symmetry; apply Z.ltb_lt; lia).
  reflexivity.
Qed.

Lemma pack_header_ok (riff_len rate : Z) :
  0 <= riff_len < 2 ^ 32 -> 0 < rate < 2 ^ 31 ->
  pack_header riff_len 1 rate (1 * rate * 2) 2 16 =
  inr (le_bytes 4 riff_len ++ b_WAVE ++ b_fmt ++ le_bytes 4 16 ++ le_bytes 2 1 ++
       le_bytes 2 1 ++ le_bytes 4 rate ++ le_bytes 4 (1 * rate * 2) ++ le_bytes 2 2 ++
       le_bytes 2 16 ++ b_data).
Proof.
  intros Hl Hr. unfold pack_header, WAVE_FORMAT_PCM.
  repeat (first [rewrite pack_L_ok by lia | rewrite pack_H_ok by lia]; cbn [bind]).
  reflexivity.
Qed.

Lemma samples_to_wav_eval (samples : list float) (rate : Z) (packed : bytes) :
  0 < rate < 2 ^ 31 ->
  pack_samples samples = inr packed ->
  blen packed = 2 * (blen packed / 2) ->
  36 + blen packed < 2 ^ 32 ->
  _samples_to_wav samples rate = inr (mono16_container rate packed).
Proof.
  intros Hr Hp Heven Hlen.
  pose proof (blen_nonneg packed) as Hnn.
  unfold _samples_to_wav, with_wave_write.
  unfold setnchannels, setsampwidth, setframerate, writeframes, writeframesraw,
    _ensure_header_written, Wave_write_initfp, ww_bind, ww_get, ww_put, ww_raise, ww_lift, ww_ret.
  cbn.
  replace (rate <=? 0) with false by (symmetry; apply Z.leb_gt; lia).
  cbn. rewrite Hp. cbn.
  replace (rate =? 0) with false by (symmetry; apply Z.eqb_neq; lia).
  cbn.
  replace (blen packed / 2 * 1 * 2) with (blen packed) by lia.
  rewrite pack_header_ok by lia. rewrite pack_L_ok by lia.
  cbn.
  rewrite !BytesIO_write_end by reflexivity.
  cbn.
  rewrite Z.eqb_refl. cbn.
  unfold Wave_write_close, _ensure_header_written, ww_bind, ww_get, ww_ret. cbn.
  rewrite Z.eqb_refl. cbn.
  f_equal. unfold mono16_container.
  replace (1 * rate * 2) with (2 * rate) by lia.
  cbn. rewrite <- !app_assoc. reflexivity.
Qed.
End EncoderRun.

(** ** Reading a canonical container back *)

Lemma BytesIO_read_exact (buf : bytes) (pos size : Z) :
  0 <= size -> 0 <= pos -> pos + size <= blen buf ->
  BytesIO_read size (mkBytesIO buf pos) =
  (bslice buf pos (pos + size), mkBytesIO buf (pos + size)).
Proof.
  intros Hs Hp Hle. unfold BytesIO_read. cbn [bio_buf bio_pos].
  destruct (Z.ltb_spec size 0) as [? | _]; [lia |].
  replace (Z.min size (Z.max 0 (blen buf - pos))) with size by lia.
  reflexivity.
Qed.

Lemma chunk_read_exact {F : Type} `{FileLike F} (c : _Chunk F) (size : Z)
      (d : bytes) (f1 : F) :
  0 < size <= chunksize c - size_read c -> Z.odd (chunksize c) = false ->
  f_read size (file c) = (d, f1) -> blen d = size ->
  _Chunk_read size c =
  (d, mk_Chunk f1 (chunkname c) (chunksize c) (size_read c + size) (offset c)).
Proof.
  intros Hs Hodd Hrd Hd. unfold _Chunk_read.
  destruct (Z.leb_spec (chunksize c) (size_read c)) as [? | _]; [lia |].
  destruct (Z.ltb_spec size 0) as [? | _]; [lia |].
  destruct (Z.ltb_spec (chunksize c - size_read c) size) as [? | _]; [lia |].
  rewrite Hrd, Hodd, andb_false_r, Hd. reflexivity.
Qed.

Section CanonicalReader.
Variables (wav data : bytes) (rate L : Z).
Hypothesis Hlen : blen wav = 44 + L.
Hypothesis HL : 0 <= L.
Hypothesis Heven : Z.odd L = false.
Hypothesis S_riff : bslice wav 0 4 = b_RIFF.
Hypothesis S_rlen : le_unsigned (firstn 4 (bslice wav 4 8)) = 36 + L.
Hypothesis S_wave : bslice wav 8 12 = b_WAVE.
Hypothesis S_fmt : bslice wav 12 16 = b_fmt.
Hypothesis S_flen : le_unsigned (firstn 4 (bslice wav 16 20)) = 16.
Hypothesis S_hdr : unpack_from_HHLLH (bslice wav 20 34) = inr (1, 1, rate, 2 * rate, 2).
Hypothesis S_bits : unpack_from_H (bslice wav 34 36) = inr 16.
Hypothesis S_data : bslice wav 36 40 = b_data.
Hypothesis S_dlen : le_unsigned (firstn 4 (bslice wav 40 44)) = L.
Hypothesis S_body : bslice wav 44 (44 + L) = data.

Local Abbreviation riff := (riff_at wav L).

Lemma odd_riff_size : Z.odd (36 + L) = false.
Proof using Heven. rewrite Z.odd_add, Heven. reflexivity. Qed.

Lemma slice_length (p n : Z) : 0 <= p -> 0 <= n -> p + n <= 44 + L ->
  blen (bslice wav p (p + n)) = n.
Proof using Hlen. intros. apply bslice_length; lia. Qed.

Lemma riff_read (sr size : Z) :
  0 <= sr -> 0 < size -> sr + size <= 36 + L ->
  _Chunk_read size (riff sr) = (bslice wav (8 + sr) (8 + sr + size), riff (sr + size)).
Proof using Hlen HL Heven.
  intros Hsr Hs Hle.
  rewrite (chunk_read_exact (riff sr) size (bslice wav (8 + sr) (8 + sr + size))
             (mkBytesIO wav (8 + sr + size))).
  - unfold riff_at. cbn [chunkname chunksize size_read offset]. do 2 f_equal. f_equal. lia.
  - unfold riff_at. cbn [chunksize size_read]. lia.
  - apply odd_riff_size.
  - unfold riff_at. cbn [file f_read BytesIO_FileLike]. apply BytesIO_read_exact; lia.
  - apply slice_length; lia.
Qed.

Lemma inner_read (sr size cs csr off : Z) (name : bytes) :
  0 <= sr -> 0 < size -> sr + size <= 36 + L ->
  size <= cs - csr -> Z.odd cs = false ->
  _Chunk_read size (mk_Chunk (riff sr) name cs csr off) =
  (bslice wav (8 + sr) (8 + sr + size), mk_Chunk (riff (sr + size)) name cs (csr + size) off).
Proof using Hlen HL Heven.
  intros Hsr Hs Hle Hcs Hodd.
  rewrite (chunk_read_exact _ size (bslice wav (8 + sr) (8 + sr + size)) (riff (sr + size))).
  - reflexivity.
  - cbn [chunksize size_read]. lia.
  - exact Hodd.
  - cbn [file f_read _Chunk_FileLike]. apply riff_read; lia.
  - apply slice_length; lia.
Qed.

Lemma riff_init : _Chunk_init (mkBytesIO wav 0) = inr (riff 0).
Proof using Hlen HL S_rlen S_riff.
  unfold _Chunk_init. cbn [f_read BytesIO_FileLike].
  rewrite (BytesIO_read_exact wav 0 4) by lia.
  rewrite (slice_length 0 4) by lia. cbn [Z.ltb Z.compare Pos.compare Pos.compare_cont].
  rewrite (BytesIO_read_exact wav (0 + 4) 4) by lia.
  unfold unpack_from_L. rewrite (slice_length (0 + 4) 4) by lia.
  cbn [Z.ltb Z.compare Pos.compare Pos.compare_cont].
  change (0 + 4) with 4. change (4 + 4) with 8. rewrite S_rlen, S_riff. reflexivity.
Qed.

Lemma inner_init (sr : Z) (name : bytes) (size : Z) :
  0 <= sr -> sr + 8 <= 36 + L ->
  bslice wav (8 + sr) (8 + sr + 4) = name ->
  le_unsigned (firstn 4 (bslice wav (8 + (sr + 4)) (8 + (sr + 4) + 4))) = size ->
  _Chunk_init (riff sr) = inr (mk_Chunk (riff (sr + 4 + 4)) name size 0 (sr + 4 + 4)).
Proof using Hlen HL Heven.
  intros Hsr Hle Hname Hsize. unfold _Chunk_init. cbn [f_read _Chunk_FileLike].
  rewrite (riff_read sr 4) by lia. rewrite Hname.
  assert (Hn : blen name = 4) by (rewrite <- Hname; apply slice_length; lia).
  rewrite Hn. cbn [Z.ltb Z.compare Pos.compare Pos.compare_cont].
  rewrite (riff_read (sr + 4) 4) by lia.
  unfold unpack_from_L. rewrite (slice_length (8 + (sr + 4)) 4) by lia.
  cbn [Z.ltb Z.compare Pos.compare Pos.compare_cont].
  rewrite Hsize. reflexivity.
Qed.

Lemma canonical_open :
  0 <= rate ->
  wave_open_rb wav =
  inr (mkWave_read 1 2 rate (L / 2) 2 (mk_Chunk (riff 36) b_data L 0 36)).
Proof using Hlen HL Heven S_riff S_rlen S_wave S_fmt S_flen S_hdr S_bits S_data S_dlen.
  intros Hrate. unfold wave_open_rb, initfp.
  rewrite riff_init. cbn [bind]. unfold riff_at at 1. cbn [chunkname].
  change (bytes_eqb b_RIFF b_RIFF) with true. cbn [negb].
  change (mk_Chunk (mkBytesIO wav 8) b_RIFF (36 + L) 0 8) with (riff 0).
  rewrite (riff_read 0 4) by lia.
  change (8 + 0) with 8. change (8 + 4) with 12. rewrite S_wave.
  change (bytes_eqb b_WAVE b_WAVE) with true. cbn [negb bio_buf].
  assert (Hfuel : exists k, length wav = S (S k)).
  { unfold blen in Hlen. exists (length wav - 2)%nat. lia. }
  destruct Hfuel as [k ->].
  cbn [initfp_loop].
  rewrite (inner_init (0 + 4) b_fmt 16) by (assumption || lia).
  cbn [chunkname]. change (bytes_eqb b_fmt b_fmt) with true. cbv iota.
  unfold _read_fmt_chunk.
  rewrite (inner_read (0 + 4 + 4 + 4) 14) by (reflexivity || lia).
  change (8 + (0 + 4 + 4 + 4)) with 20. change (20 + 14) with 34.
  rewrite S_hdr. unfold WAVE_FORMAT_PCM. change (1 =? 1) with true. cbv iota.
  rewrite (inner_read (0 + 4 + 4 + 4 + 14) 2) by (reflexivity || lia).
  change (8 + (0 + 4 + 4 + 4 + 14)) with 34. change (34 + 2) with 36.
  rewrite S_bits.
  change ((16 + 7) / 8) with 2. change (2 =? 0) with false. change (1 =? 0) with false.
  cbv iota. cbn [bind ret]. cbv iota beta.
  unfold _Chunk_skip. cbn [chunksize size_read Z.odd file f_seek _Chunk_FileLike].
  change (0 + 14 + 2) with 16. change (16 - 16) with 0.
  unfold _Chunk_seek. change (1 =? 1) with true. cbv iota.
  unfold riff_at at 1 2 3 4 5 6 7. cbn [chunksize size_read offset file chunkname].
  change (0 + 4 + 4 + 4 + 14 + 2) with 28. change (0 + 28) with 28.
  replace (36 + L <? 28) with false by (symmetry; apply Z.ltb_ge; lia).
  change (28 <? 0) with false. cbn [orb f_seek BytesIO_FileLike].
  unfold BytesIO_seek. change (0 =? 0) with true. change (8 + 28 <? 0) with false.
  cbv iota. cbn [bind ret bio_buf file].
  match goal with |- context [_Chunk_init ?c] => change c with (riff 28) end.
  rewrite (inner_init 28 b_data L) by (assumption || lia).
  cbn [chunkname]. change (bytes_eqb b_data b_fmt) with false.
  change (bytes_eqb b_data b_data) with true. cbv iota.
  cbn [fmt_nchannels fmt_sampwidth fmt_framerate fmt_framesize chunksize ret].
  reflexivity.
Qed.

Lemma canonical_readframes :
  readframes (L / 2)
    (mkWave_read 1 2 rate (L / 2) 2 (mk_Chunk (riff 36) b_data L 0 36)) = data.
Proof using Hlen HL Heven S_body.
  assert (HL2 : L = 2 * (L / 2)).
  { assert (He : Z.even L = true) by (rewrite <- Z.negb_odd, Heven; reflexivity).
    apply Z.even_spec in He. destruct He as [m Hm]. rewrite Hm, (Z.mul_comm 2 m), Z.div_mul by lia. ring. }
  unfold readframes. cbn [_framesize _data_chunk].
  destruct (Z.eqb_spec (L / 2) 0) as [Hz | Hnz].
  - assert (H0 : L = 0) by lia. rewrite <- S_body, H0. reflexivity.
  - rewrite (inner_read 36 (L / 2 * 2)) by (try assumption; lia).
    cbn [fst]. rewrite <- S_body. f_equal. lia.
Qed.

End CanonicalReader.

Lemma byte_val_byte_of (z : Z) : byte_val (byte_of z) = z mod 256.
Proof.
  pose proof (Z.mod_pos_bound z 256 ltac:(lia)) as Hb.
  unfold byte_val, byte_of.
  destruct (Byte.of_N (Z.to_N (z mod 256))) as [b |] eqn:E.
  - apply Byte.to_of_N in E. rewrite E. apply Z2N.id. lia.
  - apply Byte.of_N_None_iff in E. lia.
Qed.

Lemma le_unsigned_le_bytes (n : nat) :
  forall v : Z, le_unsigned (le_bytes n v) = v mod 256 ^ Z.of_nat n.
Proof.
  induction n as [| n IH]; intros v; cbn [le_bytes le_unsigned].
  - change (256 ^ Z.of_nat 0) with 1. rewrite Z.mod_1_r. reflexivity.
  - rewrite byte_val_byte_of, IH, Nat2Z.inj_succ, Z.pow_succ_r by lia.
    symmetry. apply Z.rem_mul_r; lia.
Qed.

Lemma le_unsigned_le_bytes_small (n : nat) (v : Z) :
  0 <= v < 256 ^ Z.of_nat n -> le_unsigned (le_bytes n v) = v.
Proof. intros Hv. rewrite le_unsigned_le_bytes. apply Z.mod_small. exact Hv. Qed.

Lemma mono16_container_length (rate : Z) (data : bytes) :
  blen (mono16_container rate data) = 44 + blen data.
Proof.
  unfold mono16_container, blen. rewrite !length_app.
  change (length b_RIFF) with 4%nat. change (length b_WAVE) with 4%nat.
  change (length b_fmt) with 4%nat. change (length b_data) with 4%nat.
  cbn [length le_bytes]. lia.
Qed.

(** The reader accepts a canonical container and returns its fields and
    its data. *)
Lemma mono16_container_opens (rate : Z) (data : bytes) :
  0 <= rate -> 2 * rate < 2 ^ 32 -> Z.odd (blen data) = false ->
  36 + blen data < 2 ^ 32 ->
  exists wf, wave_open_rb (mono16_container rate data) = inr wf /\
    getnchannels wf = 1 /\ getsampwidth wf = 2 /\ getframerate wf = rate /\
    getnframes wf = blen data / 2 /\ readframes (getnframes wf) wf = data.
Proof.
  intros Hr Hr2 Hodd Hlen.
  pose proof (blen_nonneg data) as Hnn.
  set (wav := mono16_container rate data).
  assert (S_rlen : le_unsigned (firstn 4 (bslice wav 4 8)) = 36 + blen data).
  { change (firstn 4 (bslice wav 4 8)) with (le_bytes 4 (36 + blen data)).
    apply le_unsigned_le_bytes_small. change (256 ^ Z.of_nat 4) with (2 ^ 32). lia. }
  assert (S_flen : le_unsigned (firstn 4 (bslice wav 16 20)) = 16) by reflexivity.
  assert (S_hdr : unpack_from_HHLLH (bslice wav 20 34) = inr (1, 1, rate, 2 * rate, 2)).
  { unfold unpack_from_HHLLH.
    change (blen (bslice wav 20 34) <? 14) with false. cbv iota.
    change (bslice (bslice wav 20 34) 0 2) with (le_bytes 2 1).
    change (bslice (bslice wav 20 34) 2 4) with (le_bytes 2 1).
    change (bslice (bslice wav 20 34) 4 8) with (le_bytes 4 rate).
    change (bslice (bslice wav 20 34) 8 12) with (le_bytes 4 (2 * rate)).
    change (bslice (bslice wav 20 34) 12 14) with (le_bytes 2 2).
    rewrite !le_unsigned_le_bytes_small
      by (change (256 ^ Z.of_nat 4) with (2 ^ 32); change (256 ^ Z.of_nat 2) with (2 ^ 16); lia).
    reflexivity. }
  assert (S_dlen : le_unsigned (firstn 4 (bslice wav 40 44)) = blen data).
  { change (firstn 4 (bslice wav 40 44)) with (le_bytes 4 (blen data)).
    apply le_unsigned_le_bytes_small. change (256 ^ Z.of_nat 4) with (2 ^ 32). lia. }
  assert (S_body : bslice wav 44 (44 + blen data) = data).
  { unfold bslice. change (skipn (Z.to_nat 44) wav) with data.
    replace (44 + blen data - 44) with (blen data) by lia.
    unfold blen. rewrite Nat2Z.id. apply firstn_all. }
  pose proof (mono16_container_length rate data) as Hl. fold wav in Hl.
  eexists. split.
  - apply (canonical_open wav rate (blen data)); try assumption; reflexivity.
  - cbn [getnchannels getsampwidth getframerate getnframes].
    repeat split.
    apply (canonical_readframes wav data rate (blen data)); assumption.
Qed.

Lemma pack_h_ok (v : Z) : - 2 ^ 15 <= v < 2 ^ 15 -> pack_h v = inr (le_bytes 2 v).
Proof.
  intros Hv. unfold pack_h.
  replace (- 2 ^ 15 <=? v) with true by (symmetry; apply Z.leb_le; lia).
  replace (v <? 2 ^ 15) with true by (symmetry; apply Z.ltb_lt; lia).
  reflexivity.
Qed.

Lemma le_signed_le_bytes (v : Z) : - 2 ^ 15 <= v < 2 ^ 15 -> le_signed (le_bytes 2 v) = v.
Proof.
  intros Hv. unfold le_signed. rewrite le_unsigned_le_bytes.
  change (256 ^ Z.of_nat 2) with 65536. change (8 * blen (le_bytes 2 v)) with 16.
  change (0 <? 16) with true. change (2 ^ (16 - 1)) with 32768. change (2 ^ 16) with 65536.
  change (2 ^ 15) with 32768 in Hv. cbn [andb].
  destruct (Z.leb_spec 32768 (v mod 65536)) as [Hh | Hh];
    revert Hh; Z.to_euclidean_division_equations; lia.
Qed.

(** What [pack_samples] returns: it never raises, and the bytes are the
    16-bit encodings of the quantised samples in order. *)
Lemma pack_samples_from (samples : list float) :
  forall acc : bytes, exists vs,
    Forall2 quantised samples vs /\
    for_each (fun s packed => b <- pack_sample s ;; ret (packed ++ b)) samples acc =
    inr (acc ++ concat (map (le_bytes 2) vs)).
Proof.
  induction samples as [| s l IH]; intros acc.
  - exists []. split; [constructor |]. cbn [for_each map concat]. rewrite app_nil_r. reflexivity.
  - destruct (clamp_in_unit s) as [H1 H2].
    destruct (py_int_times_32767 (clamp s) H1 H2) as [v [Hv Hr]].
    destruct (IH (acc ++ le_bytes 2 v)) as [vs [Hvs Hrun]].
    exists (v :: vs). split; [constructor; [split; assumption | assumption] |].
    cbn [for_each]. unfold pack_sample. rewrite Hv. cbn [bind].
    rewrite pack_h_ok by lia. cbn [bind ret map concat].
    rewrite app_assoc. exact Hrun.
Qed.

Lemma pack_samples_total (samples : list float) :
  exists vs, Forall2 quantised samples vs /\
             pack_samples samples = inr (concat (map (le_bytes 2) vs)).
Proof. exact (pack_samples_from samples []). Qed.

Lemma Forall2_zlen {A B : Type} (R : A -> B -> Prop) (l : list A) (l' : list B) :
  Forall2 R l l' -> zlen l = zlen l'.
Proof. intros H. unfold zlen. f_equal. exact (Forall2_length H). Qed.

Lemma packed_length (vs : list Z) : blen (concat (map (le_bytes 2) vs)) = 2 * zlen vs.
Proof.
  unfold blen, zlen. induction vs as [| v vs IH]; [reflexivity |].
  cbn [map concat]. rewrite length_app. cbn [le_bytes length] in *. lia.
Qed.

Lemma unpack_h_seq_packed (vs : list Z) :
  Forall (fun v => - 2 ^ 15 <= v < 2 ^ 15) vs ->
  unpack_h_seq (concat (map (le_bytes 2) vs)) = vs.
Proof.
  induction 1 as [| v vs Hv _ IH]; [reflexivity |].
  cbn [map concat]. change (le_bytes 2 v) with [byte_of v; byte_of (v / 256)].
  cbn [app unpack_h_seq]. rewrite IH. f_equal.
  exact (le_signed_le_bytes v Hv).
Qed.

(** The whole encoder on a rate and a length that fit the 32-bit header
    fields. *)
Lemma samples_to_wav_spec (samples : list float) (rate : Z) :
  0 < rate < 2 ^ 31 -> 36 + 2 * zlen samples < 2 ^ 32 ->
  exists vs, Forall2 quantised samples vs /\
    _samples_to_wav samples rate = inr (mono16_container rate (concat (map (le_bytes 2) vs))).
Proof.
  intros Hr Hn. destruct (pack_samples_total samples) as [vs [Hvs Hp]].
  exists vs. split; [exact Hvs |].
  pose proof (packed_length vs) as Hl. pose proof (Forall2_zlen _ _ _ Hvs) as Hz.
  apply samples_to_wav_eval; try assumption.
  - rewrite Hl, (Z.mul_comm 2), Z.div_mul by lia. ring.
  - lia.
Qed.

Lemma odd_double (n : Z) : Z.odd (2 * n) = false.
Proof. rewrite Z.odd_mul. reflexivity. Qed.

Lemma C5_counterexample :
  _samples_to_wav [] 2147483648 = inl struct_error /\
  _samples_to_wav [0.5%float] 4294967296 = inl struct_error.
Proof. split; vm_compute; reflexivity. Qed.

(** C5 (amended): for every list of floats, every rate [0 < rate < 2^31]
    and a length whose data size fits the 32-bit header field, encoding
    returns a container that the reader opens as 1 channel, 2 bytes per
    sample, the given rate and one frame per sample, and whose data are,
    in order, the two little-endian bytes of [int(clamp(s) * 32767)],
    a value between [-32767] and [32767]. *)
Theorem C5_encode_container (samples : list float) (rate : Z) :
  0 < rate < 2 ^ 31 -> 36 + 2 * zlen samples < 2 ^ 32 ->
  exists (wav : bytes) (wf : Wave_read) (vs : list Z),
    _samples_to_wav samples rate = inr wav /\
    wave_open_rb wav = inr wf /\
    getnchannels wf = 1 /\ getsampwidth wf = 2 /\ getframerate wf = rate /\
    getnframes wf = zlen samples /\
    Forall2 (fun s v => py_int (clamp s * 32767)%float = inr v /\ -32767 <= v <= 32767)
            samples vs /\
    readframes (getnframes wf) wf = concat (map (le_bytes 2) vs) /\
    unpack_h (readframes (getnframes wf) wf) = inr vs.
Proof.
  intros Hr Hn.
  destruct (samples_to_wav_spec samples rate Hr Hn) as [vs [Hvs Henc]].
  pose proof (packed_length vs) as Hl. pose proof (Forall2_zlen _ _ _ Hvs) as Hz.
  destruct (mono16_container_opens rate (concat (map (le_bytes 2) vs)))
    as [wf [Hopen [Hc [Hw [Hf [Hnf Hrd]]]]]].
  - lia.
  - lia.
  - rewrite Hl. apply odd_double.
  - lia.
  - exists (mono16_container rate (concat (map (le_bytes 2) vs))), wf, vs.
    repeat (split; [assumption |]).
    split; [rewrite Hnf, Hl, (Z.mul_comm 2), Z.div_mul by lia; lia |].
    split; [exact Hvs |]. split; [exact Hrd |].
    rewrite Hrd. unfold unpack_h. rewrite Hl, (Z.mul_comm 2 (zlen vs)), Z.div_mul by lia.
    rewrite (Z.mul_comm (zlen vs)), Z.eqb_refl. unfold ret. f_equal.
    apply unpack_h_seq_packed.
    clear - Hvs. induction Hvs as [| s v l l' [_ Hv] _ IH]; constructor; [lia | exact IH].
Qed.

Lemma C5_encode_container_witness :
  exists (wav : bytes) (wf : Wave_read) (vs : list Z),
    _samples_to_wav [0.5; -2; 0.25]%float 22050 = inr wav /\
    wave_open_rb wav = inr wf /\
    getnchannels wf = 1 /\ getsampwidth wf = 2 /\ getframerate wf = 22050 /\
    getnframes wf = 3 /\
    Forall2 (fun s v => py_int (clamp s * 32767)%float = inr v /\ -32767 <= v <= 32767)
            [0.5; -2; 0.25]%float vs /\
    readframes (getnframes wf) wf = concat (map (le_bytes 2) vs) /\
    unpack_h (readframes (getnframes wf) wf) = inr vs.
Proof.
  apply (C5_encode_container [0.5; -2; 0.25]%float 22050); [lia | reflexivity].
Defined.

(** ** Encoding, then decoding *)

Lemma all_from_spec (p : Z -> bool) (n : nat) :
  forall k i : Z, all_from n k p = true -> k <= i < k + Z.of_nat n -> p i = true.
Proof.
  induction n as [| n IH]; intros k i Hall Hi; [lia |].
  cbn [all_from] in Hall. apply andb_true_iff in Hall. destruct Hall as [Hk Hrest].
  destruct (Z.eq_dec i k) as [-> | Hne]; [exact Hk |].
  apply (IH (k + 1)); [exact Hrest | lia].
Qed.

Lemma round_trip_all : all_from (Z.to_nat 65537) (-32768) round_trip_ok = true.
Proof. vm_compute. reflexivity. Qed.

Lemma round_trip_sample (s : float) (v : Z) :
  representable16 s -> quantised s v -> within_step s (normalize v) = true.
Proof.
  intros [k [Hk ->]] [Hv _].
  pose proof (all_from_spec _ _ _ k round_trip_all ltac:(lia)) as Hall.
  unfold round_trip_ok in Hall. rewrite Hv in Hall.
  apply andb_true_iff in Hall. exact (proj1 Hall).
Qed.

Lemma quantised_int16 (samples : list float) (vs : list Z) :
  Forall2 quantised samples vs -> Forall (fun v => - 2 ^ 15 <= v < 2 ^ 15) vs.
Proof. induction 1 as [| s v l l' [_ Hv] _ IH]; constructor; [lia | exact IH]. Qed.

Lemma unpack_h_packed (vs : list Z) :
  Forall (fun v => - 2 ^ 15 <= v < 2 ^ 15) vs ->
  unpack_h (concat (map (le_bytes 2) vs)) = inr vs.
Proof.
  intros Hvs. unfold unpack_h.
  rewrite packed_length, (Z.mul_comm 2 (zlen vs)), Z.div_mul by lia.
  rewrite (Z.mul_comm (zlen vs)), Z.eqb_refl. unfold ret. f_equal.
  apply unpack_h_seq_packed. exact Hvs.
Qed.

(** Decoding what the encoder returns gives the quantised samples
    divided by 32768, at the same rate. *)
Lemma decode_encode (samples : list float) (rate : Z) :
  0 < rate < 2 ^ 31 -> 36 + 2 * zlen samples < 2 ^ 32 ->
  exists (wav : bytes) (vs : list Z),
    Forall2 quantised samples vs /\
    _samples_to_wav samples rate = inr wav /\
    _wav_to_samples wav = inr (map normalize vs, rate).
Proof.
  intros Hr Hn.
  destruct (samples_to_wav_spec samples rate Hr Hn) as [vs [Hvs Henc]].
  pose proof (packed_length vs) as Hl. pose proof (Forall2_zlen _ _ _ Hvs) as Hz.
  destruct (mono16_container_opens rate (concat (map (le_bytes 2) vs)))
    as [wf [Hopen [Hc [Hw [Hf [Hnf Hrd]]]]]];
    [lia | lia | rewrite Hl; apply odd_double | lia |].
  exists (mono16_container rate (concat (map (le_bytes 2) vs))), vs.
  split; [exact Hvs |]. split; [exact Henc |].
  unfold _wav_to_samples. rewrite Hopen. cbn [bind]. rewrite Hrd, Hw, Hc, Hf.
  unfold extract_samples. change (2 =? 2) with true. cbv iota.
  rewrite (unpack_h_packed vs (quantised_int16 _ _ Hvs)). cbn [bind].
  change (1 =? 2) with false. reflexivity.
Qed.

Lemma C8_counterexample :
  Forall representable16 [-1; 0; 0.5]%float /\ 0 < 2147483648 /\
  _samples_to_wav [-1; 0; 0.5]%float 2147483648 = inl struct_error.
Proof.
  split; [| split; [reflexivity | vm_compute; reflexivity]].
  repeat constructor.
  - exists (-32768). split; [lia | vm_compute; reflexivity].
  - exists 0. split; [lia | vm_compute; reflexivity].
  - exists 16384. split; [lia | vm_compute; reflexivity].
Qed.

(** C8 (amended): for every buffer of samples [k / 32768] with [k] an
    integer between [-32768] and [32768], every rate [0 < rate < 2^31]
    and a length that fits the 32-bit header fields, encoding succeeds,
    decoding the result succeeds with the same rate and as many samples,
    and each decoded sample is within [1 / 32768] of the original. *)
Theorem C8_round_trip (samples : list float) (rate : Z) :
  0 < rate < 2 ^ 31 -> 36 + 2 * zlen samples < 2 ^ 32 ->
  Forall representable16 samples ->
  exists (wav : bytes) (out : list float),
    _samples_to_wav samples rate = inr wav /\
    _wav_to_samples wav = inr (out, rate) /\
    Forall2 (fun s d => (abs (d - s) <=? 1 / 32768)%float = true) samples out.
Proof.
  intros Hr Hn Hrep.
  destruct (decode_encode samples rate Hr Hn) as [wav [vs [Hvs [Henc Hdec]]]].
  exists wav, (map normalize vs). split; [exact Henc |]. split; [exact Hdec |].
  clear Henc Hdec Hn. induction Hvs as [| s v l l' Hq _ IH]; cbn [map].
  - constructor.
  - inversion Hrep as [| ? ? Hs Hl]; subst. constructor.
    + exact (round_trip_sample s v Hs Hq).
    + apply IH. exact Hl.
Qed.

Lemma C8_round_trip_witness :
  exists (wav : bytes) (out : list float),
    _samples_to_wav [-1; 0; 0.5]%float 22050 = inr wav /\
    _wav_to_samples wav = inr (out, 22050) /\
    Forall2 (fun s d => (abs (d - s) <=? 1 / 32768)%float = true) [-1; 0; 0.5]%float out.
Proof.
  apply (C8_round_trip [-1; 0; 0.5]%float 22050); [lia | reflexivity |].
  repeat constructor.
  - exists (-32768). split; [lia | vm_compute; reflexivity].
  - exists 0. split; [lia | vm_compute; reflexivity].
  - exists 16384. split; [lia | vm_compute; reflexivity].
Defined.

(** * Further properties of the source *)

(** ** [_samples_to_wav]: when it raises, and what *)

Section EncoderErrors.
#[local] Arguments Z.add _ _ : simpl nomatch.
#[local] Arguments Z.mul _ _ : simpl nomatch.
#[local] Arguments Z.sub _ _ : simpl nomatch.
#[local] Arguments Z.div _ _ : simpl nomatch.
#[local] Arguments Z.pow _ _ : simpl never.
#[local] Arguments Z.leb _ _ : simpl nomatch.
#[local] Arguments Z.ltb _ _ : simpl nomatch.
#[local] Arguments Z.eqb _ _ : simpl nomatch.
#[local] Arguments Z.of_nat _ : simpl nomatch.
#[local] Arguments Z.to_nat _ : simpl nomatch.
#[local] Arguments le_bytes _ _ : simpl never.
#[local] Arguments BytesIO_write _ _ : simpl never.
#[local] Arguments pack_header _ _ _ _ _ _ : simpl never.

Lemma pack_L_overflow (v : Z) : 2 ^ 32 <= v -> pack_L v = inl struct_error.
Proof.
  intros Hv. unfold pack_L.
  replace (v <? 2 ^ 32) with false by (symmetry; apply Z.ltb_ge; lia).
  rewrite andb_false_r. reflexivity.
Qed.

Lemma pack_header_overflow (riff_len rate : Z) :
  0 <= riff_len -> 0 < rate -> 2 ^ 32 <= riff_len \/ 2 ^ 31 <= rate ->
  pack_header riff_len 1 rate (1 * rate * 2) 2 16 = inl struct_error.
Proof.
  intros Hl Hr Hbig. unfold pack_header, WAVE_FORMAT_PCM.
  destruct (Z.le_gt_cases (2 ^ 32) riff_len) as [Hriff | Hriff].
  { rewrite (pack_L_overflow riff_len Hriff). reflexivity. }
  destruct Hbig as [? | Hrate]; [lia |].
  rewrite (pack_L_ok riff_len) by lia. cbn [bind].
  rewrite (pack_L_ok 16) by lia. cbn [bind].
  rewrite !(pack_H_ok 1) by lia. cbn [bind].
  destruct (Z.le_gt_cases (2 ^ 32) rate) as [Hr32 | Hr32].
  { rewrite (pack_L_overflow rate Hr32). reflexivity. }
  rewrite (pack_L_ok rate) by lia. cbn [bind].
  rewrite (pack_L_overflow (1 * rate * 2)) by lia. reflexivity.
Qed.

(** A rate that is not positive: [setframerate] raises in the body, and
    [close] then raises on the rate that was never set. *)
Lemma samples_to_wav_bad_rate (samples : list float) (rate : Z) :
  rate <= 0 ->
  _samples_to_wav samples rate = inl (wave_Error "sampling rate not specified").
Proof.
  intros Hr. unfold _samples_to_wav, with_wave_write.
  unfold setnchannels, setsampwidth, setframerate, Wave_write_close,
    _ensure_header_written, Wave_write_initfp, ww_bind, ww_get, ww_put, ww_raise, ww_lift, ww_ret.
  cbn.
  replace (rate <=? 0) with true by (symmetry; apply Z.leb_le; lia).
  cbn. reflexivity.
Qed.

(** A header field that does not fit its 32 bits: [struct.pack] raises
    in [writeframes], and again in [close]. *)
Lemma samples_to_wav_overflow (samples : list float) (rate : Z) (packed : bytes) :
  0 < rate ->
  pack_samples samples = inr packed ->
  blen packed = 2 * (blen packed / 2) ->
  2 ^ 31 <= rate \/ 2 ^ 32 <= 36 + blen packed ->
  _samples_to_wav samples rate = inl struct_error.
Proof.
  intros Hr Hp Heven Hbig.
  pose proof (blen_nonneg packed) as Hnn.
  unfold _samples_to_wav, with_wave_write.
  unfold setnchannels, setsampwidth, setframerate, writeframes, writeframesraw,
    _ensure_header_written, Wave_write_initfp, ww_bind, ww_get, ww_put, ww_raise, ww_lift, ww_ret.
  cbn.
  replace (rate <=? 0) with false by (symmetry; apply Z.leb_gt; lia).
  cbn. rewrite Hp. cbn.
  replace (rate =? 0) with false by (symmetry; apply Z.eqb_neq; lia).
  cbn.
  replace (blen packed / 2 * 1 * 2) with (blen packed) by lia.
  rewrite (pack_header_overflow (36 + blen packed) rate) by lia.
  cbn.
  unfold Wave_write_close, _ensure_header_written, ww_bind, ww_get, ww_ret, ww_raise. cbn.
  replace (rate =? 0) with false by (symmetry; apply Z.eqb_neq; lia).
  cbn.
  replace (if blen packed / 2 =? 0 then 0 else blen packed / 2) with (blen packed / 2)
    by (destruct (Z.eqb_spec (blen packed / 2) 0); lia).
  replace (blen packed / 2 * 1 * 2) with (blen packed) by lia.
  rewrite (pack_header_overflow (36 + blen packed) rate) by lia.
  cbn. reflexivity.
Qed.
End EncoderErrors.

(** Every outcome of the encoder. *)
Lemma samples_to_wav_outcome (samples : list float) (rate : Z) :
  exists vs, Forall2 quantised samples vs /\
    _samples_to_wav samples rate =
    if rate <=? 0 then inl (wave_Error "sampling rate not specified")
    else if (rate <? 2 ^ 31) && (36 + 2 * zlen samples <? 2 ^ 32)
         then inr (mono16_container rate (concat (map (le_bytes 2) vs)))
         else inl struct_error.
Proof.
  destruct (pack_samples_total samples) as [vs [Hvs Hp]].
  exists vs. split; [exact Hvs |].
  pose proof (packed_length vs) as Hl. pose proof (Forall2_zlen _ _ _ Hvs) as Hz.
  assert (Heven : blen (concat (map (le_bytes 2) vs)) =
                  2 * (blen (concat (map (le_bytes 2) vs)) / 2)).
  { rewrite Hl, (Z.mul_comm 2), Z.div_mul by lia. ring. }
  destruct (Z.leb_spec rate 0) as [Hr | Hr].
  { apply samples_to_wav_bad_rate. exact Hr. }
  destruct (Z.ltb_spec rate (2 ^ 31)) as [Hr31 | Hr31]; cbn [andb].
  - destruct (Z.ltb_spec (36 + 2 * zlen samples) (2 ^ 32)) as [Hn | Hn].
    + apply samples_to_wav_eval; try assumption; lia.
    + apply (samples_to_wav_overflow samples rate _ Hr Hp Heven). right. lia.
  - apply (samples_to_wav_overflow samples rate _ Hr Hp Heven). left. exact Hr31.
Qed.

(** X1: the encoder returns a container exactly when the rate is
    positive and below [2^31] and the data size fits the 32-bit length
    field. *)
Theorem samples_to_wav_succeeds_iff (samples : list float) (rate : Z) :
  (exists wav, _samples_to_wav samples rate = inr wav) <->
  0 < rate < 2 ^ 31 /\ 36 + 2 * zlen samples < 2 ^ 32.
Proof.
  destruct (samples_to_wav_outcome samples rate) as [vs [Hvs Hout]].
  rewrite Hout. clear Hout.
  destruct (Z.leb_spec rate 0) as [Hr | Hr].
  { split; [intros [wav Hw]; discriminate | lia]. }
  destruct (Z.ltb_spec rate (2 ^ 31)) as [Hr31 | Hr31]; cbn [andb].
  - destruct (Z.ltb_spec (36 + 2 * zlen samples) (2 ^ 32)) as [Hn | Hn].
    + split; [lia | intros _; eexists; reflexivity].
    + split; [intros [wav Hw]; discriminate | lia].
  - split; [intros [wav Hw]; discriminate | lia].
Qed.

(** X2: a rate that is zero or negative makes the encoder raise
    [wave.Error], whatever the samples; a rate of [2^31] or more makes
    it raise [struct.error]. *)
Theorem samples_to_wav_rate_errors (samples : list float) (rate : Z) :
  (rate <= 0 ->
   _samples_to_wav samples rate = inl (wave_Error "sampling rate not specified")) /\
  (2 ^ 31 <= rate -> _samples_to_wav samples rate = inl struct_error).
Proof.
  destruct (samples_to_wav_outcome samples rate) as [vs [_ Hout]].
  split; intros Hr; rewrite Hout.
  - replace (rate <=? 0) with true by (symmetry; apply Z.leb_le; lia). reflexivity.
  - replace (rate <=? 0) with false by (symmetry; apply Z.leb_gt; lia).
    replace (rate <? 2 ^ 31) with false by (symmetry; apply Z.ltb_ge; lia).
    reflexivity.
Qed.

Lemma samples_to_wav_rate_errors_witness :
  _samples_to_wav [0.5%float] 0 = inl (wave_Error "sampling rate not specified") /\
  _samples_to_wav [0.5%float] (2 ^ 31) = inl struct_error.
Proof.
  split.
  - apply (proj1 (samples_to_wav_rate_errors [0.5%float] 0)). lia.
  - apply (proj2 (samples_to_wav_rate_errors [0.5%float] (2 ^ 31))). lia.
Defined.

(** X3: the output of the encoder has 44 header bytes and two bytes per
    sample. *)
Theorem samples_to_wav_length (samples : list float) (rate : Z) (wav : bytes) :
  _samples_to_wav samples rate = inr wav -> blen wav = 44 + 2 * zlen samples.
Proof.
  intros Hw. destruct (samples_to_wav_outcome samples rate) as [vs [Hvs Hout]].
  rewrite Hout in Hw.
  destruct (rate <=? 0); [discriminate |].
  destruct ((rate <? 2 ^ 31) && (36 + 2 * zlen samples <? 2 ^ 32)); [| discriminate].
  injection Hw as <-.
  rewrite mono16_container_length, packed_length, (Forall2_zlen _ _ _ Hvs). reflexivity.
Qed.

Lemma samples_to_wav_length_witness :
  exists wav, _samples_to_wav [0.5; -2; 0.25]%float 22050 = inr wav /\ blen wav = 50.
Proof.
  eexists. split; [vm_compute; reflexivity |].
  apply (samples_to_wav_length [0.5; -2; 0.25]%float 22050). vm_compute. reflexivity.
Defined.

(** ** [base64]: decoding an encoding *)

Lemma byte_val_bounds (x : byte) : 0 <= byte_val x < 256.
Proof. unfold byte_val. pose proof (Byte.to_N_bounded x). lia. Qed.

Lemma byte_of_byte_val (x : byte) : byte_of (byte_val x) = x.
Proof.
  unfold byte_of. rewrite Z.mod_small by apply byte_val_bounds.
  unfold byte_val. rewrite N2Z.id, Byte.of_to_N. reflexivity.
Qed.

Lemma b64_chars_ok : all_from 64 0 b64_char_ok = true.
Proof. vm_compute. reflexivity. Qed.

Lemma b64_index_char (i : Z) : 0 <= i < 64 -> b64_index (b64_char i) = Some i.
Proof.
  intros Hi. pose proof (all_from_spec _ _ _ i b64_chars_ok ltac:(lia)) as Hok.
  unfold b64_char_ok in Hok. destruct (b64_index (b64_char i)) as [j |]; [| discriminate].
  apply andb_true_iff in Hok. destruct Hok as [Hj _]. apply Z.eqb_eq in Hj.
  subst j. reflexivity.
Qed.

Lemma b64_char_not_pad (i : Z) : 0 <= i < 64 -> Byte.eqb (b64_char i) b64_pad = false.
Proof.
  intros Hi. pose proof (all_from_spec _ _ _ i b64_chars_ok ltac:(lia)) as Hok.
  unfold b64_char_ok in Hok. destruct (b64_index (b64_char i)) as [j |]; [| discriminate].
  apply andb_true_iff in Hok. destruct Hok as [_ Hp]. apply negb_true_iff in Hp. exact Hp.
Qed.

Lemma b64_group_bounds (n m k : Z) :
  0 <= n < 256 -> 0 <= m < 256 -> 0 <= k < 256 ->
  0 <= n / 4 < 64 /\ 0 <= n mod 4 * 16 < 64 /\ 0 <= n mod 4 * 16 + m / 16 < 64 /\
  0 <= m mod 16 * 4 < 64 /\ 0 <= m mod 16 * 4 + k / 64 < 64 /\ 0 <= k mod 64 < 64.
Proof. intros Hn Hm Hk. Z.to_euclidean_division_equations. lia. Qed.

Lemma b64_group_values (n m k : Z) :
  0 <= n < 256 -> 0 <= m < 256 -> 0 <= k < 256 ->
  n / 4 * 4 + (n mod 4 * 16) / 16 = n /\
  n / 4 * 4 + (n mod 4 * 16 + m / 16) / 16 = n /\
  (n mod 4 * 16 + m / 16) mod 16 * 16 + (m mod 16 * 4) / 4 = m /\
  (n mod 4 * 16 + m / 16) mod 16 * 16 + (m mod 16 * 4 + k / 64) / 4 = m /\
  (m mod 16 * 4 + k / 64) mod 4 * 64 + k mod 64 = k.
Proof. intros Hn Hm Hk. Z.to_euclidean_division_equations. lia. Qed.

Lemma b64decode_b64encode_upto (len : nat) :
  forall b : bytes, (length b <= len)%nat -> b64decode (b64encode b) = Some b.
Proof.
  induction len as [| len IH]; intros b Hlen.
  { destruct b; [reflexivity | cbn in Hlen; lia]. }
  destruct b as [| x [| y [| z b']]]; [reflexivity | | |].
  - pose proof (byte_val_bounds x) as Hx.
    destruct (b64_group_bounds _ 0 0 Hx ltac:(lia) ltac:(lia)) as [B1 [B2 _]].
    destruct (b64_group_values _ 0 0 Hx ltac:(lia) ltac:(lia)) as [V1 _].
    cbn [b64encode b64decode]. cbv zeta.
    rewrite (b64_index_char _ B1), (b64_index_char _ B2), V1, byte_of_byte_val.
    reflexivity.
  - pose proof (byte_val_bounds x) as Hx. pose proof (byte_val_bounds y) as Hy.
    destruct (b64_group_bounds _ _ 0 Hx Hy ltac:(lia)) as [B1 [_ [B2 [B3 _]]]].
    destruct (b64_group_values _ _ 0 Hx Hy ltac:(lia)) as [_ [V1 [V2 _]]].
    cbn [b64encode b64decode]. cbv zeta.
    rewrite (b64_index_char _ B1), (b64_index_char _ B2), (b64_index_char _ B3).
    rewrite (b64_char_not_pad _ B3), V1, V2, !byte_of_byte_val.
    reflexivity.
  - pose proof (byte_val_bounds x) as Hx. pose proof (byte_val_bounds y) as Hy.
    pose proof (byte_val_bounds z) as Hz.
    destruct (b64_group_bounds _ _ _ Hx Hy Hz) as [B1 [_ [B2 [_ [B3 B4]]]]].
    destruct (b64_group_values _ _ _ Hx Hy Hz) as [_ [V1 [_ [V2 V3]]]].
    cbn [b64encode b64decode]. cbv zeta.
    rewrite (b64_index_char _ B1), (b64_index_char _ B2), (b64_index_char _ B3),
      (b64_index_char _ B4).
    rewrite (b64_char_not_pad _ B3), (b64_char_not_pad _ B4).
    rewrite (IH b') by (cbn [length] in Hlen; lia).
    rewrite V1, V2, V3, !byte_of_byte_val. reflexivity.
Qed.

Lemma b64decode_b64encode (b : bytes) : b64decode (b64encode b) = Some b.
Proof. exact (b64decode_b64encode_upto (length b) b (Nat.le_refl _)). Qed.

(** ** The request pipeline *)

Lemma string_of_list_ascii_length (cs : list ascii) :
  String.length (string_of_list_ascii cs) = length cs.
Proof. induction cs as [| c cs IH]; [reflexivity | cbn; rewrite IH; reflexivity]. Qed.

Section Pipeline.
Context `{RandomSource} `{Libm} `{SpeechEngine}.

(** X4: for a length that is not negative, [generate_text] returns
    exactly that many characters, all of them ASCII digits. *)
Theorem generate_text_digits (n : Z) (g : rng) :
  0 <= n ->
  Z.of_nat (String.length (fst (generate_text n g))) = n /\
  Forall (fun c => is_ascii_digit c = true)
         (list_ascii_of_string (fst (generate_text n g))).
Proof.
  intros Hn. unfold generate_text.
  assert (Hpop : list_ascii_of_string characters <> []) by discriminate.
  pose proof (choices_length (list_ascii_of_string characters) n g Hpop Hn) as Hlen.
  pose proof (choices_in (list_ascii_of_string characters) n g) as Hin.
  destruct (random_choices (list_ascii_of_string characters) n g) as [cs g'].
  cbn [fst] in *. split.
  - rewrite string_of_list_ascii_length. exact Hlen.
  - rewrite list_ascii_of_string_of_list_ascii. apply Forall_forall. intros c Hc.
    specialize (Hin c Hpop Hc). cbn in Hin.
    repeat (destruct Hin as [<- | Hin]; [reflexivity |]). contradiction.
Qed.

(** The one call of the engine that [_generate_speech_wav] makes. *)
Lemma speech_wav_outcome (spoken_text : string) (g : rng) :
  exists (rate : Z) (voice : option string) (g' : rng),
    _generate_speech_wav spoken_text g =
    match save_to_file spoken_text rate 0.9 voice with
    | inl e => inl e
    | inr wav_bytes => inr (wav_bytes, g')
    end.
Proof.
  unfold _generate_speech_wav.
  destruct (random_randint 120 160 g) as [rate g1].
  destruct (1 <? zlen voices).
  - destruct (random_choice_index (zlen voices) g1) as [i g2].
    exists rate, (Some (znth EmptyString voices i)), g2. unfold bind, ret. reflexivity.
  - exists rate, None, g1. unfold bind, ret. reflexivity.
Qed.

(** X5: [_generate_speech_wav] calls the engine once, with the phrase it
    was given, a speech rate between 120 and 160, volume 0.9 and either
    one of the engine's voices, when the engine has more than one, or no
    voice; it returns what the engine saved, or raises what it raised. *)
Theorem generate_speech_wav_call (spoken_text : string) (g : rng) :
  exists (rate : Z) (voice : option string) (g' : rng),
    120 <= rate <= 160 /\
    match voice with
    | Some v => 1 < zlen voices /\ In v voices
    | None => zlen voices <= 1
    end /\
    _generate_speech_wav spoken_text g =
    match save_to_file spoken_text rate 0.9 voice with
    | inl e => inl e
    | inr wav_bytes => inr (wav_bytes, g')
    end.
Proof.
  unfold _generate_speech_wav.
  pose proof (randint_range 120 160 g ltac:(lia)) as Hrate.
  destruct (random_randint 120 160 g) as [rate g1]. cbn [fst] in Hrate.
  destruct (Z.ltb_spec 1 (zlen voices)) as [Hv | Hv].
  - pose proof (choice_index_range (zlen voices) g1 (Z.lt_trans 0 1 _ eq_refl Hv)) as Hi.
    destruct (random_choice_index (zlen voices) g1) as [i g2]. cbn [fst] in Hi.
    exists rate, (Some (znth EmptyString voices i)), g2.
    split; [exact Hrate |]. split.
    + split; [exact Hv |]. unfold znth. apply nth_In. unfold zlen in Hi. lia.
    + unfold bind, ret. reflexivity.
  - exists rate, None, g1. split; [exact Hrate |]. split; [exact Hv |].
    unfold bind, ret. reflexivity.
Qed.

(** What [generate_audio] returns is what [_samples_to_wav] returned at
    the target rate. *)
Lemma generate_audio_inversion (txt : string) (g g' : rng) (wav : bytes) :
  generate_audio txt g = inr (wav, g') ->
  exists samples, _samples_to_wav samples target_rate = inr wav.
Proof.
  unfold generate_audio. intros Hg.
  destruct (_generate_speech_wav _ g) as [e | [wav0 g1]]; [discriminate |].
  cbn [bind] in Hg.
  destruct (_wav_to_samples wav0) as [e | [s0 r0]]; [discriminate |].
  cbn [bind] in Hg.
  destruct (if negb (r0 =? target_rate) then _resample s0 r0 target_rate else ret s0)
    as [e | s1]; [discriminate |].
  cbn [bind] in Hg.
  destruct (_add_noise s1 target_rate g1) as [e | [s2 g2]]; [discriminate |].
  cbn [bind] in Hg.
  destruct (_samples_to_wav s2 target_rate) as [e | w] eqn:Hw; [discriminate |].
  cbn [bind ret] in Hg. injection Hg as <- <-. exists s2. exact Hw.
Qed.

(** X6: whenever [generate] returns, the text is the one [generate_text]
    drew, and the audio is the literal prefix followed by the base64
    text of a container that decodes back from it and that the reader
    opens as 1 channel, 2 bytes per sample, 22050 Hz. *)
Theorem generate_result (n : Z) (g g' : rng) (res : CaptchaAudioResult) :
  generate n g = inr (res, g') ->
  text res = fst (generate_text n g) /\
  exists (wav : bytes) (wf : Wave_read),
    audio res = (data_uri_prefix ++ string_of_list_byte (b64encode wav))%string /\
    b64decode (list_byte_of_string (string_of_list_byte (b64encode wav))) = Some wav /\
    wave_open_rb wav = inr wf /\
    getnchannels wf = 1 /\ getsampwidth wf = 2 /\ getframerate wf = 22050.
Proof.
  unfold generate. destruct (generate_text n g) as [txt g1]. cbn [fst].
  destruct (generate_audio txt g1) as [e | [wav g2]] eqn:Ha; [discriminate |].
  cbn [bind ret]. intros Hres. injection Hres as <- <-. cbn [text audio].
  split; [reflexivity |].
  destruct (generate_audio_inversion _ _ _ _ Ha) as [samples Hw].
  destruct (samples_to_wav_outcome samples target_rate) as [vs [Hvs Hout]].
  rewrite Hw in Hout. unfold target_rate in Hout.
  change (22050 <=? 0) with false in Hout. change (22050 <? 2 ^ 31) with true in Hout.
  cbv iota in Hout. cbn [andb] in Hout.
  destruct (Z.ltb_spec (36 + 2 * zlen samples) (2 ^ 32)) as [Hn | Hn]; [| discriminate].
  injection Hout as ->.
  pose proof (packed_length vs) as Hl. pose proof (Forall2_zlen _ _ _ Hvs) as Hz.
  destruct (mono16_container_opens 22050 (concat (map (le_bytes 2) vs)))
    as [wf [Hopen [Hc [Hsw [Hf _]]]]];
    [lia | reflexivity | rewrite Hl; apply odd_double | lia |].
  exists (mono16_container 22050 (concat (map (le_bytes 2) vs))), wf.
  split; [reflexivity |]. split.
  - rewrite list_byte_of_string_of_list_byte. apply b64decode_b64encode.
  - repeat split; assumption.
Qed.

(** X7: when the engine saves a container that decodes at the target
    rate, nothing is resampled and [generate] returns: the clip has one
    frame per decoded sample. *)
Theorem generate_succeeds (n : Z) (g : rng) (wav0 : bytes) (samples : list float) :
  (forall t r v vo, save_to_file t r v vo = inr wav0) ->
  _wav_to_samples wav0 = inr (samples, target_rate) ->
  36 + 2 * zlen samples < 2 ^ 32 ->
  exists (res : CaptchaAudioResult) (g' : rng) (wav : bytes) (wf : Wave_read),
    generate n g = inr (res, g') /\
    audio res = (data_uri_prefix ++ string_of_list_byte (b64encode wav))%string /\
    wave_open_rb wav = inr wf /\ getnframes wf = zlen samples.
Proof.
  intros Heng Hdec Hlen. unfold generate.
  destruct (generate_text n g) as [txt g1].
  unfold generate_audio.
  destruct (speech_wav_outcome
              (str_join " .... "
                 (map (fun char => dict_get CHAR_TO_WORD char (String char EmptyString))
                      (list_ascii_of_string txt))) g1)
    as [rate [voice [g2 Hcall]]].
  rewrite Hcall, Heng. cbn [bind]. rewrite Hdec. cbn [bind].
  rewrite Z.eqb_refl. cbn [negb bind ret].
  destruct (add_noise_length samples target_rate g2 ltac:(discriminate))
    as [s2 [g3 [Hnoise Hs2]]].
  rewrite Hnoise. cbn [bind].
  destruct (samples_to_wav_spec s2 target_rate ltac:(unfold target_rate; lia)
              ltac:(lia)) as [vs [Hvs Henc]].
  rewrite Henc. cbn [bind].
  pose proof (packed_length vs) as Hl. pose proof (Forall2_zlen _ _ _ Hvs) as Hz.
  destruct (mono16_container_opens target_rate (concat (map (le_bytes 2) vs)))
    as [wf [Hopen [_ [_ [_ [Hnf _]]]]]];
    [discriminate | reflexivity | rewrite Hl; apply odd_double | lia |].
  eexists _, g3, _, wf. split; [reflexivity |]. cbn [audio].
  split; [reflexivity |]. split; [exact Hopen |].
  rewrite Hnf, Hl, (Z.mul_comm 2), Z.div_mul by lia. lia.
Qed.

(** X8: an exception of the engine, and a saved file shorter than the
    44 bytes of a container header, both make [generate] raise: no
    partial result is returned. *)
Theorem generate_propagates_failure (n : Z) (g : rng) :
  (forall e, (forall t r v vo, save_to_file t r v vo = inl e) -> generate n g = inl e) /\
  (forall wav0, (forall t r v vo, save_to_file t r v vo = inr wav0) -> blen wav0 < 44 ->
                exists e, generate n g = inl e).
Proof.
  split.
  - intros e Heng. unfold generate. destruct (generate_text n g) as [txt g1].
    unfold generate_audio.
    destruct (speech_wav_outcome
                (str_join " .... "
                   (map (fun char => dict_get CHAR_TO_WORD char (String char EmptyString))
                        (list_ascii_of_string txt))) g1)
      as [rate [voice [g2 Hcall]]].
    rewrite Hcall, Heng. reflexivity.
  - intros wav0 Heng Hshort. unfold generate. destruct (generate_text n g) as [txt g1].
    unfold generate_audio.
    destruct (speech_wav_outcome
                (str_join " .... "
                   (map (fun char => dict_get CHAR_TO_WORD char (String char EmptyString))
                        (list_ascii_of_string txt))) g1)
      as [rate [voice [g2 Hcall]]].
    rewrite Hcall, Heng. cbn [bind].
    destruct (truncated_header_rejected wav0 Hshort) as [e He].
    rewrite He. exists e. reflexivity.
Qed.

End Pipeline.

Lemma generate_text_digits_witness :
  Z.of_nat (String.length (fst (@generate_text counter_random 5 0))) = 5 /\
  Forall (fun c => is_ascii_digit c = true)
         (list_ascii_of_string (fst (@generate_text counter_random 5 0))).
Proof. apply (@generate_text_digits counter_random 5 0). lia. Defined.

Lemma generate_result_witness :
  exists res g',
    @generate counter_random taylor_libm fixed_engine 5 0 = inr (res, g') /\
    text res = "01234"%string /\
    exists (wav : bytes) (wf : Wave_read),
      audio res = (data_uri_prefix ++ string_of_list_byte (b64encode wav))%string /\
      b64decode (list_byte_of_string (string_of_list_byte (b64encode wav))) = Some wav /\
      wave_open_rb wav = inr wf /\
      getnchannels wf = 1 /\ getsampwidth wf = 2 /\ getframerate wf = 22050.
Proof.
  destruct (@generate counter_random taylor_libm fixed_engine 5 0) as [e | [res g']] eqn:Hg;
    [vm_compute in Hg; discriminate Hg |].
  exists res, g'. split; [reflexivity |].
  destruct (@generate_result counter_random taylor_libm fixed_engine 5 0 g' res Hg)
    as [Ht Hrest].
  split; [rewrite Ht; vm_compute; reflexivity | exact Hrest].
Defined.

Lemma generate_succeeds_witness :
  exists (res : CaptchaAudioResult) (g' : Z) (wav : bytes) (wf : Wave_read),
    @generate counter_random taylor_libm fixed_engine 5 0 = inr (res, g') /\
    audio res = (data_uri_prefix ++ string_of_list_byte (b64encode wav))%string /\
    wave_open_rb wav = inr wf /\ getnframes wf = 3.
Proof.
  apply (@generate_succeeds counter_random taylor_libm fixed_engine 5 0 mono_wav
           [0; 0.5; -1]%float).
  - intros t r v vo. reflexivity.
  - vm_compute. reflexivity.
  - reflexivity.
Defined.

Lemma generate_propagates_failure_witness :
  @generate counter_random taylor_libm failing_engine 5 0 = inl RuntimeError.
Proof.
  apply (proj1 (@generate_propagates_failure counter_random taylor_libm failing_engine 5 0)).
  intros t r v vo. reflexivity.
Defined.

(** ** [_add_noise]: an empty buffer, and a zero rate *)

Lemma py_range_pos_cons (n : Z) : 0 < n -> exists l, py_range 0 n 1 = 0 :: l.
Proof.
  intros Hn. unfold py_range. replace (n - 0 + 1 - 1) with n by lia. rewrite Z.div_1_r.
  destruct (Z.to_nat n) as [| k] eqn:Hk; [lia |].
  cbn [seq map]. eexists. reflexivity.
Qed.

Lemma zlen_zero_nil {A : Type} (l : list A) : zlen l = 0 -> l = [].
Proof. destruct l; [reflexivity | unfold zlen; cbn [length]; lia]. Qed.

Section NoiseEdges.
Context `{RandomSource} `{Libm}.

Lemma hum_empty (sample_rate : Z) (st : list float * rng) :
  zlen (fst st) = 0 ->
  exists st', hum 0 sample_rate st = inr st' /\ zlen (fst st') = 0.
Proof.
  intros Hn. destruct st as [samples g]. unfold hum.
  destruct (random_uniform 45 65 g) as [hum_freq g1].
  destruct (random_uniform 0.02 0.05 g1) as [hum_vol g2].
  change (py_range 0 0 1) with (@nil Z). cbn [for_each bind ret].
  eexists. split; [reflexivity | exact Hn].
Qed.

Lemma warble_empty (sample_rate : Z) (st : list float * rng) :
  zlen (fst st) = 0 ->
  exists st', warble 0 sample_rate st = inr st' /\ zlen (fst st') = 0.
Proof.
  intros Hn. destruct st as [samples g]. unfold warble.
  destruct (random_uniform 2 4 g) as [warble_freq g1].
  destruct (random_uniform 0.003 0.008 g1) as [warble_depth g2].
  change (py_range 0 0 1) with (@nil Z). cbn [for_each bind ret].
  eexists. split; [reflexivity | exact Hn].
Qed.

(** X9: on an empty buffer the distortion pass returns the empty buffer,
    whatever the rate (zero included): no loop body runs, and every
    crackle burst has an empty range. *)
Theorem add_noise_empty (sample_rate : Z) (g : rng) :
  exists g', _add_noise [] sample_rate g = inr ([], g').
Proof.
  unfold _add_noise. change (zlen (@nil float)) with 0.
  destruct (white_noise_length 0 ([], g) eq_refl) as [st1 [-> H1]]. cbn [bind].
  destruct (hum_empty sample_rate st1 H1) as [st2 [-> H2]]. cbn [bind].
  destruct (crackle_length 0 st2 H2) as [st3 [-> H3]]. cbn [bind].
  destruct (warble_empty sample_rate st3 H3) as [[s4 g4] [-> H4]].
  cbn [fst] in H4. apply zlen_zero_nil in H4. subst s4. exists g4. reflexivity.
Qed.

(** X10: on a buffer that is not empty, a zero rate makes the distortion
    pass raise [ZeroDivisionError]: the hum pass divides the index by
    the rate. *)
Theorem add_noise_zero_rate (samples : list float) (g : rng) :
  samples <> [] -> _add_noise samples 0 g = inl ZeroDivisionError.
Proof.
  intros Hne. unfold _add_noise.
  destruct (white_noise_length (zlen samples) (samples, g) eq_refl) as [[s1 g1] [-> H1]].
  cbn [bind fst] in *.
  assert (Hpos : 0 < zlen samples).
  { destruct samples; [congruence | unfold zlen; cbn [length]; lia]. }
  unfold hum.
  destruct (random_uniform 45 65 g1) as [hum_freq g2].
  destruct (random_uniform 0.02 0.05 g2) as [hum_vol g3].
  destruct (py_range_pos_cons _ Hpos) as [l ->].
  cbn [for_each]. unfold int_truediv. change (0 =? 0) with true. cbv iota.
  reflexivity.
Qed.

End NoiseEdges.

Lemma add_noise_zero_rate_witness :
  @_add_noise counter_random taylor_libm [0.5%float] 0 0 = inl ZeroDivisionError.
Proof. apply (@add_noise_zero_rate counter_random taylor_libm). discriminate. Defined.

(** ** [_resample]: what a returned buffer holds *)





(** ** [_wav_to_samples]: the range of the decoded samples *)

Lemma le_unsigned_bound (b : bytes) : 0 <= le_unsigned b < 2 ^ (8 * blen b).
Proof.
  induction b as [| x b IH].
  - cbn. lia.
  - cbn [le_unsigned]. pose proof (byte_val_bounds x) as Hx.
    replace (8 * blen (x :: b)) with (8 + 8 * blen b)
      by (unfold blen; cbn [length]; lia).
    rewrite Z.pow_add_r by (pose proof (blen_nonneg b); lia).
    change (2 ^ 8) with 256. lia.
Qed.

Lemma le_signed_bound (b : bytes) :
  b <> [] -> - 2 ^ (8 * blen b - 1) <= le_signed b < 2 ^ (8 * blen b - 1).
Proof.
  intros Hne. unfold le_signed.
  pose proof (le_unsigned_bound b) as Hu.
  assert (Hn : 0 < blen b) by (destruct b; [congruence | unfold blen; cbn [length]; lia]).
  replace (0 <? 8 * blen b) with true by (symmetry; apply Z.ltb_lt; lia).
  cbn [andb].
  assert (Hp : 2 ^ (8 * blen b) = 2 * 2 ^ (8 * blen b - 1)).
  { rewrite <- Z.pow_succ_r by lia. f_equal. lia. }
  destruct (Z.leb_spec (2 ^ (8 * blen b - 1)) (le_unsigned b)); lia.
Qed.

Lemma le_signed_pair (x y : byte) : int16 (le_signed [x; y]).
Proof. exact (le_signed_bound [x; y] ltac:(discriminate)). Qed.

Lemma unpack_h_seq_int16 (b : bytes) : Forall int16 (unpack_h_seq b).
Proof.
  assert (H : forall (n : nat) (b : bytes), (length b <= n)%nat -> Forall int16 (unpack_h_seq b)).
  { induction n as [| n IH]; intros [| x [| y b']] Hlen; try constructor;
      cbn [length] in Hlen; try lia.
    - apply le_signed_pair.
    - apply IH. lia. }
  exact (H (length b) b (Nat.le_refl _)).
Qed.

(** A sample of [w >= 3] bytes, cut to its 16 high-order bits. *)
Lemma shifted_sample_int16 (raw : bytes) (i w : Z) :
  w <> 1 -> w <> 2 ->
  int16 (Z.shiftr (le_signed (bslice raw i (i + w))) (8 * (w - 2))).
Proof.
  intros H1 H2. set (b := bslice raw i (i + w)).
  assert (Hb : blen b <= Z.max 0 w).
  { subst b. unfold blen, bslice. rewrite length_firstn. lia. }
  destruct b as [| x b'] eqn:Eb.
  { change (le_signed []) with 0. rewrite Z.shiftr_0_l. unfold int16. lia. }
  rewrite <- Eb in *. assert (Hne : b <> []) by (rewrite Eb; discriminate).
  pose proof (le_signed_bound b Hne) as Hs.
  assert (Hn : 0 < blen b) by (rewrite Eb; unfold blen; cbn [length]; lia).
  assert (Hw : 3 <= w) by lia.
  rewrite Z.shiftr_div_pow2 by lia.
  assert (Hk : 0 < 2 ^ (8 * (w - 2))) by (apply Z.pow_pos_nonneg; lia).
  assert (Hle : 2 ^ (8 * blen b - 1) <= 2 ^ (8 * (w - 2)) * 2 ^ 15).
  { rewrite <- Z.pow_add_r by lia. apply Z.pow_le_mono_r; lia. }
  unfold int16. split.
  - apply Z.div_le_lower_bound; [exact Hk |]. lia.
  - apply Z.div_lt_upper_bound; [exact Hk |]. lia.
Qed.

Lemma extract_samples_int16 (sampwidth : Z) (raw_data : bytes) (samples : list Z) :
  extract_samples sampwidth raw_data = inr samples -> Forall int16 samples.
Proof.
  unfold extract_samples.
  destruct (Z.eqb_spec sampwidth 2) as [-> | H2].
  { unfold unpack_h. destruct (_ =? _); [| discriminate].
    intros Hs. injection Hs as <-. apply unpack_h_seq_int16. }
  destruct (Z.eqb_spec sampwidth 1) as [-> | H1]; intros Hs; injection Hs as <-.
  - apply Forall_forall. intros v Hv. apply in_map_iff in Hv.
    destruct Hv as [x [<- _]]. pose proof (byte_val_bounds x). unfold int16. lia.
  - apply Forall_forall. intros v Hv. apply in_map_iff in Hv.
    destruct Hv as [i [<- _]]. cbv zeta. apply shifted_sample_int16; assumption.
Qed.

Lemma znth_int16 (samples : list Z) (i : Z) :
  Forall int16 samples -> int16 (znth 0 samples i).
Proof.
  intros Hall. unfold znth.
  destruct (Nat.lt_ge_cases (Z.to_nat i) (length samples)) as [Hlt | Hge].
  - rewrite Forall_forall in Hall. apply Hall. apply nth_In. exact Hlt.
  - rewrite nth_overflow by exact Hge. unfold int16. lia.
Qed.

Lemma downmix_int16 (samples : list Z) : Forall int16 samples -> Forall int16 (downmix samples).
Proof.
  intros Hall. unfold downmix. apply Forall_forall. intros v Hv.
  apply in_map_iff in Hv. destruct Hv as [i [<- _]].
  pose proof (znth_int16 samples i Hall) as Ha.
  pose proof (znth_int16 samples (i + 1) Hall) as Hb.
  destruct (i + 1 <? zlen samples); [| exact Ha].
  unfold int16 in *. split.
  - apply Z.div_le_lower_bound; lia.
  - apply Z.div_lt_upper_bound; lia.
Qed.

Lemma normalize_all_in_range :
  all_from (Z.to_nat 65536) (-32768) (fun k => in_unit_range (normalize k)) = true.
Proof. vm_compute. reflexivity. Qed.

Lemma normalize_in_range (v : Z) : int16 v -> in_unit_range (normalize v) = true.
Proof.
  intros Hv. unfold int16 in Hv.
  exact (all_from_spec _ _ _ v normalize_all_in_range ltac:(lia)).
Qed.

(** X12: every sample that [_wav_to_samples] returns is a float [s]
    with [-1.0 <= s < 1.0], for every container, sample width and
    channel count. *)
Theorem wav_to_samples_range (wav : bytes) (out : list float) (rate : Z) :
  _wav_to_samples wav = inr (out, rate) ->
  Forall (fun s => in_unit_range s = true) out.
Proof.
  unfold _wav_to_samples. destruct (wave_open_rb wav) as [e | wf]; [discriminate |].
  cbn [bind]. cbv zeta.
  destruct (extract_samples _ _) as [e | samples] eqn:He; [discriminate |].
  cbn [bind ret]. intros Hout. injection Hout as <- _.
  pose proof (extract_samples_int16 _ _ _ He) as Hs.
  assert (Hm : Forall int16 (if getnchannels wf =? 2 then downmix samples else samples)).
  { destruct (getnchannels wf =? 2); [apply downmix_int16 |]; exact Hs. }
  apply Forall_forall. intros s Hin. apply in_map_iff in Hin.
  destruct Hin as [v [<- Hv]]. apply normalize_in_range.
  rewrite Forall_forall in Hm. apply Hm. exact Hv.
Qed.

Lemma wav_to_samples_range_witness :
  exists out rate, _wav_to_samples stereo_wav = inr (out, rate) /\
                   Forall (fun s => in_unit_range s = true) out.
Proof.
  destruct (_wav_to_samples stereo_wav) as [e | [out rate]] eqn:Hd;
    [vm_compute in Hd; discriminate Hd |].
  exists out, rate. split; [reflexivity |].
  exact (wav_to_samples_range stereo_wav out rate Hd).
Defined.

(** ** Decoding, then encoding again *)

Lemma decay_all : all_from (Z.to_nat 65536) (-32768) decays_by_one = true.
Proof. vm_compute. reflexivity. Qed.

Lemma quantised_normalize (v : Z) : int16 v -> quantised (normalize v) (v - Z.sgn v).
Proof.
  intros Hv. unfold int16 in Hv.
  pose proof (all_from_spec _ _ _ v decay_all ltac:(lia)) as Hd.
  unfold decays_by_one in Hd. unfold quantised.
  destruct (py_int (clamp (normalize v) * 32767)) as [e | q]; [discriminate |].
  apply Z.eqb_eq in Hd. subst q. split; [reflexivity | lia].
Qed.

Lemma quantised_unique (s : float) (v v' : Z) : quantised s v -> quantised s v' -> v = v'.
Proof. intros [H1 _] [H2 _]. congruence. Qed.

(** X13: decoding a mono 16-bit container and encoding the result at the
    same rate does not give the container back: every sample [v] that
    is not zero comes back as [v - 1] when positive and [v + 1] when
    negative, one step closer to zero. *)
Theorem reencode_decays (rate : Z) (vs : list Z) :
  0 < rate < 2 ^ 31 -> 36 + 2 * zlen vs < 2 ^ 32 -> Forall int16 vs ->
  exists samples,
    _wav_to_samples (mono16_container rate (concat (map (le_bytes 2) vs))) =
      inr (samples, rate) /\
    _samples_to_wav samples rate =
      inr (mono16_container rate
             (concat (map (le_bytes 2) (map (fun v => v - Z.sgn v) vs)))).
Proof.
  intros Hr Hn Hvs. exists (map normalize vs). split.
  - pose proof (packed_length vs) as Hl.
    destruct (mono16_container_opens rate (concat (map (le_bytes 2) vs)))
      as [wf [Hopen [Hc [Hw [Hf [Hnf Hrd]]]]]];
      [lia | lia | rewrite Hl; apply odd_double | lia |].
    unfold _wav_to_samples. rewrite Hopen. cbn [bind]. rewrite Hrd, Hw, Hc, Hf.
    unfold extract_samples. change (2 =? 2) with true. cbv iota.
    rewrite (unpack_h_packed vs Hvs). cbn [bind]. change (1 =? 2) with false. reflexivity.
  - assert (Hz : zlen (map normalize vs) = zlen vs) by (unfold zlen; rewrite length_map; reflexivity).
    destruct (samples_to_wav_spec (map normalize vs) rate Hr ltac:(lia)) as [qs [Hqs ->]].
    do 3 f_equal.
    clear Hn Hz. revert qs Hqs. induction Hvs as [| v vs Hv _ IH]; intros qs Hqs.
    + inversion Hqs. reflexivity.
    + cbn [map] in Hqs. inversion Hqs as [| ? q ? qs' Hq Hrest]; subst. cbn [map].
      f_equal; [| apply IH; exact Hrest].
      f_equal. exact (quantised_unique _ _ _ Hq (quantised_normalize v Hv)).
Qed.

Lemma reencode_decays_witness :
  exists samples,
    _wav_to_samples (mono16_container 22050 (concat (map (le_bytes 2) [0; 16384; -32768]))) =
      inr (samples, 22050) /\
    _samples_to_wav samples 22050 =
      inr (mono16_container 22050 (concat (map (le_bytes 2) [0; 16383; -32767]))).
Proof.
  apply (reencode_decays 22050 [0; 16384; -32768]); [lia | reflexivity |].
  repeat constructor; unfold int16; lia.
Defined.

(** ** The clamp of the encoder *)

Lemma SFcompare_antisym (x y : spec_float) :
  SFcompare y x = option_map CompOpp (SFcompare x y).
Proof.
  destruct x as [sx | sx | | sx mx ex], y as [sy | sy | | sy my ey]; cbn [SFcompare option_map];
    try reflexivity; try (destruct sx; reflexivity); try (destruct sy; reflexivity);
    try (destruct sx, sy; reflexivity).
  f_equal. fold (Pos.compare mx my). fold (Pos.compare my mx).
  rewrite (Z.compare_antisym ey ex), (Pos.compare_antisym my mx).
  destruct sx, sy; try reflexivity;
    destruct (ey ?= ex); cbn [CompOpp]; try reflexivity;
    destruct (my ?= mx)%positive; reflexivity.
Qed.

Lemma leb_not_ltb (a b : float) : (a <=? b)%float = true -> (b <? a)%float = false.
Proof.
  rewrite FloatAxioms.ltb_spec, FloatAxioms.leb_spec. unfold SFltb, SFleb.
  rewrite (SFcompare_antisym (Prim2SF a) (Prim2SF b)).
  destruct (SFcompare (Prim2SF a) (Prim2SF b)) as [[| |] |]; cbn [option_map CompOpp];
    intros Hc; try discriminate Hc; reflexivity.
Qed.

Lemma nan_not_ltb (s a : float) : Prim2SF s = S754_nan -> (s <? a)%float = false.
Proof. intros Hs. rewrite FloatAxioms.ltb_spec, Hs. reflexivity. Qed.

Lemma below_minus_one_below_one (s : float) :
  (s <=? -1)%float = true -> (s <? 1)%float = true.
Proof.
  rewrite FloatAxioms.ltb_spec, FloatAxioms.leb_spec, prim2sf_one, prim2sf_minus_one.
  unfold SFltb, SFleb.
  destruct (Prim2SF s) as [sx | sx | | sx mx ex]; cbn [SFcompare];
    try discriminate; try (destruct sx; (discriminate || reflexivity)).
Qed.

(** X14: the encoder saturates: a sample that is [1.0] or more, or a
    NaN, is stored as [32767], and a sample that is [-1.0] or less as
    [-32767]; the value [-32768] is never stored. *)
Theorem clamp_saturates (s : float) :
  ((1 <=? s)%float = true \/ Prim2SF s = S754_nan -> quantised s 32767) /\
  ((s <=? -1)%float = true -> quantised s (-32767)).
Proof.
  split.
  - intros Hs.
    assert (Hlt : (s <? 1)%float = false).
    { destruct Hs as [Hs | Hs]; [exact (leb_not_ltb _ _ Hs) | exact (nan_not_ltb _ _ Hs)]. }
    unfold quantised, clamp, py_min. rewrite Hlt.
    split; [vm_compute; reflexivity | lia].
  - intros Hs. unfold quantised, clamp, py_min, py_max.
    rewrite (below_minus_one_below_one s Hs), (leb_not_ltb _ _ Hs).
    split; [vm_compute; reflexivity | lia].
Qed.

Lemma clamp_saturates_witness :
  quantised 2.5%float 32767 /\ quantised nan 32767 /\ quantised neg_infinity (-32767).
Proof.
  split; [| split].
  - apply (proj1 (clamp_saturates 2.5%float)). left. vm_compute. reflexivity.
  - apply (proj1 (clamp_saturates nan)). right. vm_compute. reflexivity.
  - apply (proj2 (clamp_saturates neg_infinity)). vm_compute. reflexivity.
Defined.

(** ** Magnitudes of binary64 results *)

Lemma digits_shift (m k : Z) :
  0 < m -> 0 <= k < Zdigits2 m -> Zdigits2 (m / 2 ^ k) = Zdigits2 m - k /\ 0 < m / 2 ^ k.
Proof.
  intros Hm Hk. pose proof (digits_bounds m Hm) as Hb.
  assert (Hp : 0 < 2 ^ k) by (apply Z.pow_pos_nonneg; lia).
  assert (H1 : 2 ^ (Zdigits2 m - 1) = 2 ^ k * 2 ^ (Zdigits2 m - k - 1)).
  { rewrite <- Z.pow_add_r by lia. f_equal. lia. }
  assert (H2 : 2 ^ Zdigits2 m = 2 ^ k * 2 ^ (Zdigits2 m - k)).
  { rewrite <- Z.pow_add_r by lia. f_equal. lia. }
  assert (Hq : 0 < 2 ^ (Zdigits2 m - k - 1)) by (apply Z.pow_pos_nonneg; lia).
  assert (Hlo : 2 ^ (Zdigits2 m - k - 1) <= m / 2 ^ k).
  { apply Z.div_le_lower_bound; [exact Hp | lia]. }
  assert (Hhi : m / 2 ^ k < 2 ^ (Zdigits2 m - k)).
  { apply Z.div_lt_upper_bound; [exact Hp | lia]. }
  split; [| lia]. apply digits_unique; [lia |]. split; [exact Hlo | exact Hhi].
Qed.

Lemma digits_next (a b : Z) :
  0 < a -> a <= b <= a + 1 ->
  Zdigits2 b = Zdigits2 a \/ (Zdigits2 b = Zdigits2 a + 1 /\ b = 2 ^ Zdigits2 a).
Proof.
  intros Ha Hb. pose proof (digits_bounds a Ha) as Hd. pose proof (digits_nonneg a) as Hn.
  destruct (Z.lt_ge_cases b (2 ^ Zdigits2 a)) as [Hlt | Hge].
  - left. apply digits_unique; lia.
  - right. assert (Heq : b = 2 ^ Zdigits2 a) by lia. split; [| exact Heq].
    apply digits_unique; [lia |].
    replace (Zdigits2 a + 1 - 1) with (Zdigits2 a) by lia.
    rewrite Z.pow_add_r, Z.pow_1_r by lia. lia.
Qed.

Lemma digits_pow2 (d : Z) : 0 <= d -> Zdigits2 (2 ^ d) = d + 1.
Proof.
  intros Hd. assert (0 < 2 ^ d) by (apply Z.pow_pos_nonneg; lia).
  apply digits_unique; [assumption |].
  replace (d + 1 - 1) with d by lia. rewrite Z.pow_add_r, Z.pow_1_r by lia. lia.
Qed.

(** Rounding a positive mantissa in the normal range gives a finite
    number whose leading bit is where it was, or one place higher. *)
Lemma round_mag (s : bool) (m e : Z) (l : location) :
  0 < m -> -1021 <= Zdigits2 m + e <= 1023 -> e <= 971 \/ 53 <= Zdigits2 m ->
  exists (q : positive) (e3 : Z),
    binary_round_aux prec emax s m e l = S754_finite s q e3 /\
    Zdigits2 m + e <= Zdigits2 (Zpos q) + e3 <= Zdigits2 m + e + 1 /\
    (Zdigits2 m <= 53 -> l = loc_Exact -> Zdigits2 (Zpos q) + e3 = Zdigits2 m + e).
Proof.
  intros Hm HD He.
  destruct (binary_round_aux_shape s m e l ltac:(lia)) as [m2 [Hm2 [Hex Hres]]].
  cbv zeta in *. rewrite Hres. clear Hres. rewrite !fexp_unfold in *.
  set (d := Zdigits2 m) in *.
  assert (Hd : 0 < d) by (subst d; pose proof (digits_bounds m Hm); destruct m; cbn in *; lia).
  replace (Z.max (d + e - 53) (-1074) - e) with (d - 53) in * by lia.
  set (k1 := Z.max 0 (d - 53)) in *.
  destruct (digits_shift m k1 Hm ltac:(subst k1; fold d; lia)) as [Hda Hapos]. fold d in Hda.
  set (a := m / 2 ^ k1) in *.
  destruct (digits_next a m2 Hapos Hm2) as [Hd2 | [Hd2 Hpow]].
  - (* the mantissa keeps its length *)
    rewrite Hd2, Hda.
    replace (Z.max (d - k1 + (e + k1) - 53) (-1074) - (e + k1)) with (d - k1 - 53) by lia.
    replace (Z.max 0 (d - k1 - 53)) with 0 by lia.
    rewrite Z.pow_0_r, Z.div_1_r.
    destruct m2 as [| q | q]; [lia | | lia].
    replace (e + k1 + 0 <=? emax - prec) with true
      by (symmetry; apply Z.leb_le; change (emax - prec) with 971; lia).
    exists q, (e + k1 + 0). split; [reflexivity |]. rewrite Hd2, Hda.
    split; [lia |]. intros _ _. lia.
  - (* the mantissa became a power of two, one bit longer *)
    assert (Hno : d <= 53 -> l = loc_Exact -> False).
    { intros Hle Hl. assert (Hk : k1 = 0) by lia.
      pose proof (Hex Hk Hl) as E. rewrite E in Hd2.
      change (Zdigits2 m) with d in Hd2. lia. }
    rewrite Hd2, Hda.
    replace (Z.max (d - k1 + 1 + (e + k1) - 53) (-1074) - (e + k1)) with (d - k1 - 52) by lia.
    destruct (Z.le_gt_cases (d - k1) 52) as [Hshort | Hlong].
    + replace (Z.max 0 (d - k1 - 52)) with 0 by lia.
      rewrite Z.pow_0_r, Z.div_1_r.
      destruct m2 as [| q | q]; [lia | | lia].
      replace (e + k1 + 0 <=? emax - prec) with true
        by (symmetry; apply Z.leb_le; change (emax - prec) with 971; lia).
      exists q, (e + k1 + 0). split; [reflexivity |]. rewrite Hd2, Hda.
      split; [lia |]. intros Hle Hl. destruct (Hno Hle Hl).
    + assert (Hk : d - k1 = 53) by lia.
      replace (Z.max 0 (d - k1 - 52)) with 1 by lia.
      rewrite Hpow, Hda, Hk.
      change (2 ^ 53 / 2 ^ 1) with (2 ^ 52).
      assert (Hq : exists q, 2 ^ 52 = Zpos q /\ Zdigits2 (Zpos q) = 53).
      { exists (2 ^ 52)%positive. split; reflexivity. }
      destruct Hq as [q [-> Hdq]].
      replace (e + k1 + 1 <=? emax - prec) with true
        by (symmetry; apply Z.leb_le; change (emax - prec) with 971; lia).
      exists q, (e + k1 + 1). split; [reflexivity |]. rewrite Hdq.
      split; [lia |]. intros Hle Hl. destruct (Hno Hle Hl).
Qed.

(** ** Conversions and operations in the normal range *)

Lemma iter_xO (p k : positive) : Zpos (Pos.iter xO p k) = Zpos p * 2 ^ Zpos k.
Proof.
  induction k as [| k IH] using Pos.peano_ind.
  - cbn [Pos.iter]. rewrite Z.pow_1_r. lia.
  - rewrite Pos.iter_succ, Pos2Z.inj_succ, Z.pow_succ_r by lia.
    rewrite Pos2Z.inj_xO, IH. ring.
Qed.

Lemma digits_scale (m j : Z) : 0 < m -> 0 <= j -> Zdigits2 (m * 2 ^ j) = Zdigits2 m + j.
Proof.
  intros Hm Hj. pose proof (digits_bounds m Hm) as Hb.
  assert (Hd : 0 < Zdigits2 m) by (destruct m; cbn in *; lia).
  assert (Hp : 0 < 2 ^ j) by (apply Z.pow_pos_nonneg; lia).
  apply digits_unique; [apply Z.mul_pos_pos; assumption |].
  replace (Zdigits2 m + j - 1) with (Zdigits2 m - 1 + j) by lia.
  rewrite !Z.pow_add_r by lia. split.
  - apply Z.mul_le_mono_nonneg_r; lia.
  - apply Z.mul_lt_mono_pos_r; lia.
Qed.

Lemma round_mag_of (s : bool) (m e : Z) (l : location) :
  0 < m -> -1021 <= Zdigits2 m + e <= 1023 -> e <= 971 \/ 53 <= Zdigits2 m ->
  s = false ->
  exists D, mag (binary_round_aux prec emax s m e l) D /\
            Zdigits2 m + e <= D <= Zdigits2 m + e + 1 /\
            (Zdigits2 m <= 53 -> l = loc_Exact -> D = Zdigits2 m + e).
Proof.
  intros Hm HD He ->.
  destruct (round_mag false m e l Hm HD He) as [q [e3 [Hr [Hb Hx]]]].
  exists (Zdigits2 (Zpos q) + e3). split; [exists q, e3; split; [exact Hr | reflexivity] |].
  split; assumption.
Qed.

Lemma float_of_int_mag (z : Z) :
  0 < z < 2 ^ 63 ->
  exists D, mag (Prim2SF (float_of_int z)) D /\
            Zdigits2 z <= D <= Zdigits2 z + 1 /\ (Zdigits2 z <= 53 -> D = Zdigits2 z).
Proof.
  intros Hz. unfold float_of_int.
  replace (Z.abs z <? 2 ^ 63) with true by (symmetry; apply Z.ltb_lt; lia).
  replace (z <? 0) with false by (symmetry; apply Z.ltb_ge; lia).
  rewrite of_uint63_spec, Uint63.of_Z_spec.
  rewrite Z.mod_small by (change wB with (2 ^ 63); lia).
  destruct z as [| p | p]; try lia.
  cbn [binary_normalize]. unfold binary_round, shl_align. rewrite fexp_unfold.
  assert (Hd : 0 < Zpos (digits2_pos p) <= 63).
  { split; [lia |]. apply (digits_le (Zpos p) 63); lia. }
  change (Zdigits2 (Zpos p)) with (Zpos (digits2_pos p)).
  set (d := Zpos (digits2_pos p)) in *.
  replace (Z.max (d + 0 - 53) (-1074) - 0) with (d - 53) by lia.
  replace (Z.max (d + 0 - 53) (-1074)) with (d - 53) by lia.
  destruct (d - 53) as [| k | k] eqn:Hk.
  - destruct (round_mag_of false (Zpos p) 0 loc_Exact ltac:(lia)
                ltac:(change (Zdigits2 (Zpos p)) with d; lia) ltac:(left; lia) eq_refl)
      as [D [HD [Hb Hx]]].
    change (Zdigits2 (Zpos p)) with d in *.
    exists D. split; [exact HD |]. split; [lia |]. intros Hle. specialize (Hx Hle eq_refl). lia.
  - destruct (round_mag_of false (Zpos p) 0 loc_Exact ltac:(lia)
                ltac:(change (Zdigits2 (Zpos p)) with d; lia) ltac:(left; lia) eq_refl)
      as [D [HD [Hb Hx]]].
    change (Zdigits2 (Zpos p)) with d in *.
    exists D. split; [exact HD |]. split; [lia |]. intros Hle. specialize (Hx Hle eq_refl). lia.
  - assert (Hm : Zdigits2 (Zpos (Pos.iter xO p k)) = 53).
    { rewrite iter_xO, digits_scale by lia. change (Zdigits2 (Zpos p)) with d. lia. }
    destruct (round_mag_of false (Zpos (Pos.iter xO p k)) (Z.neg k) loc_Exact ltac:(lia)
                ltac:(rewrite Hm; lia) ltac:(left; lia) eq_refl)
      as [D [HD [Hb Hx]]].
    rewrite Hm in *.
    exists D. split; [exact HD |]. specialize (Hx ltac:(lia) eq_refl). lia.
Qed.

Lemma div_mag (f g : float) (Dx Dy : Z) :
  mag (Prim2SF f) Dx -> mag (Prim2SF g) Dy ->
  -1021 <= Dx - Dy <= 1022 ->
  exists D, mag (Prim2SF (f / g)) D /\ Dx - Dy <= D <= Dx - Dy + 2.
Proof.
  intros [mx [ex [Hx HDx]]] [my [ey [Hy HDy]]] Hr.
  rewrite FloatAxioms.div_spec, Hx, Hy. unfold SF64div, SFdiv, SFdiv_core_binary.
  rewrite fexp_unfold.
  set (d1 := Zdigits2 (Zpos mx)) in *. set (d2 := Zdigits2 (Zpos my)) in *.
  assert (Hd1 : 0 < d1) by (subst d1; cbn; lia).
  assert (Hd2 : 0 < d2) by (subst d2; cbn; lia).
  pose proof (digits_bounds (Zpos mx) ltac:(lia)) as Hbx. fold d1 in Hbx.
  pose proof (digits_bounds (Zpos my) ltac:(lia)) as Hby. fold d2 in Hby.
  set (e' := Z.min (Z.max (d1 + ex - (d2 + ey) - 53) (-1074)) (ex - ey)).
  set (s := ex - ey - e').
  assert (Hs : 53 + d2 - d1 <= s /\ 0 <= s) by (subst s e'; lia).
  set (m' := match s with Z.pos _ => Z.shiftl (Zpos mx) s | 0 => Zpos mx | Z.neg _ => 0 end).
  assert (Hm' : m' = Zpos mx * 2 ^ s).
  { subst m'. destruct s as [| p | p] eqn:Es; [rewrite Z.pow_0_r; lia | | lia].
    rewrite Z.shiftl_mul_pow2 by lia. reflexivity. }
  assert (Hq : Z.div_eucl m' (Zpos my) = (m' / Zpos my, m' mod Zpos my)).
  { unfold Z.div, Z.modulo. destruct (Z.div_eucl m' (Zpos my)). reflexivity. }
  rewrite Hq. clearbody m'. subst m'.
  set (q := Zpos mx * 2 ^ s / Zpos my).
  assert (Hps : 0 < 2 ^ s) by (apply Z.pow_pos_nonneg; lia).
  assert (Hlo : 2 ^ (d1 + s - d2 - 1) <= q).
  { subst q. apply Z.div_le_lower_bound; [lia |].
    assert (Hp : 0 < 2 ^ (d1 + s - d2 - 1)) by (apply Z.pow_pos_nonneg; lia).
    apply Z.le_trans with (2 ^ d2 * 2 ^ (d1 + s - d2 - 1)).
    - apply Z.mul_le_mono_nonneg_r; lia.
    - rewrite <- Z.pow_add_r by lia.
      replace (d2 + (d1 + s - d2 - 1)) with (d1 - 1 + s) by lia.
      rewrite Z.pow_add_r by lia. apply Z.mul_le_mono_nonneg_r; lia. }
  assert (Hhi : q < 2 ^ (d1 + s - d2 + 1)).
  { subst q. apply Z.div_lt_upper_bound; [lia |].
    assert (Hp : 0 < 2 ^ (d1 + s - d2 + 1)) by (apply Z.pow_pos_nonneg; lia).
    apply Z.lt_le_trans with (2 ^ d1 * 2 ^ s).
    - apply Z.mul_lt_mono_pos_r; lia.
    - assert (E : 2 ^ d1 * 2 ^ s = 2 ^ (d2 - 1) * 2 ^ (d1 + s - d2 + 1)).
      { rewrite <- !Z.pow_add_r by lia. f_equal. lia. }
      rewrite E. apply Z.mul_le_mono_nonneg_r; lia. }
  assert (Hqpos : 0 < q).
  { assert (0 < 2 ^ (d1 + s - d2 - 1)) by (apply Z.pow_pos_nonneg; lia). lia. }
  assert (Hdq : d1 + s - d2 <= Zdigits2 q <= d1 + s - d2 + 1).
  { split; [apply digits_ge; [| exact Hqpos] | apply digits_le; [lia | lia]].
    replace (d1 + s - d2 - 1) with (d1 + s - d2 - 1) by lia. exact Hlo. }
  destruct (round_mag_of (xorb false false) q e'
              (new_location (Zpos my) (Zpos mx * 2 ^ s mod Zpos my)) Hqpos)
    as [D [HD [Hb _]]]; [subst s; lia | right; lia | reflexivity |].
  exists D. split; [exact HD | subst s; lia].
Qed.

Lemma digits_mul (a b : Z) :
  0 < a -> 0 < b -> Zdigits2 a + Zdigits2 b - 1 <= Zdigits2 (a * b) <= Zdigits2 a + Zdigits2 b.
Proof.
  intros Ha Hb. pose proof (digits_bounds a Ha) as Ba. pose proof (digits_bounds b Hb) as Bb.
  assert (Hda : 0 < Zdigits2 a) by (destruct a; cbn in *; lia).
  assert (Hdb : 0 < Zdigits2 b) by (destruct b; cbn in *; lia).
  assert (Hpa : 0 < 2 ^ (Zdigits2 a - 1)) by (apply Z.pow_pos_nonneg; lia).
  assert (Hpb : 0 < 2 ^ (Zdigits2 b - 1)) by (apply Z.pow_pos_nonneg; lia).
  split.
  - apply digits_ge; [| apply Z.mul_pos_pos; assumption].
    replace (Zdigits2 a + Zdigits2 b - 1 - 1) with (Zdigits2 a - 1 + (Zdigits2 b - 1)) by lia.
    rewrite Z.pow_add_r by lia. apply Z.mul_le_mono_nonneg; lia.
  - apply digits_le; [lia |]. split; [apply Z.mul_nonneg_nonneg; lia |].
    rewrite Z.pow_add_r by lia. apply Z.mul_lt_mono_nonneg; lia.
Qed.

Lemma mag_normal (f : float) (D : Z) (m : positive) (e : Z) :
  Prim2SF f = S754_finite false m e -> Zdigits2 (Zpos m) + e = D -> -1021 <= D ->
  Zdigits2 (Zpos m) = 53.
Proof.
  intros Hf HD Hn. destruct (valid_finite f false m e Hf) as [Hc _].
  change (Zdigits2 (Zpos m)) with (Zpos (digits2_pos m)) in *. lia.
Qed.

Lemma mul_mag (f g : float) (Dx Dy : Z) :
  mag (Prim2SF f) Dx -> mag (Prim2SF g) Dy ->
  -1021 <= Dx -> -1021 <= Dy -> -1020 <= Dx + Dy <= 1023 ->
  exists D, mag (Prim2SF (f * g)) D /\ Dx + Dy - 1 <= D <= Dx + Dy + 1.
Proof.
  intros [mx [ex [Hx HDx]]] [my [ey [Hy HDy]]] Hnx Hny Hr.
  pose proof (mag_normal f Dx mx ex Hx HDx Hnx) as H53x.
  pose proof (mag_normal g Dy my ey Hy HDy Hny) as H53y.
  rewrite FloatAxioms.mul_spec, Hx, Hy. unfold SF64mul, SFmul.
  rewrite Pos2Z.inj_mul.
  pose proof (digits_mul (Zpos mx) (Zpos my) ltac:(lia) ltac:(lia)) as Hd.
  destruct (round_mag_of (xorb false false) (Zpos mx * Zpos my) (ex + ey) loc_Exact
              ltac:(lia)) as [D [HD [Hb _]]]; [lia | right; lia | reflexivity |].
  exists D. split; [exact HD | lia].
Qed.

Lemma py_int_mag (f : float) (D : Z) :
  mag (Prim2SF f) D -> exists n, py_int f = inr n /\ 0 <= n /\ (0 <= D -> n < 2 ^ D).
Proof.
  intros [m [e [Hf HD]]]. unfold py_int. rewrite Hf. cbn [ret].
  exists (Z.shiftl (Zpos m) e). split; [reflexivity |].
  split; [apply Z.shiftl_nonneg; lia |]. intros HD0.
  pose proof (digits_bounds (Zpos m) ltac:(lia)) as Hb.
  assert (Hd : 0 < Zdigits2 (Zpos m)) by (cbn; lia).
  destruct (Z.le_gt_cases 0 e) as [He | He].
  - rewrite Z.shiftl_mul_pow2 by lia. rewrite <- HD, Z.pow_add_r by lia.
    apply Z.mul_lt_mono_pos_r; [apply Z.pow_pos_nonneg; lia | lia].
  - rewrite Z.shiftl_div_pow2 by lia.
    apply Z.div_lt_upper_bound; [apply Z.pow_pos_nonneg; lia |].
    rewrite <- Z.pow_add_r by lia. replace (- e + D) with (Zdigits2 (Zpos m)) by lia. lia.
Qed.

Lemma py_int_mag_max (f : float) (D : Z) :
  mag (Prim2SF f) D -> exists n, py_int f = inr n /\ 0 <= n < 2 ^ Z.max 0 D.
Proof.
  intros Hm. destruct (py_int_mag f D Hm) as [n [Hn [H0 Hlt]]].
  exists n. split; [exact Hn |]. split; [exact H0 |].
  destruct (Z.le_gt_cases 0 D) as [HD | HD].
  - replace (Z.max 0 D) with D by lia. exact (Hlt HD).
  - replace (Z.max 0 D) with 0 by lia.
    destruct Hm as [m [e [Hf HDe]]]. unfold py_int in Hn. rewrite Hf in Hn.
    cbn [ret] in Hn. injection Hn as <-.
    pose proof (digits_bounds (Zpos m) ltac:(lia)) as Hb.
    assert (Hd : 0 < Zdigits2 (Zpos m)) by (cbn; lia).
    rewrite Z.shiftl_div_pow2 by lia. rewrite Z.pow_0_r.
    apply Z.div_lt_upper_bound; [apply Z.pow_pos_nonneg; lia |]. rewrite Z.mul_1_r.
    apply Z.lt_le_trans with (2 ^ Zdigits2 (Zpos m)); [lia |].
    apply Z.pow_le_mono_r; lia.
Qed.

Lemma mag_nonzero (f : float) (D : Z) : mag (Prim2SF f) D -> (f =? 0)%float = false.
Proof.
  intros [m [e [Hf _]]]. rewrite FloatAxioms.eqb_spec, Hf. reflexivity.
Qed.

Lemma zero_div_mag (g : float) (D : Z) :
  mag (Prim2SF g) D -> py_int (float_of_int 0 / g) = inr 0.
Proof.
  intros [m [e [Hg _]]]. unfold py_int. rewrite FloatAxioms.div_spec, Hg. reflexivity.
Qed.

Lemma zero_mul_mag (g : float) (D : Z) :
  mag (Prim2SF g) D -> py_int (float_of_int 0 * g) = inr 0.
Proof.
  intros [m [e [Hg _]]]. unfold py_int. rewrite FloatAxioms.mul_spec, Hg. reflexivity.
Qed.

Lemma rate_mag (r : Z) :
  0 < r < 2 ^ 31 -> exists D, mag (Prim2SF (float_of_int r)) D /\ 1 <= D <= 31.
Proof.
  intros Hr. destruct (float_of_int_mag r ltac:(lia)) as [D [HD [_ Hx]]].
  assert (Hd : 1 <= Zdigits2 r <= 31).
  { split; [apply digits_ge; [rewrite Z.pow_0_r |]; lia | apply digits_le; lia]. }
  exists D. split; [exact HD |]. specialize (Hx ltac:(lia)). lia.
Qed.

(** The source index of every output index is a non-negative integer. *)
Lemma source_index (ratio : float) (Dr i : Z) :
  mag (Prim2SF ratio) Dr -> -30 <= Dr <= 33 -> 0 <= i < 2 ^ 63 ->
  exists idx, py_int (float_of_int i * ratio) = inr idx /\ 0 <= idx.
Proof.
  intros Hm HDr Hi. destruct (Z.eq_dec i 0) as [-> | Hnz].
  - exists 0. split; [exact (zero_mul_mag ratio Dr Hm) | lia].
  - destruct (float_of_int_mag i ltac:(lia)) as [Di [HDi [Hb _]]].
    assert (Hd : 1 <= Zdigits2 i <= 63).
    { split; [apply digits_ge; [rewrite Z.pow_0_r |]; lia | apply digits_le; lia]. }
    destruct (mul_mag (float_of_int i) ratio Di Dr HDi Hm ltac:(lia) ltac:(lia) ltac:(lia))
      as [D [HD _]].
    destruct (py_int_mag (float_of_int i * ratio) D HD) as [idx [Hidx [H0 _]]].
    exists idx. split; assumption.
Qed.

Lemma resample_at_total (samples : list float) (ratio : float) (Dr i : Z) :
  mag (Prim2SF ratio) Dr -> -30 <= Dr <= 33 -> 0 <= i < 2 ^ 63 ->
  exists v, resample_at samples ratio i = inr v.
Proof.
  intros Hm HDr Hi. unfold resample_at.
  destruct (source_index ratio Dr i Hm HDr Hi) as [idx [-> Hidx]]. cbn [bind].
  destruct (Z.ltb_spec (idx + 1) (zlen samples)) as [H1 | H1].
  - rewrite (list_getitem_in_range samples idx 0%float) by lia. cbn [bind].
    rewrite (list_getitem_in_range samples (idx + 1) 0%float) by lia. cbn [bind ret].
    eexists. reflexivity.
  - destruct (Z.ltb_spec idx (zlen samples)) as [H2 | H2].
    + rewrite (list_getitem_in_range samples idx 0%float) by lia. eexists. reflexivity.
    + eexists. reflexivity.
Qed.

(** X15: for rates that differ, both positive and below [2^31], and a
    buffer of fewer than [2^31] samples, [_resample] returns a buffer:
    the divisions are defined, both conversions to an integer succeed,
    and no index it reads is out of range. *)
Theorem resample_total (samples : list float) (from_rate to_rate : Z) :
  0 < from_rate < 2 ^ 31 -> 0 < to_rate < 2 ^ 31 -> from_rate <> to_rate ->
  zlen samples < 2 ^ 31 ->
  exists out, _resample samples from_rate to_rate = inr out.
Proof.
  intros Hf Ht Hne Hlen. unfold _resample.
  destruct (Z.eqb_spec from_rate to_rate) as [? | _]; [contradiction |].
  unfold int_truediv. destruct (Z.eqb_spec to_rate 0) as [? | _]; [lia |].
  cbn [bind ret].
  destruct (rate_mag from_rate Hf) as [Df [HDf Hbf]].
  destruct (rate_mag to_rate Ht) as [Dt [HDt Hbt]].
  destruct (div_mag _ _ Df Dt HDf HDt ltac:(lia)) as [Dr [HDr Hbr]].
  set (ratio := (float_of_int from_rate / float_of_int to_rate)%float) in *.
  unfold float_truediv. rewrite (mag_nonzero ratio Dr HDr). cbn [bind ret].
  assert (Hn : exists n, py_int (float_of_int (zlen samples) / ratio) = inr n /\
                         0 <= n <= 2 ^ 63).
  { assert (H0 : 0 <= zlen samples) by (unfold zlen; lia).
    destruct (Z.eq_dec (zlen samples) 0) as [-> | Hnz].
    - exists 0. split; [exact (zero_div_mag ratio Dr HDr) | lia].
    - destruct (rate_mag (zlen samples) ltac:(lia)) as [Dl [HDl Hbl]].
      destruct (div_mag _ _ Dl Dr HDl HDr ltac:(lia)) as [Dq [HDq Hbq]].
      destruct (py_int_mag_max _ Dq HDq) as [n [Hn [Hn0 Hnlt]]].
      exists n. split; [exact Hn |]. split; [exact Hn0 |].
      apply Z.lt_le_incl. apply Z.lt_le_trans with (2 ^ Z.max 0 Dq); [exact Hnlt |].
      apply Z.pow_le_mono_r; lia. }
  destruct Hn as [n [-> [Hn0 Hn63]]]. cbn [bind].
  destruct (for_each_invariant
              (fun i resampled => val <- resample_at samples ratio i ;; ret (resampled ++ [val]))
              (fun _ => True) (py_range 0 n 1)) with (s := @nil float)
    as [out [Hout _]]; [| exact I | exists out; exact Hout].
  intros i acc Hin _. apply py_range_unit_in in Hin.
  destruct (resample_at_total samples ratio Dr i HDr ltac:(lia) ltac:(lia)) as [v ->].
  cbn [bind ret]. eexists. split; [reflexivity | exact I].
Qed.

Lemma resample_total_witness :
  exists out, _resample [0; 0.5; 1]%float 44100 22050 = inr out.
Proof.
  apply (resample_total [0; 0.5; 1]%float 44100 22050); try lia. reflexivity.
Defined.

(** X16: a zero rate on either side makes [_resample] raise
    [ZeroDivisionError]: a zero target rate in [from_rate / to_rate],
    a zero source rate in the division of the length by the ratio
    [0.0], even on an empty buffer. *)
Theorem resample_zero_rate (samples : list float) (rate : Z) :
  (rate <> 0 -> _resample samples rate 0 = inl ZeroDivisionError) /\
  (0 < rate < 2 ^ 31 -> _resample samples 0 rate = inl ZeroDivisionError).
Proof.
  split; intros Hr; unfold _resample.
  - destruct (Z.eqb_spec rate 0) as [? | _]; [contradiction |]. reflexivity.
  - destruct (Z.eqb_spec 0 rate) as [? | _]; [lia |].
    unfold int_truediv. destruct (Z.eqb_spec rate 0) as [? | _]; [lia |].
    cbn [bind ret]. unfold float_truediv.
    destruct (rate_mag rate Hr) as [D [[m [e [Hm _]]] _]].
    assert (Hz : (float_of_int 0 / float_of_int rate =? 0)%float = true).
    { rewrite FloatAxioms.eqb_spec, FloatAxioms.div_spec, Hm. reflexivity. }
    rewrite Hz. reflexivity.
Qed.

Lemma resample_zero_rate_witness :
  _resample [0.5%float] 8000 0 = inl ZeroDivisionError /\
  _resample [] 0 22050 = inl ZeroDivisionError.
Proof.
  split.
  - apply (proj1 (resample_zero_rate [0.5%float] 8000)). lia.
  - apply (proj2 (resample_zero_rate [] 22050)). lia.
Defined.

(** ** A recording that declares a rate of zero *)

Lemma resample_from_zero (samples : list float) (rate : Z) :
  0 < rate < 2 ^ 31 -> _resample samples 0 rate = inl ZeroDivisionError.
Proof.
  intros Hr. unfold _resample.
  destruct (Z.eqb_spec 0 rate) as [? | _]; [lia |].
  unfold int_truediv. destruct (Z.eqb_spec rate 0) as [? | _]; [lia |].
  cbn [bind ret]. unfold float_truediv.
  destruct (rate_mag rate Hr) as [D [[m [e [Hm _]]] _]].
  assert (Hz : (float_of_int 0 / float_of_int rate =? 0)%float = true).
  { rewrite FloatAxioms.eqb_spec, FloatAxioms.div_spec, Hm. reflexivity. }
  rewrite Hz. reflexivity.
Qed.

Section ZeroRate.
Context `{RandomSource} `{Libm} `{SpeechEngine}.

(** X17: the decoder does not check the declared rate, so when the
    engine saves a container that decodes with rate 0, [generate_audio]
    and [generate] raise [ZeroDivisionError] in the resampling step. *)
Theorem generate_zero_rate (n : Z) (g : rng) (wav0 : bytes) (samples : list float) :
  (forall t r v vo, save_to_file t r v vo = inr wav0) ->
  _wav_to_samples wav0 = inr (samples, 0) ->
  generate n g = inl ZeroDivisionError.
Proof.
  intros Heng Hdec. unfold generate.
  destruct (generate_text n g) as [txt g1].
  unfold generate_audio.
  destruct (speech_wav_outcome
              (str_join " .... "
                 (map (fun char => dict_get CHAR_TO_WORD char (String char EmptyString))
                      (list_ascii_of_string txt))) g1)
    as [rate [voice [g2 Hcall]]].
  rewrite Hcall, Heng. cbn [bind]. rewrite Hdec. cbn [bind].
  change (negb (0 =? target_rate)) with true. cbv iota.
  rewrite (resample_from_zero samples target_rate) by (unfold target_rate; lia).
  reflexivity.
Qed.

End ZeroRate.

Lemma generate_zero_rate_witness :
  @generate counter_random taylor_libm zero_rate_engine 5 0 = inl ZeroDivisionError.
Proof.
  apply (@generate_zero_rate counter_random taylor_libm zero_rate_engine 5 0 zero_rate_wav
           [0; 0.5; -1]%float).
  - intros t r v vo. reflexivity.
  - vm_compute. reflexivity.
Defined.
